(** * fixed-malloc: a shallow embedding of the linear and slab allocators

    The development follows [src/linear-malloc.c], [src/slab-malloc.c],
    [src/utils.h] and the c-list primitive bundled in
    [src/fixed-malloc-all.h].  The allocator state is the set of C globals
    together with the header words of the pages of the caller's buffer, so
    that records living inside the pages they describe, and the aliasing
    this creates, are part of the model.

    Conventions:
    - [size_t] and [uint64_t] are 64-bit: values are [Z] in [0, 2^64) and
      arithmetic wraps with [wrap];
    - the default build is modelled ([FM_GUARDS] and [FM_TEST_SUPPORT] off,
      [FM_MANUAL_INIT] on);
    - loops over the circular lists take fuel; running out of fuel is the
      outcome [Timeout]. *)

From stdpp Require Import base gmap list.
From Stdlib Require Import ZArith Lia.

#[local] Set Warnings "-clear-no-such-hyp".

Local Open Scope Z_scope.

(** ** Machine words *)

Definition wrap (x : Z) : Z := x mod 2 ^ 64.

Definition FM_PAGE_SHIFT : Z := 12.
Definition FM_PAGE_SIZE : Z := Z.shiftl 1 FM_PAGE_SHIFT.
Definition FM_LM_T_TRANSIENT : Z := 1.
Definition FM_LM_T_PERSISTENT : Z := 2.
Definition NULL : Z := 0.

(** [utils.h]: [x + (((~x) + 1) & (round - 1))] *)
Definition __fm_roundup (x round : Z) : Z :=
  wrap (x + Z.land (wrap (wrap (Z.lnot x) + 1)) (wrap (round - 1))).

(** [utils.h]: [x & (~(round - 1))] *)
Definition __fm_rounddown (x round : Z) : Z :=
  Z.land x (wrap (Z.lnot (wrap (round - 1)))).

(** ** Pointers to list nodes

    A [CList *] points either at one of the static list heads or at the
    first byte of a page of the buffer: [page_ptr n] is the address
    [__buffer_start + n * FM_PAGE_SIZE].  [region_t] and [page_meta_t]
    both start with their [link], so a pointer to the link is a pointer
    to the record. *)

Inductive cptr : Type :=
  | free_regions                (* &__free_regions *)
  | freed_memories              (* &__freed_memories *)
  | slab_lists (i : nat)        (* &slab_lists[i] *)
  | page_ptr (n : Z).

Global Instance cptr_eq_dec : EqDecision cptr.
Proof. solve_decision. Defined.

Global Instance cptr_countable : Countable cptr.
Proof.
  refine (inj_countable'
    (fun p => match p with
              | free_regions => inl 0%nat
              | freed_memories => inl 1%nat
              | slab_lists i => inl (S (S i))
              | page_ptr n => inr n
              end)
    (fun x => match x with
              | inl 0%nat => free_regions
              | inl 1%nat => freed_memories
              | inl (S (S i)) => slab_lists i
              | inr n => page_ptr n
              end) _).
  by intros [].
Defined.

(** ** The allocator state

    Memory is kept field by field.  [c_next] and [c_prev] hold the two
    words of every [CList] that has been written.  For the page at index
    [n], word 2 is [region_t.start_page] and also [page_meta_t.bitmap[0]],
    word 3 is [region_t.pages] and also [page_meta_t.bitmap[1]]; the next
    three words are [size], [count] and [slab_index] of [page_meta_t].
    A word that was never written is absent, and reading it is [Undef].
    [meta_pages] is the table [__meta->pages] in page 0 of the buffer;
    a byte that is absent is zero.  The payload of allocations is not
    part of the state. *)

Record state : Type := mkState {
  buffer_start : Z;
  meta_pages : gmap Z Z;
  c_next : gmap cptr cptr;
  c_prev : gmap cptr cptr;
  start_page : gmap Z Z;
  pages : gmap Z Z;
  m_size : gmap Z Z;
  m_count : gmap Z Z;
  m_slab_index : gmap Z Z
}.

Global Instance state_eq_dec : EqDecision state.
Proof. solve_decision. Defined.

(** ** Outcomes of a call *)

Inductive res (A : Type) : Type :=
  | Ok (a : A) (s : state)      (* the call returned [a] *)
  | Abort                       (* FM_ABORT() was reached *)
  | Undef                       (* behaviour outside the model *)
  | Timeout.                    (* a loop ran out of fuel *)
Arguments Ok {A} a s.
Arguments Abort {A}.
Arguments Undef {A}.
Arguments Timeout {A}.

Definition M (A : Type) : Type := state -> res A.

Definition ret {A} (a : A) : M A := fun s => Ok a s.
Definition bind {A B} (m : M A) (k : A -> M B) : M B :=
  fun s => match m s with
           | Ok a s' => k a s'
           | Abort => Abort
           | Undef => Undef
           | Timeout => Timeout
           end.
Definition FM_ABORT {A} : M A := fun _ => Abort.
Definition undef {A} : M A := fun _ => Undef.
Definition timeout {A} : M A := fun _ => Timeout.
Definition get_state : M state := fun s => Ok s s.
Definition of_option {A} (o : option A) : M A :=
  match o with Some a => ret a | None => undef end.

Notation "'let*' x ':=' c1 'in' c2" := (bind c1 (fun x => c2))
  (at level 10, x name, c1 at level 100, c2 at level 200).
Notation "c1 ;; c2" := (bind c1 (fun _ => c2))
  (at level 100, c2 at level 200, right associativity).

(** *** Field access *)

Definition upd_next (p v : cptr) (s : state) : state :=
  mkState (buffer_start s) (meta_pages s) (<[p := v]> (c_next s)) (c_prev s)
    (start_page s) (pages s) (m_size s) (m_count s) (m_slab_index s).
Definition upd_prev (p v : cptr) (s : state) : state :=
  mkState (buffer_start s) (meta_pages s) (c_next s) (<[p := v]> (c_prev s))
    (start_page s) (pages s) (m_size s) (m_count s) (m_slab_index s).
Definition upd_start_page (n v : Z) (s : state) : state :=
  mkState (buffer_start s) (meta_pages s) (c_next s) (c_prev s)
    (<[n := v]> (start_page s)) (pages s) (m_size s) (m_count s)
    (m_slab_index s).
Definition upd_pages (n v : Z) (s : state) : state :=
  mkState (buffer_start s) (meta_pages s) (c_next s) (c_prev s)
    (start_page s) (<[n := v]> (pages s)) (m_size s) (m_count s)
    (m_slab_index s).
Definition upd_size (n v : Z) (s : state) : state :=
  mkState (buffer_start s) (meta_pages s) (c_next s) (c_prev s)
    (start_page s) (pages s) (<[n := v]> (m_size s)) (m_count s)
    (m_slab_index s).
Definition upd_count (n v : Z) (s : state) : state :=
  mkState (buffer_start s) (meta_pages s) (c_next s) (c_prev s)
    (start_page s) (pages s) (m_size s) (<[n := v]> (m_count s))
    (m_slab_index s).
Definition upd_slab_index (n v : Z) (s : state) : state :=
  mkState (buffer_start s) (meta_pages s) (c_next s) (c_prev s)
    (start_page s) (pages s) (m_size s) (m_count s)
    (<[n := v]> (m_slab_index s)).
Definition upd_meta (i v : Z) (s : state) : state :=
  mkState (buffer_start s) (<[i := v]> (meta_pages s)) (c_next s) (c_prev s)
    (start_page s) (pages s) (m_size s) (m_count s) (m_slab_index s).

Definition get_next (p : cptr) : M cptr := fun s => of_option (c_next s !! p) s.
Definition get_prev (p : cptr) : M cptr := fun s => of_option (c_prev s !! p) s.
Definition set_next (p v : cptr) : M unit := fun s => Ok tt (upd_next p v s).
Definition set_prev (p v : cptr) : M unit := fun s => Ok tt (upd_prev p v s).

(** The fields behind the link exist only for records in the buffer:
    [c_list_entry] applied to a list head yields no record. *)
Definition page_field (f : state -> gmap Z Z) (p : cptr) : M Z := fun s =>
  match p with
  | page_ptr n => of_option (f s !! n) s
  | _ => Undef
  end.
Definition set_page_field (upd : Z -> Z -> state -> state) (p : cptr) (v : Z)
    : M unit := fun s =>
  match p with
  | page_ptr n => Ok tt (upd n v s)
  | _ => Undef
  end.

Definition get_start_page : cptr -> M Z := page_field start_page.
Definition get_pages : cptr -> M Z := page_field pages.
Definition get_size : cptr -> M Z := page_field m_size.
Definition get_count : cptr -> M Z := page_field m_count.
Definition get_slab_index : cptr -> M Z := page_field m_slab_index.

Definition set_start_page : cptr -> Z -> M unit := set_page_field upd_start_page.
Definition set_pages : cptr -> Z -> M unit := set_page_field upd_pages.
Definition set_size : cptr -> Z -> M unit := set_page_field upd_size.
Definition set_count : cptr -> Z -> M unit := set_page_field upd_count.
Definition set_slab_index : cptr -> Z -> M unit :=
  set_page_field upd_slab_index.

(** [bitmap[i]] of a [page_meta_t]; an index past the array is outside the
    model. *)
Definition get_bitmap (p : cptr) (i : Z) : M Z :=
  if i =? 0 then get_start_page p
  else if i =? 1 then get_pages p
  else undef.
Definition set_bitmap (p : cptr) (i : Z) (v : Z) : M unit :=
  if i =? 0 then set_start_page p v
  else if i =? 1 then set_pages p v
  else undef.

(** [__meta->pages[i]]; the table has 4096 entries. *)
Definition META_ENTRIES : Z := 4096.

Definition in_table (i : Z) : bool := (0 <=? i) && (i <? META_ENTRIES).

Definition get_meta (i : Z) : M Z := fun s =>
  if in_table i then Ok (default 0 (meta_pages s !! i)) s else Undef.
Definition set_meta (i v : Z) : M unit := fun s =>
  if in_table i then Ok tt (upd_meta i v s) else Undef.

(** A [uint32_t] in the table, least significant byte first. *)
Definition get_meta32 (i : Z) : M Z :=
  let* b0 := get_meta i in
  let* b1 := get_meta (i + 1) in
  let* b2 := get_meta (i + 2) in
  let* b3 := get_meta (i + 3) in
  ret (b0 + 256 * b1 + 65536 * b2 + 16777216 * b3).
Definition set_meta32 (i v : Z) : M unit :=
  set_meta i (v mod 256) ;;
  set_meta (i + 1) (v / 256 mod 256) ;;
  set_meta (i + 2) (v / 65536 mod 256) ;;
  set_meta (i + 3) (v / 16777216 mod 256).

(** ** c-list *)

Definition cptr_eqb (p q : cptr) : bool :=
  match p, q with
  | free_regions, free_regions => true
  | freed_memories, freed_memories => true
  | slab_lists i, slab_lists j => Nat.eqb i j
  | page_ptr a, page_ptr b => a =? b
  | _, _ => false
  end.

Definition c_list_init (what : cptr) : M cptr :=
  set_next what what ;;
  set_prev what what ;;
  ret what.

Definition c_list_is_linked (what : cptr) : M bool :=
  let* n := get_next what in
  ret (negb (cptr_eqb n what)).

Definition c_list_link_before (where_ what : cptr) : M unit :=
  let* prev := get_prev where_ in
  let next := where_ in
  set_prev next what ;;
  set_next what next ;;
  set_prev what prev ;;
  set_next prev what.
Definition c_list_link_tail := c_list_link_before.

Definition c_list_link_after (where_ what : cptr) : M unit :=
  let prev := where_ in
  let* next := get_next where_ in
  set_prev next what ;;
  set_next what next ;;
  set_prev what prev ;;
  set_next prev what.
Definition c_list_link_front := c_list_link_after.

Definition c_list_unlink_stale (what : cptr) : M unit :=
  let* prev := get_prev what in
  let* next := get_next what in
  set_prev next prev ;;
  set_next prev next.

Definition c_list_unlink (what : cptr) : M unit :=
  let* linked := c_list_is_linked what in
  if linked then
    c_list_unlink_stale what ;;
    c_list_init what ;;
    ret tt
  else ret tt.

(** ** Linear allocator ([linear-malloc.c]) *)

(** The static list heads are the only [CList]s that survive a change of
    buffer. *)
Definition static_heads : list cptr :=
  [free_regions; freed_memories; slab_lists 0; slab_lists 1; slab_lists 2;
   slab_lists 3; slab_lists 4].

Definition statics (m : gmap cptr cptr) : gmap cptr cptr :=
  foldr (fun h acc => match m !! h with
                      | Some v => <[h := v]> acc
                      | None => acc
                      end) ∅ static_heads.

(** [__buffer_start = buffer; __meta = buffer;] and
    [if (!zero_filled) memset(buffer, 0, FM_PAGE_SIZE);].  The table is
    page 0 of the new buffer: [memset] clears it when [zero_filled] is 0.
    Otherwise the page keeps what it holds: the old table when the buffer
    is the one already installed, and zero, by the caller's word, when it
    is another one.  The other pages of the buffer hold nothing the
    allocator may rely on, so their words are absent. *)
Definition set_buffer (buffer zero_filled : Z) : M unit := fun s =>
  let table :=
    if zero_filled =? 0 then ∅
    else if buffer =? buffer_start s then meta_pages s else ∅ in
  Ok tt (mkState buffer table (statics (c_next s)) (statics (c_prev s))
           ∅ ∅ ∅ ∅ ∅).

(** [fm_lm_reinit]: the checks, then the new buffer with one free region
    from page 1 to the end. *)
Definition fm_lm_reinit (buffer size zero_filled : Z) : M Z :=
  if negb (Z.land buffer (FM_PAGE_SIZE - 1) =? 0) then FM_ABORT else
  if negb (Z.land size (FM_PAGE_SIZE - 1) =? 0) then FM_ABORT else
  if (size <? 128 * 1024) || (size >=? 16 * 1024 * 1024) then FM_ABORT else
  set_buffer buffer zero_filled ;;
  let region := page_ptr 1 in
  set_start_page region 1 ;;
  set_pages region (size / FM_PAGE_SIZE - 1) ;;
  c_list_init free_regions ;;
  c_list_link_after free_regions region ;;
  c_list_init freed_memories ;;
  ret 0.

(** The same function as bundled in [fixed-malloc-all.h], whose size check
    is [(size < 128 * 1024) || (size > 0xFFFFFFFF)]. *)
Definition fm_lm_reinit_all_h (buffer size zero_filled : Z) : M Z :=
  if negb (Z.land buffer (FM_PAGE_SIZE - 1) =? 0) then FM_ABORT else
  if negb (Z.land size (FM_PAGE_SIZE - 1) =? 0) then FM_ABORT else
  if (size <? 128 * 1024) || (size >? 4294967295) then FM_ABORT else
  set_buffer buffer zero_filled ;;
  let region := page_ptr 1 in
  set_start_page region 1 ;;
  set_pages region (size / FM_PAGE_SIZE - 1) ;;
  c_list_init free_regions ;;
  c_list_link_after free_regions region ;;
  c_list_init freed_memories ;;
  ret 0.

Definition mark_alloced_pages (first_page npages : Z) : M unit :=
  if npages <? 255 then
    set_meta first_page (npages mod 256)
  else
    set_meta first_page 255 ;;
    let aligned_page := __fm_roundup (wrap (first_page + 1)) 4 in
    set_meta32 aligned_page (npages mod 2 ^ 32).

Definition fetch_alloced_pages (first_page : Z) : M Z :=
  let* npages := get_meta first_page in
  if npages <? 255 then ret npages
  else
    let aligned_page := __fm_roundup (wrap (first_page + 1)) 4 in
    get_meta32 aligned_page.

Definition ptr_to_page (ptr : Z) : M Z := fun s =>
  Ok (wrap (ptr - buffer_start s) / FM_PAGE_SIZE) s.

Definition page_to_ptr (page : Z) : M Z := fun s =>
  Ok (wrap (buffer_start s + wrap (page * FM_PAGE_SIZE))) s.

(** Casts between [void *] and record pointers.  Only records at the first
    byte of a page are in the model. *)
Definition record_at (ptr : Z) : M cptr := fun s =>
  let off := wrap (ptr - buffer_start s) in
  if off mod FM_PAGE_SIZE =? 0 then Ok (page_ptr (off / FM_PAGE_SIZE)) s
  else Undef.

Definition address_of (p : cptr) : M Z :=
  match p with
  | page_ptr n => page_to_ptr n
  | _ => undef
  end.

Definition move_region (src : cptr) : M cptr :=
  let* sp := get_start_page src in
  let* dst_addr := page_to_ptr sp in
  let* dst := record_at dst_addr in
  if cptr_eqb dst src then ret dst
  else
    (* memcpy(dst, src, sizeof(region_t)) *)
    let* n := get_next src in
    let* p := get_prev src in
    let* np := get_pages src in
    set_next dst n ;;
    set_prev dst p ;;
    set_start_page dst sp ;;
    set_pages dst np ;;
    let* dn := get_next dst in
    set_prev dn dst ;;
    let* dp := get_prev dst in
    set_next dp dst ;;
    ret dst.

Definition fm_lm_free (ptr : Z) : M unit :=
  let* first_page := ptr_to_page ptr in
  let* npages := fetch_alloced_pages first_page in
  let* region := record_at ptr in
  set_start_page region first_page ;;
  set_pages region npages ;;
  c_list_link_tail freed_memories region.

(** The body of the three first-fit scans, once a region has been chosen
    by the forward walks: carve [requested_pages] from its front. *)
Definition carve_front (iter : cptr) (requested_pages : Z) : M Z :=
  let region := iter in
  let* result := get_start_page region in
  set_start_page region (wrap (result + requested_pages)) ;;
  let* np := get_pages region in
  set_pages region (wrap (np - requested_pages)) ;;
  let* np' := get_pages region in
  (if np' =? 0 then c_list_unlink iter
   else (move_region region ;; ret tt)) ;;
  ret result.

Fixpoint alloc_designated_loop (fuel : nat) (start requested_pages : Z)
    (iter : cptr) : M Z :=
  match fuel with
  | O => timeout
  | S fuel' =>
      if cptr_eqb iter free_regions then ret 0
      else
        let region := iter in
        let* sp := get_start_page region in
        let* fits :=
          (if sp =? start then
             let* np := get_pages region in
             ret (requested_pages <=? np)
           else ret false) in
        if fits
        then carve_front iter requested_pages
        else
          let* nxt := get_next iter in
          alloc_designated_loop fuel' start requested_pages nxt
  end.

Definition alloc_designated_free_pages (fuel : nat)
    (start requested_pages : Z) : M Z :=
  let* first := get_next free_regions in
  alloc_designated_loop fuel start requested_pages first.

Fixpoint alloc_free_pages_loop (fuel : nat) (requested_pages : Z)
    (iter : cptr) : M Z :=
  match fuel with
  | O => timeout
  | S fuel' =>
      if cptr_eqb iter free_regions then ret 0
      else
        let region := iter in
        let* np := get_pages region in
        if requested_pages <=? np
        then carve_front iter requested_pages
        else
          let* nxt := get_next iter in
          alloc_free_pages_loop fuel' requested_pages nxt
  end.

Definition alloc_free_pages (fuel : nat) (requested_pages : Z) : M Z :=
  let* first := get_next free_regions in
  alloc_free_pages_loop fuel requested_pages first.

Fixpoint alloc_free_pages_reverse_loop (fuel : nat) (requested_pages : Z)
    (iter : cptr) : M Z :=
  match fuel with
  | O => timeout
  | S fuel' =>
      if cptr_eqb iter free_regions then ret 0
      else
        let region := iter in
        let* np := get_pages region in
        if requested_pages <=? np
        then
          let* sp := get_start_page region in
          let result := wrap (wrap (sp + np) - requested_pages) in
          set_pages region (wrap (np - requested_pages)) ;;
          let* np' := get_pages region in
          (if np' =? 0 then c_list_unlink iter else ret tt) ;;
          ret result
        else
          let* prv := get_prev iter in
          alloc_free_pages_reverse_loop fuel' requested_pages prv
  end.

Definition alloc_free_pages_reverse (fuel : nat) (requested_pages : Z) : M Z :=
  let* last := get_prev free_regions in
  alloc_free_pages_reverse_loop fuel requested_pages last.

Fixpoint merged_consecutive_loop (fuel : nat) (prev_item current_item : cptr)
    : M unit :=
  match fuel with
  | O => timeout
  | S fuel' =>
      if negb (cptr_eqb prev_item free_regions)
         && negb (cptr_eqb current_item free_regions)
      then
        let prev_region := prev_item in
        let current_region := current_item in
        let* ps := get_start_page prev_region in
        let* pp := get_pages prev_region in
        let* cs := get_start_page current_region in
        if wrap (ps + pp) =? cs then
          let* cp := get_pages current_region in
          set_pages prev_region (wrap (pp + cp)) ;;
          c_list_unlink current_item ;;
          let* nxt := get_next prev_item in
          merged_consecutive_loop fuel' prev_item nxt
        else
          let* nxt := get_next current_item in
          merged_consecutive_loop fuel' current_item nxt
      else ret tt
  end.

Definition merged_consecutive_pages (fuel : nat) : M unit :=
  let* prev_item := get_next free_regions in
  let* current_item := get_next prev_item in
  merged_consecutive_loop fuel prev_item current_item.

Fixpoint restore_freed_loop (fuel : nat) (free_region : cptr)
    (prev_item iter : cptr) : M unit :=
  match fuel with
  | O => timeout
  | S fuel' =>
      if cptr_eqb iter free_regions then
        (* Insert pages at the very end *)
        c_list_link_tail free_regions free_region ;;
        merged_consecutive_pages fuel'
      else
        let region := iter in
        let* fs := get_start_page free_region in
        let* rs := get_start_page region in
        if fs <? rs then
          let* inserted :=
            (if negb (cptr_eqb prev_item free_regions) then
               let prev_region := prev_item in
               let* ps := get_start_page prev_region in
               let* pp := get_pages prev_region in
               if wrap (ps + pp) =? fs then
                 let* fp := get_pages free_region in
                 set_pages prev_region (wrap (pp + fp)) ;;
                 ret true
               else ret false
             else ret false) in
          let* it_ins :=
            (if inserted then ret (iter, true)
             else
               let* fp := get_pages free_region in
               let* rs' := get_start_page region in
               if wrap (fs + fp) =? rs' then
                 (* Attach free pages to current item, the region moves *)
                 set_start_page region fs ;;
                 let* rp := get_pages region in
                 set_pages region (wrap (rp + fp)) ;;
                 let* new_region := move_region region in
                 ret (new_region, true)
               else ret (iter, false)) in
          if it_ins.2 then merged_consecutive_pages fuel'
          else c_list_link_before it_ins.1 free_region
        else
          let* nxt := get_next iter in
          restore_freed_loop fuel' free_region iter nxt
  end.

Definition restore_freed_region (fuel : nat) (free_region : cptr) : M unit :=
  let* first := get_next free_regions in
  restore_freed_loop fuel free_region free_regions first.

Fixpoint restore_all_loop (fuel : nat) (iter : cptr) : M unit :=
  match fuel with
  | O => timeout
  | S fuel' =>
      if cptr_eqb iter freed_memories then ret tt
      else
        let region := iter in
        let* nxt := get_next iter in
        restore_freed_region fuel' region ;;
        restore_all_loop fuel' nxt
  end.

Definition restore_all_freed_memories (fuel : nat) : M unit :=
  let* first := get_next freed_memories in
  restore_all_loop fuel first ;;
  c_list_init freed_memories ;;
  ret tt.

Definition alloc (fuel : nat) (npages t : Z) : M Z :=
  if t =? FM_LM_T_TRANSIENT then alloc_free_pages fuel npages
  else alloc_free_pages_reverse fuel npages.

Definition fm_lm_malloc (fuel : nat) (size t : Z) : M Z :=
  let size := __fm_roundup size FM_PAGE_SIZE in
  let npages := size / FM_PAGE_SIZE in
  let* page := alloc fuel npages t in
  let* page :=
    (if page =? 0 then
       restore_all_freed_memories fuel ;;
       alloc fuel npages t
     else ret page) in
  if page =? 0 then ret NULL
  else
    mark_alloced_pages page npages ;;
    page_to_ptr page.

(** [memcpy] of the payload leaves the modelled state alone. *)
Definition fm_lm_realloc (fuel : nat) (ptr size t : Z) : M Z :=
  if ptr =? NULL then fm_lm_malloc fuel size t
  else
    let size := __fm_roundup size FM_PAGE_SIZE in
    let new_pages := size / FM_PAGE_SIZE in
    let* first_page := ptr_to_page ptr in
    let* npages := fetch_alloced_pages first_page in
    if new_pages <=? npages then ret ptr
    else
      let* succeeding_pages :=
        alloc_designated_free_pages fuel (wrap (first_page + npages))
          (wrap (new_pages - npages)) in
      if negb (succeeding_pages =? 0) then ret ptr
      else
        let* p := fm_lm_malloc fuel size t in
        (if negb (p =? NULL) then fm_lm_free ptr else ret tt) ;;
        ret p.

(** The state of a program built with [FM_MANUAL_INIT] before the first
    [fm_lm_reinit]: every static list head is [C_LIST_INIT], there is no
    buffer. *)
Definition boot_links : gmap cptr cptr :=
  list_to_map (map (fun h => (h, h)) static_heads).

Definition boot_state : state :=
  mkState NULL ∅ boot_links boot_links ∅ ∅ ∅ ∅ ∅.

(** *** Reading a list off the heap

    [walk_next fuel head p] follows [next] from [p] until [head] and
    returns the nodes met, or [None] when a link is missing or the fuel
    runs out. *)
Fixpoint walk_next (s : state) (fuel : nat) (head p : cptr)
    : option (list cptr) :=
  match fuel with
  | O => None
  | S fuel' =>
      if cptr_eqb p head then Some []
      else match c_next s !! p with
           | Some q => option_map (cons p) (walk_next s fuel' head q)
           | None => None
           end
  end.

Definition list_nodes (s : state) (fuel : nat) (head : cptr)
    : option (list cptr) :=
  match c_next s !! head with
  | Some p => walk_next s fuel head p
  | None => None
  end.

(** The [{start_page, pages}] record stored at a node. *)
Definition region_at (s : state) (p : cptr) : option (Z * Z) :=
  match p with
  | page_ptr n =>
      match start_page s !! n, pages s !! n with
      | Some a, Some b => Some (a, b)
      | _, _ => None
      end
  | _ => None
  end.

Definition regions_of (s : state) (fuel : nat) (head : cptr)
    : option (list (Z * Z)) :=
  match list_nodes s fuel head with
  | Some l => mapM (region_at s) l
  | None => None
  end.

Definition free_list (s : state) (fuel : nat) := regions_of s fuel free_regions.
Definition deferred_list (s : state) (fuel : nat) :=
  regions_of s fuel freed_memories.

(** ** Slab allocator ([slab-malloc.c]) *)

Definition FM_SM_INVALID_SLAB : Z := 4294967295.
Definition slab_sizes : list Z := [32; 64; 128; 512; 1024].
Definition PAGE_META_RESERVED_SIZE : Z := 64.

Definition fm_sm_reinit (buffer size zero_filled : Z) : M Z :=
  let* r := fm_lm_reinit buffer size zero_filled in
  if negb (r =? 0) then ret r
  else
    c_list_init (slab_lists 0) ;;
    c_list_init (slab_lists 1) ;;
    c_list_init (slab_lists 2) ;;
    c_list_init (slab_lists 3) ;;
    c_list_init (slab_lists 4) ;;
    ret 0.

Fixpoint slab_index_from (i : nat) (sizes : list Z) (size : Z) : Z :=
  match sizes with
  | [] => FM_SM_INVALID_SLAB
  | sz :: rest =>
      if size <=? sz then Z.of_nat i else slab_index_from (S i) rest size
  end.

Definition slab_index (size : Z) : Z := slab_index_from 0 slab_sizes size.

(** [&slab_lists[i]]; an index past the array is outside the model. *)
Definition slab_list_at (i : Z) : M cptr :=
  if (0 <=? i) && (i <? 5) then ret (slab_lists (Z.to_nat i)) else undef.

Definition ptr_to_index (meta : cptr) (ptr : Z) : M Z :=
  let* m := address_of meta in
  let base := wrap (m + PAGE_META_RESERVED_SIZE) in
  let* sz := get_size meta in
  if sz =? 0 then undef
  else ret (wrap (ptr - base) / sz).

Definition index_to_ptr (meta : cptr) (index : Z) : M Z :=
  let* m := address_of meta in
  let* sz := get_size meta in
  ret (wrap (wrap (m + PAGE_META_RESERVED_SIZE) + wrap (index * sz))).

Definition bitmap_all_cleared (meta : cptr) : M bool :=
  let* b0 := get_bitmap meta 0 in
  if b0 =? 0 then
    let* b1 := get_bitmap meta 1 in
    ret (b1 =? 0)
  else ret false.

(** [__builtin_popcountl] and [__builtin_ctzl] on 64-bit words *)
Definition popcountl (x : Z) : Z :=
  foldr (fun i acc => (if Z.testbit x (Z.of_nat i) then 1 else 0) + acc)
        0 (seq 0 64).

Fixpoint ctz_from (n : nat) (i : Z) (x : Z) : Z :=
  match n with
  | O => i
  | S n' => if Z.testbit x i then i else ctz_from n' (i + 1) x
  end.
Definition ctzl (x : Z) : Z := ctz_from 64 0 x.

Definition not64 (x : Z) : Z := wrap (Z.lnot x).
Definition UINT64_MAX : Z := 2 ^ 64 - 1.

Definition bitmap_all_used (meta : cptr) : M bool :=
  let* b0 := get_bitmap meta 0 in
  let* b1 := get_bitmap meta 1 in
  let* cnt := get_count meta in
  ret (wrap (popcountl b0 + popcountl b1) =? cnt).

Definition bitmap_next_free (meta : cptr) : M Z :=
  let* b0 := get_bitmap meta 0 in
  let* zeros :=
    (if negb (b0 =? UINT64_MAX) then ret (ctzl (not64 b0))
     else
       let* b1 := get_bitmap meta 1 in
       if negb (b1 =? UINT64_MAX) then ret (64 + ctzl (not64 b1))
       else ret FM_SM_INVALID_SLAB) in
  let* cnt := get_count meta in
  if cnt <=? zeros then ret FM_SM_INVALID_SLAB else ret zeros.

Definition bitmap_set (meta : cptr) (index : Z) : M unit :=
  let* w := get_bitmap meta (index / 64) in
  set_bitmap meta (index / 64) (Z.lor w (Z.shiftl 1 (index mod 64))).

Definition bitmap_clear (meta : cptr) (index : Z) : M unit :=
  let* w := get_bitmap meta (index / 64) in
  set_bitmap meta (index / 64)
    (Z.land w (not64 (Z.shiftl 1 (index mod 64)))).

Definition fm_sm_free (ptr : Z) : M unit :=
  if Z.land ptr (FM_PAGE_SIZE - 1) =? 0 then fm_lm_free ptr
  else
    let* meta := record_at (__fm_rounddown ptr FM_PAGE_SIZE) in
    let* element_index := ptr_to_index meta ptr in
    let* all_used := bitmap_all_used meta in
    bitmap_clear meta element_index ;;
    if all_used then
      let* si := get_slab_index meta in
      let* head := slab_list_at si in
      c_list_link_tail head meta
    else ret tt.

Fixpoint free_empty_slabs_loop (fuel : nat) (head iter : cptr) : M unit :=
  match fuel with
  | O => timeout
  | S fuel' =>
      if cptr_eqb iter head then ret tt
      else
        let meta := iter in
        let old := iter in
        let* nxt := get_next iter in
        let* cleared := bitmap_all_cleared meta in
        (if cleared then
           c_list_unlink old ;;
           let* a := address_of meta in
           fm_lm_free a
         else ret tt) ;;
        free_empty_slabs_loop fuel' head nxt
  end.

Definition free_empty_slabs_in (fuel : nat) (i : nat) : M unit :=
  let* first := get_next (slab_lists i) in
  free_empty_slabs_loop fuel (slab_lists i) first.

Definition free_empty_slabs (fuel : nat) : M unit :=
  free_empty_slabs_in fuel 0 ;;
  free_empty_slabs_in fuel 1 ;;
  free_empty_slabs_in fuel 2 ;;
  free_empty_slabs_in fuel 3 ;;
  free_empty_slabs_in fuel 4.

Definition lm_malloc (fuel : nat) (size t : Z) : M Z :=
  let* p := fm_lm_malloc fuel size t in
  if p =? NULL then
    free_empty_slabs fuel ;;
    fm_lm_malloc fuel size t
  else ret p.

(** The walk of [fm_sm_malloc] over one class list; [None] when no page of
    the list has a free cell. *)
Fixpoint sm_scan_loop (fuel : nat) (head iter : cptr) : M (option Z) :=
  match fuel with
  | O => timeout
  | S fuel' =>
      if cptr_eqb iter head then ret None
      else
        let meta := iter in
        let* index := bitmap_next_free meta in
        if negb (index =? FM_SM_INVALID_SLAB) then
          bitmap_set meta index ;;
          let* full := bitmap_all_used meta in
          (if full then c_list_unlink iter else ret tt) ;;
          let* p := index_to_ptr meta index in
          ret (Some p)
        else
          let* nxt := get_next iter in
          sm_scan_loop fuel' head nxt
  end.

Definition fm_sm_malloc (fuel : nat) (size : Z) : M Z :=
  let i := slab_index size in
  if i =? FM_SM_INVALID_SLAB then lm_malloc fuel size FM_LM_T_TRANSIENT
  else
    let* head := slab_list_at i in
    let* first := get_next head in
    let* found := sm_scan_loop fuel head first in
    match found with
    | Some p => ret p
    | None =>
        (* Create a new slab here *)
        let* slab := fm_lm_malloc fuel FM_PAGE_SIZE FM_LM_T_PERSISTENT in
        if slab =? NULL then ret NULL
        else
          let* meta := record_at slab in
          set_bitmap meta 0 0 ;;
          set_bitmap meta 1 0 ;;
          let* sz := of_option (slab_sizes !! Z.to_nat i) in
          set_size meta sz ;;
          set_slab_index meta i ;;
          set_count meta ((FM_PAGE_SIZE - PAGE_META_RESERVED_SIZE) / sz) ;;
          c_list_link_front head meta ;;
          let element_index := 0 in
          bitmap_set meta element_index ;;
          index_to_ptr meta element_index
    end.

(** [memcpy] of the cell's payload leaves the modelled state alone. *)
Definition fm_sm_realloc (fuel : nat) (ptr size : Z) : M Z :=
  if Z.land ptr (FM_PAGE_SIZE - 1) =? 0
  then fm_lm_realloc fuel ptr size FM_LM_T_TRANSIENT
  else
    let* meta := record_at (__fm_rounddown ptr FM_PAGE_SIZE) in
    let* sz := get_size meta in
    if size <=? sz then ret ptr
    else
      let* p := fm_sm_malloc fuel size in
      (if negb (p =? NULL) then fm_sm_free ptr else ret tt) ;;
      ret p.

(** ** Sequences of API calls

    A client is a list of calls; pointers are the addresses the calls
    returned.  [do_calls] returns the values of the calls in order (0 for
    the [void] ones). *)

Inductive call : Type :=
  | lm_malloc_call (size t : Z)
  | lm_free_call (ptr : Z)
  | lm_realloc_call (ptr size t : Z)
  | sm_malloc_call (size : Z)
  | sm_free_call (ptr : Z)
  | sm_realloc_call (ptr size : Z).

Definition do_call (fuel : nat) (c : call) : M Z :=
  match c with
  | lm_malloc_call size t => fm_lm_malloc fuel size t
  | lm_free_call ptr => fm_lm_free ptr ;; ret 0
  | lm_realloc_call ptr size t => fm_lm_realloc fuel ptr size t
  | sm_malloc_call size => fm_sm_malloc fuel size
  | sm_free_call ptr => fm_sm_free ptr ;; ret 0
  | sm_realloc_call ptr size => fm_sm_realloc fuel ptr size
  end.

Fixpoint do_calls (fuel : nat) (cs : list call) : M (list Z) :=
  match cs with
  | [] => ret []
  | c :: cs' =>
      let* r := do_call fuel c in
      let* rs := do_calls fuel cs' in
      ret (r :: rs)
  end.

(** A 128 KiB buffer (32 pages) at address [0x10000], freshly
    reinitialised, and the address of its page [n]. *)
Definition buffer0 : Z := 65536.
Definition page0 (n : Z) : Z := buffer0 + n * FM_PAGE_SIZE.

Definition fresh_lm : res Z := fm_lm_reinit buffer0 (128 * 1024) 0 boot_state.
Definition fresh_sm : res Z := fm_sm_reinit buffer0 (128 * 1024) 0 boot_state.

(** Running [m] in the state a run [r] has reached, and looking at the
    outcome. *)
Definition run_then {A B} (r : res A) (m : M B) : res B :=
  match r with
  | Ok _ s => m s
  | Abort => Abort
  | Undef => Undef
  | Timeout => Timeout
  end.

Definition then_calls {A} (fuel : nat) (r : res A) (cs : list call)
    : res (list Z) :=
  run_then r (do_calls fuel cs).

Definition returned {A} (r : res A) : option A :=
  match r with Ok a _ => Some a | _ => None end.
Definition observe {A B} (r : res A) (f : state -> B) : option B :=
  match r with Ok _ s => Some (f s) | _ => None end.
Definition same_final {A B} (r1 : res A) (r2 : res B) : bool :=
  match r1, r2 with
  | Ok _ s1, Ok _ s2 => bool_decide (s1 = s2)
  | _, _ => false
  end.

Definition free_list_of {A} (fuel : nat) (r : res A) :=
  observe r (fun s => free_list s fuel).
Definition deferred_list_of {A} (fuel : nat) (r : res A) :=
  observe r (fun s => deferred_list s fuel).

(** S1 of the specification followed by the two frees of S2. *)
Definition S1_then_frees : list call :=
  [lm_malloc_call 4096 FM_LM_T_TRANSIENT;
   lm_malloc_call 4096 FM_LM_T_PERSISTENT;
   lm_free_call (page0 1);
   lm_free_call (page0 31)].

(** One page taken and given back. *)
Definition malloc_then_free : list call :=
  [lm_malloc_call 4096 FM_LM_T_TRANSIENT; lm_free_call (page0 1)].

(** Strictly ascending starts and no two touching neighbours. *)
Fixpoint ascending (l : list (Z * Z)) : Prop :=
  match l with
  | [] => True
  | a :: l' =>
      match l' with
      | [] => True
      | b :: _ => a.1 < b.1 /\ a.1 + a.2 ≠ b.1
      end /\ ascending l'
  end.

(** The claim of scenario S2 about the call [lm_malloc(8192, TRANSIENT)]
    made after the run [before]: it returns page 1 and leaves [{3, 29}] as
    the only free region. *)
Definition S2_as_specified {A} (fuel : nat) (before : res A) : Prop :=
  let after := run_then before (fm_lm_malloc fuel 8192 FM_LM_T_TRANSIENT) in
  returned after = Some (page0 1) /\
  free_list_of fuel after = Some (Some [(3, 29)]).

(** The claim about [fm_lm_reinit] with the bound of 4 GiB. *)
Definition reinit_as_specified (buffer size zero_filled : Z) (s : state)
    : Prop :=
  let bad :=
    Z.land buffer (FM_PAGE_SIZE - 1) ≠ 0 \/
    Z.land size (FM_PAGE_SIZE - 1) ≠ 0 \/
    ~ (128 * 1024 <= size < 4 * 1024 * 1024 * 1024) in
  (fm_lm_reinit buffer size zero_filled s = Abort <-> bad) /\
  (~ bad -> returned (fm_lm_reinit buffer size zero_filled s) = Some 0).

(** The claim that a failed [fm_lm_malloc], called after the run
    [before], leaves the lists and the metadata as they were. *)
Definition null_leaves_state {A} (fuel : nat) (size t : Z) (before : res A)
    : Prop :=
  let after := run_then before (fm_lm_malloc fuel size t) in
  returned after = Some NULL ->
  free_list_of fuel after = free_list_of fuel before /\
  deferred_list_of fuel after = deferred_list_of fuel before /\
  observe after meta_pages = observe before meta_pages.

Definition page_aligned (x : Z) : Prop := Z.land x (FM_PAGE_SIZE - 1) = 0.

(** A client that is handed page 2 twice: once by [lm_malloc(0)], once by
    [lm_malloc(4096)], and frees each pointer it was given once. *)
Definition zero_size_alias_calls : list call :=
  [lm_malloc_call 4096 FM_LM_T_PERSISTENT;          (* y  = page 31 *)
   lm_malloc_call 4096 FM_LM_T_TRANSIENT;           (* x  = page 1 *)
   lm_malloc_call 0 FM_LM_T_TRANSIENT;              (* p0 = page 2 *)
   lm_malloc_call 4096 FM_LM_T_TRANSIENT;           (* q  = page 2 *)
   lm_free_call (page0 1);                          (* free(x) *)
   lm_free_call (page0 2);                          (* free(p0) *)
   lm_malloc_call (29 * 4096) FM_LM_T_TRANSIENT;    (* r  = page 1 *)
   lm_free_call (page0 2);                          (* free(q) *)
   lm_free_call (page0 1);                          (* free(r) *)
   lm_malloc_call 8192 FM_LM_T_TRANSIENT;           (* page 1 *)
   lm_free_call (page0 31)].                        (* free(y) *)

(** The slab layer with every page of the buffer taken and one empty slab
    page of class 64 still on its class list. *)
Definition exhausted_with_empty_slab_calls : list call :=
  [sm_malloc_call 64;                               (* slab page 31 *)
   sm_malloc_call (30 * 4096);                      (* pages 1..30 *)
   sm_free_call (page0 31 + 64)].

(** ** Reasoning about the heap

    [chain nx pv x l z]: following [next] from [x] visits the nodes of [l]
    and then [z], and [prev] leads back.  A circular list with head [h]
    and nodes [l] is [dll]. *)

Fixpoint chain (nx pv : gmap cptr cptr) (x : cptr) (l : list cptr) (z : cptr)
    : Prop :=
  match l with
  | [] => nx !! x = Some z /\ pv !! z = Some x
  | y :: l' => nx !! x = Some y /\ pv !! y = Some x /\ chain nx pv y l' z
  end.

Definition dll (nx pv : gmap cptr cptr) (h : cptr) (l : list cptr) : Prop :=
  chain nx pv h l h /\ NoDup (h :: l).

(** What a call must do: return, with [post], or time out for want of
    fuel; [Abort] and [Undef] are excluded. *)
Definition spec {A} (r : res A) (enough : Prop) (post : A -> state -> Prop)
    : Prop :=
  match r with
  | Ok a s' => post a s'
  | Timeout => ~ enough
  | _ => False
  end.

(** [frame K s s']: [s'] differs from [s] at most in the links and the
    region words of the pointers in [K]. *)
Definition frame (K : list cptr) (s s' : state) : Prop :=
  buffer_start s' = buffer_start s /\
  meta_pages s' = meta_pages s /\
  m_size s' = m_size s /\
  m_count s' = m_count s /\
  m_slab_index s' = m_slab_index s /\
  (forall q, q ∉ K ->
     c_next s' !! q = c_next s !! q /\ c_prev s' !! q = c_prev s !! q) /\
  (forall n, page_ptr n ∉ K ->
     start_page s' !! n = start_page s !! n /\ pages s' !! n = pages s !! n).

(** A region is a pair [(start_page, pages)]; its record lives at the
    first byte of page [start_page]. *)
Definition nodes (L : list (Z * Z)) : list cptr :=
  (fun r => page_ptr r.1) <$> L.

Definition holds (s : state) (r : Z * Z) : Prop :=
  start_page s !! r.1 = Some r.1 /\ pages s !! r.1 = Some r.2.

(** The free list of [s] holds exactly the regions [L], in this order, in
    a buffer of [N] pages. *)
Definition free_rep (N : Z) (s : state) (L : list (Z * Z)) : Prop :=
  dll (c_next s) (c_prev s) free_regions (nodes L) /\
  Forall (holds s) L /\
  Forall (fun r => 1 <= r.1 < N) L.

(** [merged_consecutive_pages] on the list of regions: [a] is the region
    of [prev_item], [rest] what follows it. *)
Fixpoint merge_from (a : Z * Z) (rest : list (Z * Z)) : list (Z * Z) :=
  match rest with
  | [] => [a]
  | b :: rest' =>
      if wrap (a.1 + a.2) =? b.1
      then merge_from (a.1, wrap (a.2 + b.2)) rest'
      else a :: merge_from b rest'
  end.

(** The state after [c_list_unlink(y)], [p] and [n] being the neighbours
    of [y]. *)
Definition unlinked (p y n : cptr) (s : state) : state :=
  upd_prev y y (upd_next y y (upd_next p n (upd_prev n p s))).

Definition merge_all (L : list (Z * Z)) : list (Z * Z) :=
  match L with
  | [] => []
  | a :: rest => merge_from a rest
  end.

(** [restore_freed_region] on the list of regions.  The walk has passed
    the regions [L0] and then [prev] (the region of [prev_item], if any)
    and looks at [L2]. *)
Definition passed (L0 : list (Z * Z)) (prev : option (Z * Z))
    : list (Z * Z) :=
  L0 ++ match prev with Some p => [p] | None => [] end.

Definition place_next (f : Z * Z) (P : list (Z * Z)) (r : Z * Z)
    (L2 : list (Z * Z)) : list (Z * Z) :=
  if wrap (f.1 + f.2) =? r.1
  then merge_all (P ++ (f.1, wrap (r.2 + f.2)) :: L2)
  else P ++ f :: r :: L2.

Definition place (f : Z * Z) (L0 : list (Z * Z)) (prev : option (Z * Z))
    (r : Z * Z) (L2 : list (Z * Z)) : list (Z * Z) :=
  match prev with
  | Some p =>
      if wrap (p.1 + p.2) =? f.1
      then merge_all (L0 ++ (p.1, wrap (p.2 + f.2)) :: r :: L2)
      else place_next f (passed L0 prev) r L2
  | None => place_next f (passed L0 prev) r L2
  end.

Fixpoint restore_scan (f : Z * Z) (L0 : list (Z * Z))
    (prev : option (Z * Z)) (L2 : list (Z * Z)) : list (Z * Z) :=
  match L2 with
  | [] => merge_all (passed L0 prev ++ [f])
  | r :: L2' =>
      if f.1 <? r.1 then place f L0 prev r L2'
      else restore_scan f (passed L0 prev) (Some r) L2'
  end.

Definition restore_region (f : Z * Z) (L : list (Z * Z)) : list (Z * Z) :=
  restore_scan f [] None L.

(** [restore_all_freed_memories]: the deferred regions [D] are restored
    in order. *)
Definition drain (L D : list (Z * Z)) : list (Z * Z) :=
  foldl (fun L d => restore_region d L) L D.

(** The state after [c_list_link_before(n, w)] or
    [c_list_link_after(p, w)], [p] and [n] being neighbours. *)
Definition linked (p w n : cptr) (s : state) : state :=
  upd_next p w (upd_prev w p (upd_next w n (upd_prev n w s))).

(** The state after [move_region] has copied the record at page [src],
    with neighbours [p] and [n], to page [dst]. *)
Definition moved (p n : cptr) (dst sp np : Z) (s : state) : state :=
  upd_next p (page_ptr dst)
    (upd_prev n (page_ptr dst)
       (upd_pages dst np
          (upd_start_page dst sp
             (upd_prev (page_ptr dst) p
                (upd_next (page_ptr dst) n s))))).

(** The [next] links of the nodes [l], the last one leading to [z]. *)
Fixpoint nlinks (nx : gmap cptr cptr) (l : list cptr) (z : cptr) : Prop :=
  match l with
  | [] => True
  | y :: l' => nx !! y = Some (hd z l') /\ nlinks nx l' z
  end.

(** The deferred list of [s] holds exactly the regions [D], in this
    order. *)
Definition deferred_rep (N : Z) (s : state) (D : list (Z * Z)) : Prop :=
  dll (c_next s) (c_prev s) freed_memories (nodes D) /\
  Forall (holds s) D /\
  Forall (fun r => 1 <= r.1 < N) D.

(** The two lists of the linear allocator are well formed: every record
    lives in the first page of its region, inside a buffer of [N] pages,
    and no page holds two records.  Nothing is asked of the lengths, nor
    of the order of the free list. *)
Definition lm_inv (N : Z) (s : state) (L D : list (Z * Z)) : Prop :=
  N <= 2 ^ 52 /\
  free_rep N s L /\
  deferred_rep N s D /\
  NoDup ((L ++ D).*1).

(** A region inside a buffer of [N] pages. *)
Definition region_ok (N : Z) (r : Z * Z) : Prop :=
  1 <= r.1 /\ 0 <= r.2 /\ r.1 + r.2 <= N.

(** What a call does if it returns. *)
Definition partial {A} (r : res A) (post : A -> state -> Prop) : Prop :=
  match r with
  | Ok a s' => post a s'
  | _ => True
  end.

(** [m] never changes the part [f] of the state. *)
Definition preserves {X A} (f : state -> X) (m : M A) : Prop :=
  forall s, partial (m s) (fun _ s' => f s' = f s).

(** The state a run has reached. *)
Definition state_of {A} (r : res A) : state :=
  match r with Ok _ s => s | _ => boot_state end.

(** A client that ends with a free record of length zero: page 30 is
    handed out by [lm_malloc(4096)] and again by [lm_malloc(0)], whose
    length 0 stays in the table; freed, it is queued as [{30, 0}], and the
    drain of the last call leaves the free list [{30, 0}; {31, 1}]. *)
Definition zero_length_record_calls : list call :=
  [lm_malloc_call 4096 FM_LM_T_PERSISTENT;          (* a = page 31 *)
   lm_malloc_call 4096 FM_LM_T_PERSISTENT;          (* q = page 30 *)
   lm_malloc_call 0 FM_LM_T_PERSISTENT;             (* z = page 30 *)
   lm_malloc_call (29 * 4096) FM_LM_T_TRANSIENT;    (* b = page 1 *)
   lm_free_call (page0 31);                         (* free(a) *)
   lm_free_call (page0 30);                         (* free(q) *)
   lm_malloc_call (32 * 4096) FM_LM_T_TRANSIENT].   (* NULL, after a drain *)

(** The pages a list of regions holds. *)
Definition free_pages (L : list (Z * Z)) : Z :=
  foldr (fun r acc => r.2 + acc) 0 L.

(** The claim about [lm_malloc(0, TRANSIENT)] made after the run
    [before], [r] being the first free region: the call returns the
    address of the start page of [r], not NULL and page-aligned; no page
    leaves the free list; length 0 is in the table; and the page returned
    is still recorded as free. *)
Definition zero_size_as_specified {A} (fuel : nat) (before : res A) : Prop :=
  let after := run_then before (fm_lm_malloc fuel 0 FM_LM_T_TRANSIENT) in
  forall r L, free_list_of fuel before = Some (Some (r :: L)) ->
    exists L',
      returned after = Some (page0 r.1) /\
      page0 r.1 ≠ NULL /\ page_aligned (page0 r.1) /\
      free_list_of fuel after = Some (Some L') /\
      free_pages L' = free_pages (r :: L) /\
      returned (run_then after (fetch_alloced_pages r.1)) = Some 0 /\
      Exists (fun x => x.1 <= r.1 < x.1 + x.2) L'.

(** The bit of cell [idx] in the bitmap of the slab page [P], read as
    [bitmap_set] and [bitmap_clear] address it. *)
Definition bitmap_bit (s : state) (P idx : Z) : option bool :=
  match get_bitmap (page_ptr P) (idx / 64) s with
  | Ok w _ => Some (Z.testbit w (idx mod 64))
  | _ => None
  end.

(** A client of the slab layer whose zero-size request is answered with
    page 30 while that page is still free.  The page then becomes the slab
    page of class 1024 and fills up; freeing the zero-size pointer writes
    the record [{30, 1}] over the head of the slab page, and a failed
    request puts that record on the free list.  In the end page 29 is on
    the deferred list. *)
Definition aliased_slab_page_calls : list call :=
  [sm_malloc_call (28 * 4096);        (* x  = pages 1..28 *)
   sm_malloc_call 4096;               (* w  = page 29 *)
   sm_malloc_call 32;                 (* d  : slab page 31, class 32 *)
   sm_realloc_call NULL 0;            (* q  = page 30, which stays free *)
   sm_malloc_call 1024;               (* c0 : slab page 30, class 1024 *)
   sm_malloc_call 1024;               (* c1 *)
   sm_malloc_call 1024;               (* c2 : the slab page is full *)
   sm_free_call (page0 30);           (* free(q) *)
   sm_malloc_call 8192;               (* NULL, after a drain *)
   sm_free_call (page0 29)].          (* free(w) *)

(** [sframe KL KW s s']: [s'] differs from [s] at most in the links of the
    pointers in [KL] and the two record words of the pages in [KW]. *)
Definition sframe (KL KW : list cptr) (s s' : state) : Prop :=
  buffer_start s' = buffer_start s /\
  meta_pages s' = meta_pages s /\
  m_size s' = m_size s /\
  m_count s' = m_count s /\
  m_slab_index s' = m_slab_index s /\
  (forall q, q ∉ KL ->
     c_next s' !! q = c_next s !! q /\ c_prev s' !! q = c_prev s !! q) /\
  (forall n, page_ptr n ∉ KW ->
     start_page s' !! n = start_page s !! n /\ pages s' !! n = pages s !! n).

(** ** The slab layer: representation

    [bitmap_all_cleared] as a test on the state. *)
Definition cleared (s : state) (n : Z) : bool :=
  bool_decide (start_page s !! n = Some 0 /\ pages s !! n = Some 0).

(** [free_empty_slabs] on one class list [S], [c0] telling the empty
    pages: the regions queued on the deferred list, and the pages that stay
    on the list. *)
Definition freed (c0 : Z -> bool) (S : list Z) : list (Z * Z) :=
  (fun n => (n, 1)) <$> filter (fun n => c0 n = true) S.

Definition kept (c0 : Z -> bool) (S : list Z) : list Z :=
  filter (fun n => c0 n = false) S.

(** A slab page inside a buffer of [N] pages: one page long in the table,
    its cells inside the page. *)
Definition slab_page_ok (N : Z) (s : state) (n : Z) : Prop :=
  1 <= n < N /\ meta_pages s !! n = Some 1 /\
  exists sz cnt, m_size s !! n = Some sz /\ m_count s !! n = Some cnt /\
    0 <= sz /\ 0 <= cnt /\
    PAGE_META_RESERVED_SIZE + cnt * sz <= FM_PAGE_SIZE.

(** Class list [i] holds exactly the slab pages [S], in this order. *)
Definition slab_rep (N : Z) (s : state) (i : nat) (S : list Z) : Prop :=
  dll (c_next s) (c_prev s) (slab_lists i) (page_ptr <$> S) /\
  Forall (slab_page_ok N s) S.

(** The state of the two layers is well formed: the lists of the linear
    allocator, the five class lists [SS], no page on two lists. *)
Definition sm_inv (N : Z) (s : state) (L D : list (Z * Z))
    (SS : list (list Z)) : Prop :=
  lm_inv N s L D /\
  Forall (region_ok N) (L ++ D) /\
  0 < buffer_start s /\ buffer_start s + N * FM_PAGE_SIZE < 2 ^ 64 /\
  N <= META_ENTRIES /\
  length SS = 5%nat /\
  (forall i S, SS !! i = Some S -> slab_rep N s i S) /\
  (forall i S n, SS !! i = Some S -> n ∈ S -> n ∉ (L ++ D).*1) /\
  (forall i j Si Sj n, i ≠ j -> SS !! i = Some Si -> SS !! j = Some Sj ->
     n ∈ Si -> n ∉ Sj).

(** [c0] tells the empty pages of the class lists. *)
Definition slabs_cleared (c0 : Z -> bool) (s : state) (SS : list (list Z))
    : Prop :=
  forall i S n, SS !! i = Some S -> n ∈ S -> cleared s n = c0 n.

(** [wframe KW s s']: outside the record words of the pages in [KW],
    [s'] differs from [s] in links only. *)
Definition wframe (KW : list cptr) (s s' : state) : Prop :=
  buffer_start s' = buffer_start s /\
  meta_pages s' = meta_pages s /\
  m_size s' = m_size s /\
  m_count s' = m_count s /\
  m_slab_index s' = m_slab_index s /\
  (forall n, page_ptr n ∉ KW ->
     start_page s' !! n = start_page s !! n /\ pages s' !! n = pages s !! n).

(** What the address of a cell is computed from. *)
Definition cell_fields (s : state) := (buffer_start s, m_size s).

(** What a failed [fm_sm_malloc] leaves behind. *)
Definition after_failure (N : Z) (c0 : Z -> bool) (L D : list (Z * Z))
    (SS : list (list Z)) (s s1 : state) : Prop :=
  exists L' D' SS' KW,
    sm_inv N s1 L' D' SS' /\ slabs_cleared c0 s1 SS' /\
    wframe KW s s1 /\
    (forall n, page_ptr n ∈ KW -> n ∈ (L ++ D).*1 \/ c0 n = true) /\
    (SS' = SS \/ SS' = kept c0 <$> SS).

(** ** Canonical free lists, first fit, and sample states *)

(** No region of the list ends where the next one starts. *)
Fixpoint coalesced (l : list (Z * Z)) : Prop :=
  match l with
  | [] => True
  | a :: l' =>
      match l' with
      | [] => True
      | b :: _ => wrap (a.1 + a.2) ≠ b.1
      end /\ coalesced l'
  end.

(** The free list [{1, 1}; {2, 30}]: the deferred record of
    [malloc_then_free] linked by hand in front of the free region. *)
Definition touching_regions : state :=
  state_of (run_then (then_calls 40 fresh_lm malloc_then_free)
              (c_list_unlink (page_ptr 1) ;;
               c_list_link_before (page_ptr 2) (page_ptr 1))).

(** The regions of [L] are not empty, lie in ascending order from page
    [lo] on and do not overlap. *)
Fixpoint ordered_from (lo : Z) (L : list (Z * Z)) : Prop :=
  match L with
  | [] => True
  | r :: L' => lo <= r.1 /\ 0 < r.2 /\ ordered_from (r.1 + r.2) L'
  end.

(** Page [x] lies in one of the regions of [L]. *)
Definition covers (L : list (Z * Z)) (x : Z) : Prop :=
  Exists (fun r => r.1 <= x < r.1 + r.2) L.

(** No page lies in two regions of [D]. *)
Fixpoint disjoint_regions (D : list (Z * Z)) : Prop :=
  match D with
  | [] => True
  | d :: D' =>
      (forall x, d.1 <= x < d.1 + d.2 -> ~ covers D' x) /\ disjoint_regions D'
  end.

(** Where the last region of [A] ends, [lo] if there is none. *)
Definition end_from (lo : Z) (A : list (Z * Z)) : Z :=
  foldl (fun _ r => r.1 + r.2) lo A.

(** Two regions that share no page, one lying wholly before the other. *)
Definition apart (f r : Z * Z) : Prop :=
  r.1 + r.2 <= f.1 \/ f.1 + f.2 <= r.1.

(** What a first-fit scan leaves of the region [(sp, np)] it takes [req]
    pages from: the rest at the back ([carve_low], the pages are taken at
    the front) or at the front ([carve_high]). *)
Definition carve_low (req : Z) (r : Z * Z) : list (Z * Z) :=
  if r.2 - req =? 0 then [] else [(r.1 + req, r.2 - req)].
Definition carve_high (req : Z) (r : Z * Z) : list (Z * Z) :=
  if r.2 - req =? 0 then [] else [(r.1, r.2 - req)].

(** The free list after a request of [req] pages served from the region
    [r], at its front for a transient request and at its back for a
    persistent one, and the first page handed out. *)
Definition served_list (t req : Z) (L1 : list (Z * Z)) (r : Z * Z)
    (L2 : list (Z * Z)) : list (Z * Z) :=
  L1 ++ (if t =? FM_LM_T_TRANSIENT then carve_low req r else carve_high req r)
     ++ L2.
Definition served_page (t req : Z) (r : Z * Z) : Z :=
  if t =? FM_LM_T_TRANSIENT then r.1 else r.1 + r.2 - req.

(** The scan of a request of type [t] reaches [r] first: no region before
    it, in the direction of the scan, is long enough. *)
Definition reached_first (t req : Z) (L1 L2 : list (Z * Z)) : Prop :=
  Forall (fun x => x.2 < req) (if t =? FM_LM_T_TRANSIENT then L1 else L2).

(** The slab layer after one request of 64 bytes: page 31 is the slab
    page of class 64, and its cell 0 is taken. *)
Definition one_cell_taken : state :=
  state_of (then_calls 40 fresh_sm [sm_malloc_call 64]).

(** A state that differs from [s] in the two bitmap words of page [n]
    only. *)
Definition words_changed (n : Z) (s s1 : state) : Prop :=
  (exists w0 w1, start_page s1 !! n = Some w0 /\ pages s1 !! n = Some w1) /\
  (forall m, m ≠ n -> start_page s1 !! m = start_page s !! m /\
                      pages s1 !! m = pages s !! m) /\
  (buffer_start s1, meta_pages s1, c_next s1, c_prev s1, m_size s1,
   m_count s1, m_slab_index s1)
  = (buffer_start s, meta_pages s, c_next s, c_prev s, m_size s,
     m_count s, m_slab_index s).

(** The slab layer with one cell of class 64 taken on page 31 and the
    pages 1 to 30 handed out: no request for a page can be served. *)
Definition full_with_one_cell : state :=
  state_of (then_calls 40 fresh_sm
              [sm_malloc_call 64; sm_malloc_call (30 * 4096)]).

(** * Theorems *)

(** ** Lists in the heap: tactics and basic lemmas *)

Lemma page_ptr_ne (a b : Z) : page_ptr a ≠ page_ptr b -> a ≠ b.
Proof. congruence. Qed.

Ltac keep_membership :=
  repeat match goal with
         | H : ?T |- _ =>
             lazymatch T with
             | _ ∈ _ => fail
             | _ ∉ _ => fail
             | _ = _ => fail
             | _ ≠ _ => fail
             | NoDup _ => fail
             | (forall x, x ∈ _ -> x ∉ _) => fail
             | _ => clear H
             end
         end.

Ltac elem :=
  keep_membership;
  unfold nodes in *;
  rewrite ?fmap_app in *;
  cbn [app fmap list_fmap fst snd] in *;
  try (apply page_ptr_ne);
  repeat match goal with
         | H : NoDup (_ :: _) |- _ => apply NoDup_cons in H as [? ?]
         | H : NoDup (_ ++ _) |- _ => apply NoDup_app in H as (? & ? & ?)
         end;
  set_solver.

Ltac map_simp :=
  repeat match goal with
         | |- context [ <[?i := _]> _ !! ?i ] => rewrite lookup_insert_eq
         | |- context [ <[?i := _]> _ !! ?j ] =>
             rewrite (lookup_insert_ne _ i j) by elem
         end.

Section Chain.
Implicit Types (nx pv : gmap cptr cptr) (x y z : cptr) (l : list cptr).

Lemma chain_app nx pv x l1 y l2 z :
  chain nx pv x (l1 ++ y :: l2) z <-> chain nx pv x l1 y /\ chain nx pv y l2 z.
Proof.
  revert x. induction l1 as [|a l1 IH]; intros x; simpl.
  - tauto.
  - rewrite IH. tauto.
Qed.

Lemma chain_frame nx pv nx' pv' x l z :
  (forall p, p ∈ x :: l -> nx' !! p = nx !! p) ->
  (forall p, p ∈ l ++ [z] -> pv' !! p = pv !! p) ->
  chain nx pv x l z -> chain nx' pv' x l z.
Proof.
  revert x. induction l as [|a l IH]; intros x Hn Hp; simpl.
  - intros [H1 H2]. rewrite Hn, Hp by elem. done.
  - intros (H1 & H2 & H3). rewrite Hn, Hp by elem.
    split; [done|]. split; [done|].
    apply IH; [intros q Hq; apply Hn; elem
              |intros q Hq; apply Hp; elem|done].
Qed.

Lemma chain_next nx pv x l z : chain nx pv x l z -> nx !! x = Some (hd z l).
Proof. destruct l; simpl; tauto. Qed.

Lemma last_cons (a x : cptr) l : List.last (a :: l) x = List.last l a.
Proof.
  revert a x. induction l as [|b l IH]; intros a x; [done|].
  change (List.last (a :: b :: l) x) with (List.last (b :: l) x).
  rewrite IH. symmetry. apply IH.
Qed.

Lemma chain_prev nx pv x l z :
  chain nx pv x l z -> pv !! z = Some (List.last l x).
Proof.
  revert x. induction l as [|a l IH]; intros x; [simpl; tauto|].
  intros (_ & _ & H). apply IH in H. by rewrite last_cons.
Qed.

Lemma last_in_cons x l : List.last l x ∈ x :: l.
Proof.
  revert x. induction l as [|a l IH]; intros x; [simpl; elem|].
  rewrite last_cons. specialize (IH a). elem.
Qed.

Lemma hd_in_snoc z l : hd z l ∈ l ++ [z].
Proof. destruct l; simpl; elem. Qed.

Lemma chain_unlink nx pv x l1 y l2 z :
  chain nx pv x (l1 ++ y :: l2) z ->
  NoDup (x :: l1 ++ y :: l2) -> z ∉ l1 ++ y :: l2 ->
  let p := List.last l1 x in
  let n := hd z l2 in
  chain (<[y := y]> (<[p := n]> nx)) (<[y := y]> (<[n := p]> pv)) x (l1 ++ l2) z.
Proof.
  revert x. induction l1 as [|a l1 IH]; intros x Hc Hnd Hz p n.
  - simpl in *. subst p. destruct Hc as (H1 & H2 & H3).
    destruct l2 as [|b l2]; simpl in *; subst n.
    + map_simp. done.
    + destruct H3 as (H3 & H4 & H5). map_simp.
      split; [done|]. split; [done|].
      eapply chain_frame; [| |exact H5]; intros q Hq; map_simp; done.
  - simpl in Hc. destruct Hc as (H1 & H2 & H3).
    pose proof (IH a H3 (proj2 (proj1 (NoDup_cons _ _) Hnd)) ltac:(elem)) as IH'.
    simpl in IH'.
    subst p n. rewrite last_cons.
    pose proof (last_in_cons a l1) as Hp.
    pose proof (hd_in_snoc z l2) as Hn.
    set (p := List.last l1 a) in *. set (n := hd z l2) in *.
    clearbody p n. clear IH. simpl. split; [|split; [|exact IH']].
    + map_simp. done.
    + map_simp. done.
Qed.

Lemma chain_link nx pv x l1 w l2 z :
  chain nx pv x (l1 ++ l2) z ->
  NoDup (x :: l1 ++ l2) -> z ∉ l1 ++ l2 -> w ∉ x :: l1 ++ l2 -> w ≠ z ->
  let p := List.last l1 x in
  let n := hd z l2 in
  chain (<[p := w]> (<[w := n]> nx)) (<[w := p]> (<[n := w]> pv))
    x (l1 ++ w :: l2) z.
Proof.
  revert x. induction l1 as [|a l1 IH]; intros x Hc Hnd Hz Hw Hwz p n.
  - simpl in *. subst p. destruct l2 as [|b l2]; simpl in *; subst n.
    + destruct Hc as (H1 & H2). map_simp. done.
    + destruct Hc as (H1 & H2 & H3). map_simp.
      do 4 (split; [done|]).
      eapply chain_frame; [| |exact H3]; intros q Hq; map_simp; done.
  - simpl in Hc. destruct Hc as (H1 & H2 & H3).
    pose proof (IH a H3 (proj2 (proj1 (NoDup_cons _ _) Hnd)) ltac:(elem)
                  ltac:(elem) Hwz) as IH'.
    simpl in IH'. subst p n. rewrite last_cons.
    pose proof (last_in_cons a l1) as Hp.
    pose proof (hd_in_snoc z l2) as Hn.
    set (p := List.last l1 a) in *. set (n := hd z l2) in *.
    clearbody p n. clear IH. simpl. split; [|split; [|exact IH']].
    + map_simp. done.
    + map_simp. done.
Qed.

Lemma chain_replace nx pv x l1 y d l2 z :
  chain nx pv x (l1 ++ y :: l2) z ->
  NoDup (x :: l1 ++ y :: l2) -> z ∉ l1 ++ y :: l2 ->
  d ∉ x :: l1 ++ y :: l2 -> d ≠ z ->
  let p := List.last l1 x in
  let n := hd z l2 in
  chain (<[p := d]> (<[d := n]> nx)) (<[n := d]> (<[d := p]> pv))
    x (l1 ++ d :: l2) z.
Proof.
  revert x. induction l1 as [|a l1 IH]; intros x Hc Hnd Hz Hd Hdz p n.
  - simpl in *. subst p. destruct Hc as (H1 & H2 & H3).
    destruct l2 as [|b l2]; simpl in *; subst n.
    + map_simp. done.
    + destruct H3 as (H3 & H4 & H5). map_simp.
      do 4 (split; [done|]).
      eapply chain_frame; [| |exact H5]; intros q Hq; map_simp; done.
  - simpl in Hc. destruct Hc as (H1 & H2 & H3).
    pose proof (IH a H3 (proj2 (proj1 (NoDup_cons _ _) Hnd)) ltac:(elem)
                  ltac:(elem) Hdz) as IH'.
    simpl in IH'. subst p n. rewrite last_cons.
    pose proof (last_in_cons a l1) as Hp.
    pose proof (hd_in_snoc z l2) as Hn.
    set (p := List.last l1 a) in *. set (n := hd z l2) in *.
    clearbody p n. clear IH. simpl. split; [|split; [|exact IH']].
    + map_simp. done.
    + map_simp. done.
Qed.

End Chain.

(** Symbolic execution *)

Lemma bind_run {A B} (m : M A) (k : A -> M B) s a s1 :
  m s = Ok a s1 -> bind m k s = k a s1.
Proof. unfold bind. by intros ->. Qed.

Lemma bind_assoc {A B C} (m : M A) (k1 : A -> M B) (k2 : B -> M C) s :
  bind (bind m k1) k2 s = bind m (fun x => bind (k1 x) k2) s.
Proof. unfold bind. by destruct (m s). Qed.

Lemma get_next_run s p v : c_next s !! p = Some v -> get_next p s = Ok v s.
Proof. unfold get_next. by intros ->. Qed.
Lemma get_prev_run s p v : c_prev s !! p = Some v -> get_prev p s = Ok v s.
Proof. unfold get_prev. by intros ->. Qed.
Lemma get_start_page_run s n v :
  start_page s !! n = Some v -> get_start_page (page_ptr n) s = Ok v s.
Proof. unfold get_start_page, page_field. by intros ->. Qed.
Lemma get_pages_run s n v :
  pages s !! n = Some v -> get_pages (page_ptr n) s = Ok v s.
Proof. unfold get_pages, page_field. by intros ->. Qed.

Ltac st_simpl :=
  cbn [buffer_start meta_pages c_next c_prev start_page pages m_size m_count
       m_slab_index upd_next upd_prev upd_start_page upd_pages upd_size
       upd_count upd_slab_index upd_meta unlinked fst snd].

Ltac ne := first [done | congruence | lia].

Ltac lk :=
  repeat match goal with
         | |- context [ <[?i := _]> _ !! ?i ] => rewrite lookup_insert_eq
         | |- context [ <[?i := _]> _ !! ?j ] =>
             rewrite (lookup_insert_ne _ i j) by ne
         end.

Ltac solve_lookup :=
  repeat match goal with x := _ : state |- _ => subst x end;
  st_simpl; lk; first [eassumption | reflexivity | map_simp; eassumption].

Ltac run_prim :=
  cbv beta iota;
  lazymatch goal with
  | |- bind _ _ _ = _ =>
      erewrite bind_run; [|run_prim]; cbv beta iota; run_prim
  | |- get_next _ _ = _ => apply get_next_run; solve_lookup
  | |- get_prev _ _ = _ => apply get_prev_run; solve_lookup
  | |- get_start_page _ _ = _ => apply get_start_page_run; solve_lookup
  | |- get_pages _ _ = _ => apply get_pages_run; solve_lookup
  | |- ret _ _ = _ => reflexivity
  | |- set_next _ _ _ = _ => reflexivity
  | |- set_prev _ _ _ = _ => reflexivity
  | |- set_start_page _ _ _ = _ => reflexivity
  | |- set_pages _ _ _ = _ => reflexivity
  end.

Ltac mstep :=
  cbv beta iota; rewrite ?bind_assoc;
  erewrite bind_run; [|run_prim]; cbv beta iota.

Tactic Notation "mstep" "by" tactic3(t) :=
  cbv beta iota; rewrite ?bind_assoc;
  erewrite bind_run; [|t]; cbv beta iota.

(** Frames *)

Lemma frame_refl K s : frame K s s.
Proof. unfold frame. naive_solver. Qed.

Lemma frame_trans K s1 s2 s3 : frame K s1 s2 -> frame K s2 s3 -> frame K s1 s3.
Proof.
  unfold frame. intros (A1 & A2 & A3 & A4 & A5 & A6 & A7)
    (B1 & B2 & B3 & B4 & B5 & B6 & B7).
  repeat split; try congruence.
  - rewrite (proj1 (B6 q H)). apply A6, H.
  - rewrite (proj2 (B6 q H)). apply A6, H.
  - rewrite (proj1 (B7 n H)). apply A7, H.
  - rewrite (proj2 (B7 n H)). apply A7, H.
Qed.

Lemma frame_mono K K' s s' : K ⊆ K' -> frame K s s' -> frame K' s s'.
Proof.
  unfold frame. intros HK (A1 & A2 & A3 & A4 & A5 & A6 & A7).
  repeat split; try done; try (apply A6; set_solver); apply A7; set_solver.
Qed.

Lemma frame_upd_next K s s' p v :
  p ∈ K -> frame K s s' -> frame K s (upd_next p v s').
Proof.
  unfold frame. st_simpl. intros Hp (A1 & A2 & A3 & A4 & A5 & A6 & A7).
  repeat split; try done; try (apply A6; done); try (apply A7; done).
  rewrite lookup_insert_ne by (intros ->; done). by apply A6.
Qed.
Lemma frame_upd_prev K s s' p v :
  p ∈ K -> frame K s s' -> frame K s (upd_prev p v s').
Proof.
  unfold frame. st_simpl. intros Hp (A1 & A2 & A3 & A4 & A5 & A6 & A7).
  repeat split; try done; try (apply A6; done); try (apply A7; done).
  rewrite lookup_insert_ne by (intros ->; done). by apply A6.
Qed.
Lemma frame_upd_start_page K s s' n v :
  page_ptr n ∈ K -> frame K s s' -> frame K s (upd_start_page n v s').
Proof.
  unfold frame. st_simpl. intros Hp (A1 & A2 & A3 & A4 & A5 & A6 & A7).
  repeat split; try done; try (apply A6; done); try (apply A7; done).
  rewrite lookup_insert_ne by (intros ->; done). by apply A7.
Qed.
Lemma frame_upd_pages K s s' n v :
  page_ptr n ∈ K -> frame K s s' -> frame K s (upd_pages n v s').
Proof.
  unfold frame. st_simpl. intros Hp (A1 & A2 & A3 & A4 & A5 & A6 & A7).
  repeat split; try done; try (apply A6; done); try (apply A7; done).
  rewrite lookup_insert_ne by (intros ->; done). by apply A7.
Qed.

Ltac mem :=
  keep_membership; unfold nodes in *; rewrite ?fmap_app in *;
  cbn [app fmap list_fmap fst snd] in *; set_solver.

Ltac solve_frame :=
  repeat first [ apply frame_refl
               | apply frame_upd_next; [mem|]
               | apply frame_upd_prev; [mem|]
               | apply frame_upd_start_page; [mem|]
               | apply frame_upd_pages; [mem|] ].

(** Regions and their nodes *)

Lemma nodes_app L1 L2 : nodes (L1 ++ L2) = nodes L1 ++ nodes L2.
Proof. apply fmap_app. Qed.

Lemma chain_mid nx pv x l1 y l2 z :
  chain nx pv x (l1 ++ y :: l2) z ->
  nx !! y = Some (hd z l2) /\ pv !! y = Some (List.last l1 x).
Proof.
  intros [H1 H2]%chain_app. split; [by eapply chain_next | by eapply chain_prev].
Qed.

Lemma cptr_eqb_eq p q : cptr_eqb p q = true <-> p = q.
Proof.
  destruct p, q; simpl; try (split; congruence).
  - rewrite Nat.eqb_eq. split; congruence.
  - rewrite Z.eqb_eq. split; congruence.
Qed.

Lemma cptr_eqb_refl p : cptr_eqb p p = true.
Proof. by apply cptr_eqb_eq. Qed.

Lemma cptr_eqb_ne p q : p ≠ q -> cptr_eqb p q = false.
Proof.
  intros H. destruct (cptr_eqb p q) eqn:E; [|done].
  by apply cptr_eqb_eq in E.
Qed.

Lemma c_list_unlink_run s h l1 y l2 :
  dll (c_next s) (c_prev s) h (l1 ++ y :: l2) ->
  c_list_unlink y s = Ok tt (unlinked (List.last l1 h) y (hd h l2) s).
Proof.
  intros [Hc Hnd]. destruct (chain_mid _ _ _ _ _ _ _ Hc) as [Hn Hp].
  unfold c_list_unlink, c_list_is_linked.
  mstep.
  assert (Hne : hd h l2 ≠ y).
  { pose proof (hd_in_snoc h l2). elem. }
  rewrite cptr_eqb_ne by done.
  cbn [negb]. unfold c_list_unlink_stale, c_list_init.
  repeat mstep. reflexivity.
Qed.

Lemma dll_unlinked s h l1 y l2 :
  dll (c_next s) (c_prev s) h (l1 ++ y :: l2) ->
  dll (c_next (unlinked (List.last l1 h) y (hd h l2) s))
      (c_prev (unlinked (List.last l1 h) y (hd h l2) s)) h (l1 ++ l2).
Proof.
  intros [Hc Hnd]. split.
  - unfold unlinked. st_simpl. apply chain_unlink; [done|done|elem].
  - apply NoDup_cons in Hnd as [H1 H2]. apply NoDup_cons. split; [elem|].
    apply NoDup_app in H2 as (? & ? & [? ?]%NoDup_cons).
    apply NoDup_app. split; [done|]. split; [|done]. set_solver.
Qed.

Lemma spec_mono {A} (r : res A) (e e' : Prop) (post post' : A -> state -> Prop) :
  (e' -> e) -> (forall a s, post a s -> post' a s) ->
  spec r e post -> spec r e' post'.
Proof. destruct r; simpl; auto. Qed.

Lemma holds_frame K s s' r :
  frame K s s' -> page_ptr r.1 ∉ K -> holds s r -> holds s' r.
Proof.
  intros (_ & _ & _ & _ & _ & _ & Hw) Hr [H1 H2].
  destruct (Hw _ Hr) as [E1 E2]. unfold holds. by rewrite E1, E2.
Qed.

Lemma Forall_holds_frame K s s' L :
  frame K s s' -> (forall r, r ∈ L -> page_ptr r.1 ∉ K) ->
  Forall (holds s) L -> Forall (holds s') L.
Proof.
  intros Hf HK. rewrite !Forall_forall. intros H r Hr.
  eapply holds_frame; [done|by apply HK|by apply H].
Qed.

Lemma last_snoc (l : list cptr) a d : List.last (l ++ [a]) d = a.
Proof. apply last_last. Qed.

Lemma free_rep_holds N s L r : free_rep N s L -> r ∈ L -> holds s r.
Proof. intros (_ & H & _) Hr. by eapply Forall_forall in H. Qed.

Lemma nodes_cons a L : nodes (a :: L) = page_ptr a.1 :: nodes L.
Proof. reflexivity. Qed.

Lemma elem_of_nodes L a : page_ptr a ∈ nodes L <-> a ∈ L.*1.
Proof.
  unfold nodes. rewrite !list_elem_of_fmap. split.
  - intros (r & E & Hr). exists r. split; [congruence|done].
  - intros (r & E & Hr). exists r. split; [congruence|done].
Qed.

Lemma NoDup_nodes L : NoDup (nodes L) <-> NoDup (L.*1).
Proof.
  assert (E : nodes L = page_ptr <$> L.*1).
  { unfold nodes. rewrite <- list_fmap_compose. reflexivity. }
  rewrite E. apply NoDup_fmap. intros a b. congruence.
Qed.

Lemma NoDup_nodes_mid L1 a L2 x :
  NoDup (nodes (L1 ++ a :: L2)) -> x ∈ L1 ++ L2 -> x.1 ≠ a.1.
Proof.
  rewrite NoDup_nodes, fmap_app, fmap_cons. intros Hnd Hx.
  assert (x.1 ∈ L1.*1 ++ L2.*1) by (rewrite <- fmap_app; by apply list_elem_of_fmap_2).
  apply NoDup_app in Hnd as (H1 & H2 & [H3 H4]%NoDup_cons).
  set_solver.
Qed.

Lemma hd_nodes_ne L k :
  (forall x, x ∈ L -> x.1 ≠ k) -> hd free_regions (nodes L) ≠ page_ptr k.
Proof.
  destruct L as [|b L]; simpl; [done|]. intros H E.
  apply (H b); [set_solver|congruence].
Qed.

Lemma hd_nodes_in L : hd free_regions (nodes L) ∈ free_regions :: nodes L.
Proof. destruct L; simpl; set_solver. Qed.

Lemma merged_consecutive_loop_spec N L2 : forall a L1 s fuel,
  free_rep N s (L1 ++ a :: L2) ->
  spec (merged_consecutive_loop fuel (page_ptr a.1)
          (hd free_regions (nodes L2)) s)
       (length L2 < fuel)%nat
       (fun _ s' => free_rep N s' (L1 ++ merge_from a L2) /\
                    frame (free_regions :: nodes (L1 ++ a :: L2)) s s').
Proof.
  induction L2 as [|b L2 IH]; intros [sa na] L1 s fuel Hrep.
  - destruct fuel as [|fuel]; simpl; [lia|].
    split; [done|apply frame_refl].
  - destruct fuel as [|fuel]; [simpl; lia|].
    destruct b as [sb nb].
    destruct (free_rep_holds _ _ _ (sa, na) Hrep ltac:(set_solver)) as [Ha1 Ha2].
    destruct (free_rep_holds _ _ _ (sb, nb) Hrep ltac:(set_solver)) as [Hb1 Hb2].
    destruct Hrep as ([Hc Hnd] & Hh & Hr).
    assert (Hnd' : NoDup (nodes (L1 ++ (sa, na) :: (sb, nb) :: L2)))
      by (by apply NoDup_cons in Hnd as [_ ?]).
    assert (Hab : sb ≠ sa).
    { apply (NoDup_nodes_mid _ _ _ (sb, nb) Hnd'). set_solver. }
    assert (HL1a : forall x, x ∈ L1 -> x.1 ≠ sa).
    { intros x Hx. apply (NoDup_nodes_mid _ _ _ x Hnd'). set_solver. }
    assert (HL2a : forall x, x ∈ L2 -> x.1 ≠ sa).
    { intros x Hx. apply (NoDup_nodes_mid _ _ _ x Hnd'). set_solver. }
    assert (HL2b : forall x, x ∈ L2 -> x.1 ≠ sb).
    { intros x Hx. rewrite (cons_middle (sa, na)), app_assoc in Hnd'.
      apply (NoDup_nodes_mid _ _ _ x Hnd'). set_solver. }
    pose proof (hd_nodes_ne _ _ HL2a) as Hna.
    pose proof (hd_nodes_ne _ _ HL2b) as Hnb.
    pose proof (hd_nodes_in L2) as Hnin.
    cbn [merged_consecutive_loop nodes fmap list_fmap hd cptr_eqb negb andb fst snd] in *.
    fold (nodes L2) in *.
    mstep. mstep. mstep.
    destruct (Z.eqb_spec (wrap (sa + na)) sb) as [E|E].
    + mstep. mstep.
      assert (Hd : dll (c_next s) (c_prev s) free_regions
                ((nodes L1 ++ [page_ptr sa]) ++ page_ptr sb :: nodes L2)).
      { split; rewrite <- app_assoc; unfold nodes in *;
          rewrite fmap_app in *; done. }
      erewrite bind_run;
        [|apply (c_list_unlink_run _ free_regions (nodes L1 ++ [page_ptr sa])
                   (page_ptr sb) (nodes L2)); st_simpl; exact Hd].
      cbv beta. rewrite last_snoc.
      set (n := hd free_regions (nodes L2)) in *.
      set (s1 := unlinked _ _ _ _).
      assert (Hf : frame (free_regions :: nodes (L1 ++ (sa, na) :: (sb, nb) :: L2))
                     s s1).
      { subst s1. unfold unlinked. solve_frame. }
      assert (Hrep1 : free_rep N s1 (L1 ++ (sa, wrap (na + nb)) :: L2)).
      { split; [|split].
        - pose proof (dll_unlinked (upd_pages sa (wrap (na + nb)) s) _ _ _ _ Hd)
            as Hd'.
          rewrite last_snoc in Hd'. fold s1 in Hd'.
          rewrite <- app_assoc in Hd'. unfold nodes in *.
          rewrite fmap_app in *. exact Hd'.
        - apply Forall_app in Hh as [Hh1 Hh2].
          apply Forall_cons in Hh2 as [_ Hh2]. apply Forall_cons in Hh2 as [_ Hh2].
          apply Forall_app. split; [|apply Forall_cons; split].
          + apply Forall_forall. intros x Hx. specialize (HL1a x Hx).
            pose proof (proj1 (Forall_forall _ _) Hh1 x Hx) as [Hx1 Hx2].
            subst s1. unfold holds, unlinked. st_simpl. lk. done.
          + subst s1. unfold holds, unlinked. st_simpl. lk. done.
          + apply Forall_forall. intros x Hx. specialize (HL2a x Hx).
            pose proof (proj1 (Forall_forall _ _) Hh2 x Hx) as [Hx1 Hx2].
            subst s1. unfold holds, unlinked. st_simpl. lk. done.
        - apply Forall_app in Hr as [Hr1 Hr2].
          apply Forall_cons in Hr2 as [Hra Hr2]. apply Forall_cons in Hr2 as [_ Hr2].
          apply Forall_app. split; [done|]. apply Forall_cons. done. }
      mstep.
      eapply spec_mono; [| |apply (IH (sa, wrap (na + nb)) L1 s1 fuel Hrep1)].
      * simpl. lia.
      * intros _ s' [Hr' Hf']. cbn [merge_from fst snd].
        rewrite (proj2 (Z.eqb_eq _ _) E). split; [done|].
        eapply frame_trans; [exact Hf|]. eapply frame_mono; [|exact Hf'].
        unfold nodes. rewrite !fmap_app. cbn [fmap list_fmap]. set_solver.
    + assert (Hm : c_next s !! page_ptr sb = Some (hd free_regions (nodes L2))).
      { apply (chain_mid _ (c_prev s) free_regions
                 (nodes L1 ++ [page_ptr sa]) (page_ptr sb)).
        rewrite <- app_assoc. unfold nodes in *. rewrite fmap_app in *. done. }
      mstep.
      assert (Hrep0 : free_rep N s ((L1 ++ [(sa, na)]) ++ (sb, nb) :: L2)).
      { rewrite <- app_assoc. done. }
      eapply spec_mono; [| |apply (IH (sb, nb) (L1 ++ [(sa, na)]) s fuel Hrep0)].
      * simpl. lia.
      * intros _ s' [Hr' Hf']. cbn [merge_from fst snd].
        rewrite (proj2 (Z.eqb_neq _ _) E). rewrite <- app_assoc in Hr', Hf'.
        done.
Qed.

Lemma merged_consecutive_pages_spec N L s fuel :
  free_rep N s L ->
  spec (merged_consecutive_pages fuel s) (length L < fuel)%nat
       (fun _ s' => free_rep N s' (merge_all L) /\
                    frame (free_regions :: nodes L) s s').
Proof.
  intros Hrep. unfold merged_consecutive_pages.
  destruct L as [|[sa na] L2].
  - destruct Hrep as ([[Hc1 Hc2] Hnd] & Hh & Hr). simpl in Hc1, Hc2.
    mstep. mstep.
    destruct fuel as [|fuel]; simpl; [lia|].
    split; [|apply frame_refl]. repeat split; done.
  - pose proof Hrep as ([Hc Hnd] & Hh & Hr).
    pose proof (chain_next _ _ _ _ _ Hc) as Hn1. cbn in Hn1.
    pose proof (chain_mid _ _ _ [] _ _ _ Hc) as [Hn2 _].
    mstep. mstep.
    eapply spec_mono;
      [| |apply (merged_consecutive_loop_spec N L2 (sa, na) [] s fuel Hrep)].
    + simpl. lia.
    + intros u s' H. exact H.
Qed.

Lemma chain_split_prev nx pv x l1 l2 z :
  chain nx pv x (l1 ++ l2) z -> pv !! (hd z l2) = Some (List.last l1 x).
Proof.
  destruct l2 as [|y l2].
  - rewrite app_nil_r. apply chain_prev.
  - intros H. by apply chain_mid in H as [_ H].
Qed.

Lemma chain_split_next nx pv x l1 l2 z :
  chain nx pv x (l1 ++ l2) z -> nx !! (List.last l1 x) = Some (hd z l2).
Proof.
  induction l1 as [|y l1 _] using rev_ind.
  - simpl. apply chain_next.
  - rewrite last_snoc, <- app_assoc. simpl. intros H.
    by apply chain_mid in H as [H _].
Qed.

Lemma c_list_link_before_run s h l1 l2 w :
  dll (c_next s) (c_prev s) h (l1 ++ l2) ->
  c_list_link_before (hd h l2) w s
  = Ok tt (linked (List.last l1 h) w (hd h l2) s).
Proof.
  intros [Hc Hnd]. pose proof (chain_split_prev _ _ _ _ _ _ Hc) as Hp.
  unfold c_list_link_before. repeat mstep. reflexivity.
Qed.

Lemma NoDup_insert_mid (h w : cptr) l1 l2 :
  NoDup (h :: l1 ++ l2) -> w ∉ h :: l1 ++ l2 -> NoDup (h :: l1 ++ w :: l2).
Proof.
  intros [Hh Hnd]%NoDup_cons Hw. apply NoDup_cons. split; [set_solver|].
  apply NoDup_app in Hnd as (H1 & H2 & H3).
  apply NoDup_app. split; [done|]. split; [set_solver|].
  apply NoDup_cons. set_solver.
Qed.

Lemma dll_linked s h l1 l2 w :
  dll (c_next s) (c_prev s) h (l1 ++ l2) -> w ∉ h :: l1 ++ l2 ->
  dll (c_next (linked (List.last l1 h) w (hd h l2) s))
      (c_prev (linked (List.last l1 h) w (hd h l2) s)) h (l1 ++ w :: l2).
Proof.
  intros [Hc Hnd] Hw. split.
  - unfold linked. st_simpl. apply chain_link; [done|done|elem|done|elem].
  - by apply NoDup_insert_mid.
Qed.

Lemma wrap_small x : 0 <= x < 2 ^ 64 -> wrap x = x.
Proof. intros H. unfold wrap. apply Z.mod_small. exact H. Qed.

Lemma record_at_page (s : state) (n : Z) :
  0 <= n < 2 ^ 52 ->
  record_at (wrap (buffer_start s + wrap (n * FM_PAGE_SIZE))) s
  = Ok (page_ptr n) s.
Proof.
  intros Hn. unfold record_at.
  assert (E : wrap (wrap (buffer_start s + wrap (n * FM_PAGE_SIZE))
                    - buffer_start s) = n * 4096).
  { unfold wrap. change FM_PAGE_SIZE with 4096.
    rewrite Zminus_mod_idemp_l. rewrite Z.add_comm. rewrite <- Z.add_sub_assoc.
    rewrite Z.add_comm.
    replace (buffer_start s - buffer_start s) with 0 by lia. rewrite Z.add_0_l.
    rewrite Z.mod_mod by lia. apply Z.mod_small. lia. }
  rewrite E. change FM_PAGE_SIZE with 4096.
  rewrite Z.mod_mul by lia. rewrite Z.div_mul by lia. reflexivity.
Qed.

Lemma move_region_run s h l1 l2 (src dst np : Z) :
  dll (c_next s) (c_prev s) h (l1 ++ page_ptr src :: l2) ->
  start_page s !! src = Some dst ->
  pages s !! src = Some np ->
  0 <= dst < 2 ^ 52 ->
  page_ptr dst ∉ h :: l1 ++ page_ptr src :: l2 ->
  move_region (page_ptr src) s
  = Ok (page_ptr dst) (moved (List.last l1 h) (hd h l2) dst dst np s).
Proof.
  intros [Hc Hnd] Hsp Hnp Hr Hd.
  destruct (chain_mid _ _ _ _ _ _ _ Hc) as [Hn Hp].
  pose proof (hd_in_snoc h l2) as Hnin.
  pose proof (last_in_cons h l1) as Hpin.
  set (p := List.last l1 h) in *. set (n := hd h l2) in *.
  assert (n ≠ page_ptr dst) by (clearbody p n; elem).
  assert (p ≠ page_ptr dst) by (clearbody p n; elem).
  assert (dst ≠ src) by (clearbody p n; intros ->; elem).
  unfold move_region. mstep.
  unfold page_to_ptr at 1. erewrite bind_run; [|reflexivity]. cbv beta.
  erewrite bind_run; [|by apply record_at_page]. cbv beta.
  rewrite cptr_eqb_ne by congruence.
  repeat mstep. reflexivity.
Qed.

Lemma NoDup_replace_mid (h y d : cptr) l1 l2 :
  NoDup (h :: l1 ++ y :: l2) -> d ∉ h :: l1 ++ y :: l2 ->
  NoDup (h :: l1 ++ d :: l2).
Proof.
  intros [Hh Hnd]%NoDup_cons Hw. apply NoDup_cons. split; [set_solver|].
  apply NoDup_app in Hnd as (H1 & H2 & [H3 H4]%NoDup_cons).
  apply NoDup_app. split; [done|]. split; [set_solver|].
  apply NoDup_cons. set_solver.
Qed.

Lemma dll_moved s h l1 l2 (src dst sp np : Z) :
  dll (c_next s) (c_prev s) h (l1 ++ page_ptr src :: l2) ->
  page_ptr dst ∉ h :: l1 ++ page_ptr src :: l2 ->
  dll (c_next (moved (List.last l1 h) (hd h l2) dst sp np s))
      (c_prev (moved (List.last l1 h) (hd h l2) dst sp np s))
      h (l1 ++ page_ptr dst :: l2).
Proof.
  intros [Hc Hnd] Hd. split.
  - unfold moved. st_simpl. eapply chain_replace; [done|done|elem|done|elem].
  - by eapply NoDup_replace_mid.
Qed.

Lemma Forall_holds_same s s' L :
  (forall x, x ∈ L -> start_page s' !! x.1 = start_page s !! x.1 /\
                      pages s' !! x.1 = pages s !! x.1) ->
  Forall (holds s) L -> Forall (holds s') L.
Proof.
  intros H. rewrite !Forall_forall. intros Hh x Hx.
  destruct (H x Hx) as [E1 E2]. destruct (Hh x Hx) as [H1 H2].
  unfold holds. by rewrite E1, E2.
Qed.

Lemma free_rep_NoDup N s L : free_rep N s L -> NoDup (nodes L).
Proof. intros ([_ H] & _). by apply NoDup_cons in H as [_ H]. Qed.

Lemma free_rep_grow N s L1 a n v L2 :
  free_rep N s (L1 ++ (a, n) :: L2) ->
  free_rep N (upd_pages a v s) (L1 ++ (a, v) :: L2).
Proof.
  intros Hrep. pose proof (free_rep_NoDup _ _ _ Hrep) as Hnd.
  pose proof (free_rep_holds _ _ _ (a, n) Hrep ltac:(set_solver)) as [Ha1 Ha2].
  destruct Hrep as (Hd & Hh & Hr).
  apply Forall_app in Hh as [Hh1 [_ Hh2]%Forall_cons].
  apply Forall_app in Hr as [Hr1 [Hra Hr2]%Forall_cons].
  split; [|split].
  - st_simpl. unfold nodes in *. rewrite fmap_app in *. exact Hd.
  - apply Forall_app. split; [|apply Forall_cons; split].
    + eapply Forall_holds_same; [|exact Hh1]. intros x Hx. st_simpl.
      pose proof (NoDup_nodes_mid _ _ _ x Hnd ltac:(set_solver)).
      lk. done.
    + unfold holds. st_simpl. lk. done.
    + eapply Forall_holds_same; [|exact Hh2]. intros x Hx. st_simpl.
      pose proof (NoDup_nodes_mid _ _ _ x Hnd ltac:(set_solver)).
      lk. done.
  - apply Forall_app. split; [done|]. by apply Forall_cons.
Qed.

Lemma not_in_nodes L a : a ∉ L.*1 -> page_ptr a ∉ free_regions :: nodes L.
Proof. rewrite not_elem_of_cons, elem_of_nodes. done. Qed.

Lemma free_rep_linked N s L1 L2 fa fn :
  free_rep N s (L1 ++ L2) ->
  holds s (fa, fn) -> 1 <= fa < N -> fa ∉ (L1 ++ L2).*1 ->
  free_rep N (linked (List.last (nodes L1) free_regions) (page_ptr fa)
                (hd free_regions (nodes L2)) s)
    (L1 ++ (fa, fn) :: L2).
Proof.
  intros (Hd & Hh & Hr) Hf Hfr Hfa.
  split; [|split].
  - unfold nodes in *. rewrite fmap_app in *. cbn [fmap list_fmap fst].
    apply dll_linked; [done|]. rewrite <- fmap_app. by apply not_in_nodes.
  - apply Forall_app in Hh as [Hh1 Hh2].
    apply Forall_app. split; [|apply Forall_cons; split]; try done.
  - apply Forall_app in Hr as [Hr1 Hr2].
    apply Forall_app. split; [done|]. by apply Forall_cons.
Qed.

Lemma free_rep_moved N s L1 src n0 L2 dst v :
  free_rep N s (L1 ++ (src, n0) :: L2) ->
  1 <= dst < N -> dst ∉ (L1 ++ (src, n0) :: L2).*1 ->
  free_rep N
    (moved (List.last (nodes L1) free_regions) (hd free_regions (nodes L2))
       dst dst v (upd_pages src v (upd_start_page src dst s)))
    (L1 ++ (dst, v) :: L2).
Proof.
  intros Hrep Hdr Hdn. pose proof (free_rep_NoDup _ _ _ Hrep) as Hnd.
  destruct Hrep as (Hd & Hh & Hr).
  apply Forall_app in Hh as [Hh1 [_ Hh2]%Forall_cons].
  apply Forall_app in Hr as [Hr1 [Hra Hr2]%Forall_cons].
  assert (Hds : dst ≠ src) by (rewrite fmap_app in Hdn; set_solver).
  split; [|split].
  - unfold nodes in *. rewrite fmap_app in *. cbn [fmap list_fmap fst] in *.
    apply (dll_moved _ _ _ _ src); [done|].
    pose proof (not_in_nodes _ _ Hdn) as H. unfold nodes in H.
    rewrite fmap_app in H. exact H.
  - apply Forall_app. split; [|apply Forall_cons; split].
    + eapply Forall_holds_same; [|exact Hh1]. intros x Hx.
      unfold moved. st_simpl.
      pose proof (NoDup_nodes_mid _ _ _ x Hnd ltac:(set_solver)).
      assert (x.1 ≠ dst).
      { intros <-. apply Hdn. apply list_elem_of_fmap_2. set_solver. }
      cbn [fst] in *. lk. done.
    + unfold holds, moved. st_simpl. lk. done.
    + eapply Forall_holds_same; [|exact Hh2]. intros x Hx.
      unfold moved. st_simpl.
      pose proof (NoDup_nodes_mid _ _ _ x Hnd ltac:(set_solver)).
      assert (x.1 ≠ dst).
      { intros <-. apply Hdn. apply list_elem_of_fmap_2. set_solver. }
      cbn [fst] in *. lk. done.
  - apply Forall_app. split; [done|]. by apply Forall_cons.
Qed.

Lemma passed_last L0 prev :
  (prev = None -> L0 = []) ->
  List.last (nodes (passed L0 prev)) free_regions
  = match prev with Some p => page_ptr p.1 | None => free_regions end.
Proof.
  intros H. destruct prev as [[ps pp]|]; unfold passed.
  - unfold nodes. rewrite fmap_app. cbn [fmap list_fmap]. apply last_snoc.
  - rewrite (H eq_refl). reflexivity.
Qed.

Lemma spec_bind {A B} (m : M A) (k : A -> M B) s e1 e2 post1 post2 :
  spec (m s) e1 post1 ->
  (forall a s1, post1 a s1 -> spec (k a s1) e2 post2) ->
  spec (bind m k s) (e1 /\ e2) post2.
Proof.
  unfold bind. destruct (m s) as [a s1| | |]; simpl; try tauto.
  intros H1 H2. specialize (H2 a s1 H1).
  destruct (k a s1); simpl in *; tauto.
Qed.

Lemma place_next_spec N P rs rp L2 s fuel fa fn prev_item :
  N <= 2 ^ 52 ->
  free_rep N s (P ++ (rs, rp) :: L2) ->
  holds s (fa, fn) -> 1 <= fa < N -> fa ∉ (P ++ (rs, rp) :: L2).*1 ->
  prev_item = List.last (nodes P) free_regions ->
  spec ((let* it_ins :=
           (if false then ret (page_ptr rs, true)
            else
              let* fp := get_pages (page_ptr fa) in
              let* rs' := get_start_page (page_ptr rs) in
              if wrap (fa + fp) =? rs' then
                set_start_page (page_ptr rs) fa ;;
                let* rp0 := get_pages (page_ptr rs) in
                set_pages (page_ptr rs) (wrap (rp0 + fp)) ;;
                let* new_region := move_region (page_ptr rs) in
                ret (new_region, true)
              else ret (page_ptr rs, false)) in
         if it_ins.2 then merged_consecutive_pages fuel
         else c_list_link_before it_ins.1 (page_ptr fa)) s)
       (length (P ++ (rs, rp) :: L2) < fuel)%nat
       (fun _ s' =>
          free_rep N s' (place_next (fa, fn) P (rs, rp) L2) /\
          frame (free_regions :: page_ptr fa :: nodes (P ++ (rs, rp) :: L2))
            s s').
Proof.
  intros HN Hrep [Hf1 Hf2] Hfr Hfa ->. cbn [fst snd] in *.
  pose proof (free_rep_holds _ _ _ (rs, rp) Hrep ltac:(set_solver)) as [Hr1 Hr2].
  cbn [fst snd] in *.
  pose proof Hrep as (Hd & _).
  unfold nodes in Hd. rewrite fmap_app in Hd. cbn [fmap list_fmap fst] in Hd.
  fold (nodes P) in Hd. fold (nodes L2) in Hd.
  pose proof (last_in_cons free_regions (nodes P)) as Hlast.
  pose proof (hd_nodes_in L2) as Hhd.
  assert (Hfar : fa ≠ rs) by (rewrite fmap_app in Hfa; set_solver).
  unfold place_next. cbn [fst snd].
  mstep. mstep.
  destruct (Z.eqb_spec (wrap (fa + fn)) rs) as [E|E].
  - mstep. mstep. mstep.
    assert (Hnin : page_ptr fa ∉ free_regions :: nodes P ++ page_ptr rs :: nodes L2).
    { pose proof (not_in_nodes _ _ Hfa) as H. unfold nodes in H.
      rewrite fmap_app in H. exact H. }
    mstep by (eapply (move_region_run _ free_regions (nodes P) (nodes L2) rs fa);
        [st_simpl; exact Hd|st_simpl; lk; reflexivity|st_simpl; lk; reflexivity
        |lia|exact Hnin]).
    mstep. cbn [snd].
    pose proof (free_rep_moved N s P rs rp L2 fa (wrap (rp + fn)) Hrep Hfr Hfa)
      as Hrep2.
    set (p := List.last (nodes P) free_regions) in *.
    set (n := hd free_regions (nodes L2)) in *.
    set (s2 := moved _ _ _ _ _ _) in *.
    eapply spec_mono; [| |apply (merged_consecutive_pages_spec N _ s2 fuel Hrep2)].
    + rewrite !length_app. simpl. lia.
    + intros u s' [Hr' Hf']. split; [exact Hr'|].
      eapply frame_trans; [|eapply frame_mono; [|exact Hf']].
      * subst s2. unfold moved. clearbody p n. solve_frame.
      * unfold nodes. rewrite !fmap_app. cbn [fmap list_fmap]. set_solver.
  - mstep. cbn [fst snd].
    pose proof (c_list_link_before_run s free_regions (nodes P)
                  (page_ptr rs :: nodes L2) (page_ptr fa) Hd) as Hrun.
    cbn [hd] in Hrun. rewrite Hrun. cbn [hd spec].
    pose proof (free_rep_linked N s P ((rs, rp) :: L2) fa fn Hrep
                  (conj Hf1 Hf2) Hfr Hfa) as Hl.
    cbn [hd nodes fmap list_fmap fst] in Hl.
    split; [exact Hl|].
    set (p := List.last (nodes P) free_regions) in *.
    unfold linked. clearbody p. solve_frame.
Qed.

Lemma restore_freed_loop_spec N L2 : forall L0 prev s fuel fa fn,
  N <= 2 ^ 52 ->
  free_rep N s (passed L0 prev ++ L2) ->
  (prev = None -> L0 = []) ->
  holds s (fa, fn) -> 1 <= fa < N -> fa ∉ (passed L0 prev ++ L2).*1 ->
  spec (restore_freed_loop fuel (page_ptr fa)
          (List.last (nodes (passed L0 prev)) free_regions)
          (hd free_regions (nodes L2)) s)
       (length (passed L0 prev) + 2 * length L2 + 2 < fuel)%nat
       (fun _ s' =>
          free_rep N s' (restore_scan (fa, fn) L0 prev L2) /\
          frame (free_regions :: page_ptr fa :: nodes (passed L0 prev ++ L2))
            s s').
Proof.
  induction L2 as [|[rs rp] L2 IH];
    intros L0 prev s fuel fa fn HN Hrep Hprev [Hf1 Hf2] Hfr Hfa;
    cbn [fst snd] in *.
  - destruct fuel as [|fuel]; [simpl; lia|].
    cbn [restore_freed_loop hd nodes fmap list_fmap]. rewrite cptr_eqb_refl.
    rewrite app_nil_r in *. unfold c_list_link_tail.
    pose proof Hrep as (Hd & _).
    erewrite bind_run;
      [|apply (c_list_link_before_run s free_regions (nodes (passed L0 prev))
                 [] (page_ptr fa)); rewrite app_nil_r; exact Hd].
    cbv beta. cbn [hd].
    pose proof (free_rep_linked N s (passed L0 prev) [] fa fn) as Hl.
    rewrite app_nil_r in Hl. specialize (Hl Hrep (conj Hf1 Hf2) Hfr Hfa).
    cbn [hd nodes fmap list_fmap] in Hl.
    pose proof (last_in_cons free_regions (nodes (passed L0 prev))) as Hlast.
    set (p := List.last (nodes (passed L0 prev)) free_regions) in *.
    set (s1 := linked _ _ _ _) in *.
    eapply spec_mono; [| |apply (merged_consecutive_pages_spec N _ s1 fuel Hl)].
    + rewrite length_app. simpl. lia.
    + intros u s' [Hr' Hf']. split; [exact Hr'|].
      eapply frame_trans; [|eapply frame_mono; [|exact Hf']].
      * subst s1. unfold linked. clearbody p. solve_frame.
      * unfold nodes. rewrite !fmap_app. cbn [fmap list_fmap]. set_solver.
  - destruct fuel as [|fuel]; [simpl; lia|].
    cbn [restore_freed_loop hd nodes fmap list_fmap fst cptr_eqb].
    fold (nodes L2).
    pose proof (free_rep_holds _ _ _ (rs, rp) Hrep ltac:(set_solver)) as [Hr1 Hr2].
    cbn [fst snd] in *.
    mstep. mstep.
    destruct (Z.ltb_spec fa rs) as [Hlt|Hge].
    + rewrite (passed_last _ _ Hprev).
      assert (Hlen : (length (passed L0 prev ++ (rs, rp) :: L2) < fuel)%nat ->
                     (length (passed L0 prev) + 2 * length ((rs, rp) :: L2) + 2
                      < S fuel)%nat -> True) by done.
      cbn [restore_scan fst snd]. rewrite (proj2 (Z.ltb_lt _ _) Hlt).
      destruct prev as [[ps pp]|].
      * cbn [cptr_eqb negb place fst snd].
        pose proof (free_rep_holds _ _ _ (ps, pp) Hrep
                      ltac:(unfold passed; set_solver)) as [Hp1 Hp2].
        cbn [fst snd] in *.
        mstep. mstep.
        destruct (Z.eqb_spec (wrap (ps + pp)) fa) as [E|E].
        -- mstep. mstep. mstep. mstep. cbn [snd].
           unfold passed in Hrep. rewrite <- app_assoc in Hrep.
           cbn [app] in Hrep.
           pose proof (free_rep_grow N s L0 ps pp (wrap (pp + fn)) _ Hrep)
             as Hrep1.
           set (s1 := upd_pages _ _ _) in *.
           eapply spec_mono;
             [| |apply (merged_consecutive_pages_spec N _ s1 fuel Hrep1)].
           ++ unfold passed. rewrite !length_app. simpl. lia.
           ++ intros u s' [Hr' Hf']. split; [exact Hr'|].
              eapply frame_trans; [|eapply frame_mono; [|exact Hf']].
              ** subst s1. unfold passed. solve_frame.
              ** unfold passed, nodes. rewrite !fmap_app.
                 cbn [fmap list_fmap]. set_solver.
        -- mstep.
           eapply spec_mono;
             [| |apply (place_next_spec N (passed L0 (Some (ps, pp))) rs rp L2
                         s fuel fa fn _ HN Hrep (conj Hf1 Hf2) Hfr Hfa eq_refl)].
           ++ simpl. rewrite !length_app. simpl. lia.
           ++ intros u s' H. exact H.
      * cbn [cptr_eqb negb place].
        mstep.
        eapply spec_mono;
          [| |apply (place_next_spec N (passed L0 None) rs rp L2
                      s fuel fa fn _ HN Hrep (conj Hf1 Hf2) Hfr Hfa eq_refl)].
        -- simpl. rewrite !length_app. simpl. lia.
        -- intros u s' H. exact H.
    + pose proof Hrep as ([Hc _] & _).
      unfold nodes in Hc. rewrite fmap_app in Hc.
      cbn [fmap list_fmap fst] in Hc.
      apply chain_mid in Hc as [Hnx _]. fold (nodes L2) in Hnx.
      mstep.
      assert (E1 : passed (passed L0 prev) (Some (rs, rp)) ++ L2
                   = passed L0 prev ++ (rs, rp) :: L2).
      { unfold passed at 1. by rewrite <- app_assoc. }
      assert (E2 : page_ptr rs
                   = List.last (nodes (passed (passed L0 prev) (Some (rs, rp))))
                       free_regions).
      { unfold passed at 1. unfold nodes. rewrite fmap_app.
        cbn [fmap list_fmap fst]. by rewrite last_snoc. }
      rewrite E2.
      eapply spec_mono;
        [| |apply (IH (passed L0 prev) (Some (rs, rp)) s fuel fa fn HN)];
        try done.
      * unfold passed at 2. rewrite !length_app. simpl. lia.
      * intros u s' [Hr' Hf']. cbn [restore_scan fst].
        rewrite (proj2 (Z.ltb_ge _ _) Hge). rewrite E1 in Hf'. done.
      * by rewrite E1.
      * by rewrite E1.
Qed.

(** Abstract facts about merging and restoring *)

Lemma merge_from_starts L : forall a x,
  x ∈ merge_from a L -> x.1 ∈ a.1 :: L.*1.
Proof.
  induction L as [|b L IH]; intros a x; cbn [merge_from fmap list_fmap].
  - set_solver.
  - destruct (_ =? _).
    + intros H. apply IH in H. cbn [fst] in H. set_solver.
    + intros [->|H]%elem_of_cons; [set_solver|]. apply IH in H. set_solver.
Qed.

Lemma merge_all_starts L x : x ∈ merge_all L -> x.1 ∈ L.*1.
Proof. destruct L as [|a L]; [simpl; set_solver|]. apply merge_from_starts. Qed.

Lemma merge_from_length L : forall a,
  (length (merge_from a L) <= S (length L))%nat.
Proof.
  induction L as [|b L IH]; intros a; cbn [merge_from length]; [lia|].
  destruct (_ =? _).
  - specialize (IH (a.1, wrap (a.2 + b.2))). lia.
  - specialize (IH b). simpl. lia.
Qed.

Lemma merge_all_length L : (length (merge_all L) <= length L)%nat.
Proof. destruct L as [|a L]; [simpl; lia|]. apply merge_from_length. Qed.

Lemma place_next_starts f P r L2 x :
  x ∈ place_next f P r L2 -> x.1 ∈ f.1 :: (P ++ r :: L2).*1.
Proof.
  unfold place_next. destruct (_ =? _).
  - intros H%merge_all_starts. rewrite fmap_app in *.
    cbn [fmap list_fmap fst] in *. set_solver.
  - intros H. apply (list_elem_of_fmap_2 fst) in H.
    rewrite !fmap_app in *. cbn [fmap list_fmap fst] in *. set_solver.
Qed.

Lemma place_next_length f P r L2 :
  (length (place_next f P r L2) <= S (length (P ++ r :: L2)))%nat.
Proof.
  unfold place_next. destruct (_ =? _).
  - etrans; [apply merge_all_length|]. rewrite !length_app. simpl. lia.
  - rewrite !length_app. simpl. lia.
Qed.

Lemma restore_scan_starts f L2 : forall L0 prev x,
  x ∈ restore_scan f L0 prev L2 -> x.1 ∈ f.1 :: (passed L0 prev ++ L2).*1.
Proof.
  induction L2 as [|r L2 IH]; intros L0 prev x; cbn [restore_scan].
  - intros H%merge_all_starts. rewrite !fmap_app in *.
    cbn [fmap list_fmap fst] in *. set_solver.
  - destruct (_ <? _).
    + unfold place. destruct prev as [p|].
      * destruct (_ =? _).
        -- intros H%merge_all_starts. unfold passed. rewrite !fmap_app in *.
           cbn [fmap list_fmap fst] in *. set_solver.
        -- apply place_next_starts.
      * apply place_next_starts.
    + intros H%IH. unfold passed at 1 in H. rewrite <- app_assoc in H. done.
Qed.

Lemma restore_scan_length f L2 : forall L0 prev,
  (length (restore_scan f L0 prev L2) <= S (length (passed L0 prev ++ L2)))%nat.
Proof.
  induction L2 as [|r L2 IH]; intros L0 prev; cbn [restore_scan].
  - etrans; [apply merge_all_length|]. rewrite !length_app. simpl. lia.
  - destruct (_ <? _).
    + unfold place. destruct prev as [p|].
      * destruct (_ =? _).
        -- etrans; [apply merge_all_length|]. unfold passed.
           rewrite !length_app. simpl. lia.
        -- apply place_next_length.
      * apply place_next_length.
    + etrans; [apply IH|]. unfold passed at 1. rewrite <- app_assoc. done.
Qed.

Lemma restore_region_starts f L x :
  x ∈ restore_region f L -> x.1 ∈ f.1 :: L.*1.
Proof. apply restore_scan_starts. Qed.

Lemma restore_region_length f L :
  (length (restore_region f L) <= S (length L))%nat.
Proof. apply (restore_scan_length f L [] None). Qed.

Lemma restore_freed_region_spec N L s fuel fa fn :
  N <= 2 ^ 52 ->
  free_rep N s L ->
  holds s (fa, fn) -> 1 <= fa < N -> fa ∉ L.*1 ->
  spec (restore_freed_region fuel (page_ptr fa) s)
       (2 * length L + 2 < fuel)%nat
       (fun _ s' =>
          free_rep N s' (restore_region (fa, fn) L) /\
          frame (free_regions :: page_ptr fa :: nodes L) s s').
Proof.
  intros HN Hrep Hf Hfr Hfa. unfold restore_freed_region.
  pose proof Hrep as ([Hc _] & _). apply chain_next in Hc.
  mstep.
  eapply spec_mono;
    [| |apply (restore_freed_loop_spec N L [] None s fuel fa fn HN Hrep)];
    first [done | simpl; lia].
Qed.

Lemma nlinks_frame nx nx' l z :
  (forall q, q ∈ l -> nx' !! q = nx !! q) -> nlinks nx l z -> nlinks nx' l z.
Proof.
  induction l as [|y l IH]; simpl; [done|]. intros H [H1 H2].
  split; [rewrite H; [done|set_solver]|]. apply IH; [|done].
  intros q Hq. apply H. set_solver.
Qed.

Lemma chain_nlinks nx pv x l z : chain nx pv x l z -> nlinks nx l z.
Proof.
  revert x. induction l as [|y l IH]; intros x; simpl; [done|].
  intros (_ & _ & H). split; [by eapply chain_next|by eapply IH].
Qed.

Lemma free_rep_frame N K s s' L :
  frame K s s' -> (forall q, q ∈ free_regions :: nodes L -> q ∉ K) ->
  free_rep N s L -> free_rep N s' L.
Proof.
  intros Hf HK ([Hc Hnd] & Hh & Hr).
  pose proof Hf as (_ & _ & _ & _ & _ & Hl & Hw).
  split; [split|split]; try done.
  - eapply chain_frame; [| |exact Hc].
    + intros q Hq. apply Hl, HK. done.
    + intros q Hq. apply Hl, HK. set_solver.
  - eapply Forall_holds_frame; [exact Hf| |exact Hh].
    intros r Hr'. apply HK. apply elem_of_cons. right.
    unfold nodes. by apply (list_elem_of_fmap_2 (fun r => page_ptr r.1)).
Qed.

Lemma restore_all_loop_spec N D : forall L s fuel,
  N <= 2 ^ 52 ->
  free_rep N s L ->
  nlinks (c_next s) (nodes D) freed_memories ->
  Forall (holds s) D -> Forall (fun r => 1 <= r.1 < N) D ->
  NoDup ((L ++ D).*1) ->
  spec (restore_all_loop fuel (hd freed_memories (nodes D)) s)
       (2 * length L + 3 * length D + 3 < fuel)%nat
       (fun _ s' =>
          free_rep N s' (drain L D) /\
          frame (free_regions :: nodes (L ++ D)) s s').
Proof.
  induction D as [|[da dn] D IH]; intros L s fuel HN Hrep Hnl Hh Hr Hnd.
  - destruct fuel as [|fuel]; [simpl; lia|]. simpl.
    split; [done|apply frame_refl].
  - destruct fuel as [|fuel]; [simpl; lia|].
    cbn [restore_all_loop hd nodes fmap list_fmap fst cptr_eqb].
    fold (nodes D). cbn [nodes fmap list_fmap nlinks fst] in Hnl.
    fold (nodes D) in Hnl. destruct Hnl as [Hnx Hnl].
    apply Forall_cons in Hh as [Hda Hh]. apply Forall_cons in Hr as [Hdr Hr].
    cbn [fst] in Hdr.
    rewrite fmap_app in Hnd. cbn [fmap list_fmap fst] in Hnd.
    assert (HdaL : da ∉ L.*1).
    { apply NoDup_app in Hnd as (_ & H & _). intros Hin.
      apply (H da Hin). set_solver. }
    assert (HdaD : da ∉ D.*1).
    { apply NoDup_app in Hnd as (_ & _ & [H _]%NoDup_cons). exact H. }
    assert (HLD : forall x, x ∈ L.*1 -> x ∉ D.*1).
    { apply NoDup_app in Hnd as (_ & H & _). intros x Hx HxD.
      apply (H x Hx). set_solver. }
    assert (HDnd : NoDup D.*1).
    { apply NoDup_app in Hnd as (_ & _ & [_ H]%NoDup_cons). exact H. }
    mstep.
    eapply spec_mono;
      [| |eapply (spec_bind _ _ _ (2 * length L + 2 < fuel)%nat
                    (2 * length (restore_region (da, dn) L) + 3 * length D + 3
                     < fuel)%nat);
           [apply (restore_freed_region_spec N L s fuel da dn HN Hrep Hda Hdr HdaL)|]].
    + intros H. pose proof (restore_region_length (da, dn) L).
      simpl in H. split; lia.
    + intros u s' H. exact H.
    + intros u s1 [Hrep1 Hf1]. cbv beta.
      assert (HK : forall q, q ∈ nodes D ->
                q ∉ free_regions :: page_ptr da :: nodes L).
      { intros q (r & -> & Hr')%list_elem_of_fmap_1.
        apply (list_elem_of_fmap_2 fst) in Hr'.
        rewrite !not_elem_of_cons, elem_of_nodes. split; [done|].
        split; [congruence|]. intros HL. by apply (HLD _ HL). }
      eapply spec_mono;
        [| |apply (IH (restore_region (da, dn) L) s1 fuel HN Hrep1)].
      * intros H. exact H.
      * intros u' s' [Hr' Hf']. cbn [drain foldl]. split; [exact Hr'|].
        eapply frame_trans; eapply frame_mono; [|exact Hf1| |exact Hf'].
        -- unfold nodes. rewrite !fmap_app. cbn [fmap list_fmap fst].
           set_solver.
        -- intros q [->|Hq]%elem_of_cons; [set_solver|].
           unfold nodes in Hq. rewrite fmap_app in Hq.
           apply elem_of_app in Hq as [Hq|Hq].
           ++ apply list_elem_of_fmap_1 in Hq as (r & -> & Hrr).
              apply restore_region_starts in Hrr. cbn [fst] in Hrr.
              apply elem_of_cons in Hrr as [->|Hrr].
              ** unfold nodes. rewrite !fmap_app. cbn [fmap list_fmap fst].
                 set_solver.
              ** apply elem_of_cons. right. apply elem_of_nodes.
                 rewrite fmap_app. set_solver.
           ++ apply elem_of_cons. right. unfold nodes. rewrite !fmap_app.
              cbn [fmap list_fmap]. set_solver.
      * eapply nlinks_frame; [|exact Hnl]. intros q Hq.
        destruct Hf1 as (_ & _ & _ & _ & _ & Hl & _). apply Hl. by apply HK.
      * eapply Forall_holds_frame; [exact Hf1| |exact Hh].
        intros r Hr'. apply HK. unfold nodes.
        by apply (list_elem_of_fmap_2 (fun r => page_ptr r.1)).
      * exact Hr.
      * rewrite fmap_app. apply NoDup_app. split; [|split; [|exact HDnd]].
        -- apply NoDup_nodes. by eapply free_rep_NoDup.
        -- intros x (r & -> & Hr')%list_elem_of_fmap_1.
           apply restore_region_starts in Hr'. cbn [fst] in Hr'.
           apply elem_of_cons in Hr' as [->|Hr']; [done|]. by apply HLD.
Qed.

Lemma restore_all_freed_memories_spec N s L D fuel :
  lm_inv N s L D ->
  spec (restore_all_freed_memories fuel s)
       (2 * length L + 3 * length D + 3 < fuel)%nat
       (fun _ s' =>
          lm_inv N s' (drain L D) [] /\
          frame (free_regions :: freed_memories :: nodes (L ++ D)) s s').
Proof.
  intros (HN & Hrep & ([Hc Hdn] & Hh & Hr) & Hnd).
  unfold restore_all_freed_memories.
  pose proof (chain_next _ _ _ _ _ Hc) as Hnx.
  mstep.
  eapply spec_mono;
    [| |eapply (spec_bind _ _ _ (2 * length L + 3 * length D + 3 < fuel)%nat
                  True);
         [apply (restore_all_loop_spec N D L s fuel HN Hrep
                   (chain_nlinks _ _ _ _ _ Hc) Hh Hr Hnd)|]].
  - tauto.
  - intros u s' H. exact H.
  - intros u s1 [Hrep1 Hf1]. cbv beta. unfold c_list_init.
    repeat mstep. cbn [spec ret].
    set (s2 := upd_prev _ _ _).
    assert (Hf2 : frame [freed_memories] s1 s2).
    { subst s2. solve_frame. }
    split; [split; [done|split; [|split]]|].
    + eapply free_rep_frame; [exact Hf2| |exact Hrep1].
      intros q [->|Hq]%elem_of_cons; [set_solver|].
      apply list_elem_of_fmap_1 in Hq as (r & -> & _). set_solver.
    + split; [split|split]; try done.
      * subst s2. simpl. st_simpl. by rewrite !lookup_insert_eq.
      * apply NoDup_singleton.
    + rewrite app_nil_r. apply NoDup_nodes. by eapply free_rep_NoDup.
    + eapply frame_trans; eapply frame_mono; [|exact Hf1| |exact Hf2];
        set_solver.
Qed.

(** ** Scans that fail, and what no scan writes *)

Lemma state_eta s :
  mkState (buffer_start s) (meta_pages s) (c_next s) (c_prev s)
    (start_page s) (pages s) (m_size s) (m_count s) (m_slab_index s) = s.
Proof. destruct s; reflexivity. Qed.

Lemma upd_start_page_id s n v : start_page s !! n = Some v -> upd_start_page n v s = s.
Proof. intros H. unfold upd_start_page. rewrite insert_id by done. apply state_eta. Qed.
Lemma upd_pages_id s n v : pages s !! n = Some v -> upd_pages n v s = s.
Proof. intros H. unfold upd_pages. rewrite insert_id by done. apply state_eta. Qed.

Lemma page_to_ptr_small (s : state) (n : Z) :
  0 <= n -> 0 <= buffer_start s -> buffer_start s + n * FM_PAGE_SIZE < 2 ^ 64 ->
  page_to_ptr n s = Ok (buffer_start s + n * FM_PAGE_SIZE) s.
Proof.
  intros Hn Hb Hlt. unfold page_to_ptr. f_equal.
  change FM_PAGE_SIZE with 4096 in *.
  rewrite (wrap_small (n * 4096)) by lia. apply wrap_small. lia.
Qed.

Lemma page_aligned_add (b n : Z) :
  page_aligned b -> page_aligned (b + n * FM_PAGE_SIZE).
Proof.
  unfold page_aligned. change (FM_PAGE_SIZE - 1) with (Z.ones 12).
  rewrite !Z.land_ones by lia. change FM_PAGE_SIZE with (2 ^ 12).
  intros H. rewrite Z.mod_add by lia. exact H.
Qed.

Lemma move_region_same s (a : Z) :
  start_page s !! a = Some a -> 0 <= a < 2 ^ 52 ->
  move_region (page_ptr a) s = Ok (page_ptr a) s.
Proof.
  intros Hsp Ha. unfold move_region. mstep.
  unfold page_to_ptr at 1. erewrite bind_run; [|reflexivity]. cbv beta.
  erewrite bind_run; [|by apply record_at_page]. cbv beta.
  by rewrite cptr_eqb_refl.
Qed.

Lemma mark_alloced_pages_zero s page :
  0 <= page < META_ENTRIES ->
  mark_alloced_pages page 0 s = Ok tt (upd_meta page 0 s).
Proof.
  intros H. unfold mark_alloced_pages, set_meta, in_table. simpl.
  destruct (Z.leb_spec 0 page); [|lia]. destruct (Z.ltb_spec page META_ENTRIES); [|lia].
  reflexivity.
Qed.

Lemma walk_next_ext s s' fuel head p :
  c_next s' = c_next s -> walk_next s' fuel head p = walk_next s fuel head p.
Proof.
  intros E. revert p. induction fuel as [|fuel IH]; intros p; simpl; [done|].
  rewrite E. destruct (cptr_eqb p head); [done|].
  destruct (c_next s !! p); [|done]. by rewrite IH.
Qed.

Lemma regions_of_ext s s' fuel head :
  c_next s' = c_next s -> start_page s' = start_page s -> pages s' = pages s ->
  regions_of s' fuel head = regions_of s fuel head.
Proof.
  intros E1 E2 E3. unfold regions_of, list_nodes. rewrite E1.
  destruct (c_next s !! head); [|done]. rewrite (walk_next_ext s s') by done.
  destruct (walk_next s fuel head c); [|done].
  f_equal. unfold region_at. by rewrite E2, E3.
Qed.

Lemma partial_bind {A B} (m : M A) (k : A -> M B) s post :
  partial (m s) (fun a s1 => partial (k a s1) post) -> partial (bind m k s) post.
Proof. unfold bind. destruct (m s); simpl; auto. Qed.

Lemma partial_true {A} (r : res A) : partial r (fun _ _ => True).
Proof. by destruct r. Qed.

Lemma partial_mono {A} (r : res A) (post post' : A -> state -> Prop) :
  (forall a s, post a s -> post' a s) -> partial r post -> partial r post'.
Proof. destruct r; simpl; auto. Qed.

Lemma carve_front_result s n sp req :
  start_page s !! n = Some sp ->
  partial (carve_front (page_ptr n) req s) (fun p _ => p = sp).
Proof.
  intros Hsp. unfold carve_front. mstep. mstep.
  apply partial_bind. eapply partial_mono; [|apply partial_true].
  intros np s1 _. cbv beta.
  apply partial_bind. eapply partial_mono; [|apply partial_true].
  intros u s2 _. cbv beta.
  apply partial_bind. eapply partial_mono; [|apply partial_true].
  intros np' s3 _. cbv beta.
  apply partial_bind. eapply partial_mono; [|apply partial_true].
  intros u' s4 _. reflexivity.
Qed.

Lemma alloc_free_pages_loop_fail N req L2 : forall L1 s fuel,
  free_rep N s (L1 ++ L2) -> Forall (region_ok N) L2 ->
  partial (alloc_free_pages_loop fuel req (hd free_regions (nodes L2)) s)
    (fun p s' => (p = 0 /\ s' = s /\ Forall (fun r => r.2 < req) L2)
                 \/ (1 <= p /\ p + req <= N)).
Proof.
  induction L2 as [|[rs rp] L2 IH]; intros L1 s fuel Hrep Hok.
  - destruct fuel as [|fuel]; [exact I|]. simpl. left. done.
  - destruct fuel as [|fuel]; [exact I|].
    pose proof (free_rep_holds _ _ _ (rs, rp) Hrep ltac:(set_solver)) as [Hr1 Hr2].
    apply Forall_cons in Hok as [(Ho1 & Ho2 & Ho3) Hok]. cbn [fst snd] in *.
    cbn [alloc_free_pages_loop hd nodes fmap list_fmap fst cptr_eqb].
    fold (nodes L2). mstep.
    destruct (Z.leb_spec req rp) as [Hle|Hgt].
    + eapply partial_mono; [|apply (carve_front_result s rs rs req Hr1)].
      intros p s' ->. right. lia.
    + pose proof Hrep as ([Hc _] & _).
      unfold nodes in Hc. rewrite fmap_app in Hc.
      cbn [fmap list_fmap fst] in Hc.
      apply chain_mid in Hc as [Hnx _]. fold (nodes L2) in Hnx.
      mstep.
      eapply partial_mono; [|apply (IH (L1 ++ [(rs, rp)]) s fuel)].
      * intros p s' [(-> & -> & H)|H]; [left|right; done].
        split; [done|]. split; [done|]. apply Forall_cons. done.
      * by rewrite <- app_assoc.
      * done.
Qed.

Lemma alloc_free_pages_fail N req L s fuel :
  free_rep N s L -> Forall (region_ok N) L ->
  partial (alloc_free_pages fuel req s)
    (fun p s' => (p = 0 /\ s' = s /\ Forall (fun r => r.2 < req) L)
                 \/ (1 <= p /\ p + req <= N)).
Proof.
  intros Hrep Hok. unfold alloc_free_pages.
  pose proof Hrep as ([Hc _] & _). apply chain_next in Hc.
  mstep. by apply (alloc_free_pages_loop_fail N req L []).
Qed.

Lemma nodes_snoc L a : nodes (L ++ [a]) = nodes L ++ [page_ptr a.1].
Proof. unfold nodes. by rewrite fmap_app. Qed.

Lemma alloc_free_pages_reverse_loop_fail N req L1 : forall L2 s fuel,
  N <= 2 ^ 52 -> 0 <= req ->
  free_rep N s (L1 ++ L2) -> Forall (region_ok N) L1 ->
  partial (alloc_free_pages_reverse_loop fuel req
             (List.last (nodes L1) free_regions) s)
    (fun p s' => (p = 0 /\ s' = s /\ Forall (fun r => r.2 < req) L1)
                 \/ (1 <= p /\ p + req <= N)).
Proof.
  induction L1 as [|[rs rp] L1 IH] using rev_ind; intros L2 s fuel HN Hreq Hrep Hok.
  - destruct fuel as [|fuel]; [exact I|]. simpl. left. done.
  - destruct fuel as [|fuel]; [exact I|].
    pose proof (free_rep_holds _ _ _ (rs, rp) Hrep ltac:(set_solver)) as [Hr1 Hr2].
    apply Forall_app in Hok as [Hok [(Ho1 & Ho2 & Ho3) _]%Forall_cons].
    cbn [fst snd] in *.
    rewrite nodes_snoc, last_snoc. cbn [fst].
    cbn [alloc_free_pages_reverse_loop cptr_eqb]. mstep.
    destruct (Z.leb_spec req rp) as [Hle|Hgt].
    + mstep.
      apply partial_bind. eapply partial_mono; [|apply partial_true].
      intros u s1 _. cbv beta.
      apply partial_bind. eapply partial_mono; [|apply partial_true].
      intros np' s2 _. cbv beta.
      apply partial_bind. eapply partial_mono; [|apply partial_true].
      intros u' s3 _. simpl. right.
      rewrite (wrap_small (rs + rp)) by lia. rewrite wrap_small by lia. lia.
    + pose proof Hrep as ([Hc _] & _).
      rewrite <- app_assoc in Hc.
      unfold nodes in Hc. rewrite fmap_app in Hc.
      cbn [app fmap list_fmap fst] in Hc.
      apply chain_mid in Hc as [_ Hpv]. fold (nodes L1) in Hpv.
      mstep.
      eapply partial_mono; [|apply (IH ((rs, rp) :: L2) s fuel HN Hreq)].
      * intros p s' [(-> & -> & H)|H]; [left|right; done].
        split; [done|]. split; [done|]. apply Forall_app. split; [done|].
        apply Forall_cons. done.
      * by rewrite <- app_assoc in Hrep.
      * done.
Qed.

Lemma alloc_free_pages_reverse_fail N req L s fuel :
  N <= 2 ^ 52 -> 0 <= req ->
  free_rep N s L -> Forall (region_ok N) L ->
  partial (alloc_free_pages_reverse fuel req s)
    (fun p s' => (p = 0 /\ s' = s /\ Forall (fun r => r.2 < req) L)
                 \/ (1 <= p /\ p + req <= N)).
Proof.
  intros HN Hreq Hrep Hok. unfold alloc_free_pages_reverse.
  pose proof Hrep as ([Hc _] & _). apply chain_prev in Hc.
  mstep. apply (alloc_free_pages_reverse_loop_fail N req L []); try done.
  by rewrite app_nil_r.
Qed.

Lemma alloc_fail N req t L s fuel :
  N <= 2 ^ 52 -> 0 <= req ->
  free_rep N s L -> Forall (region_ok N) L ->
  partial (alloc fuel req t s)
    (fun p s' => (p = 0 /\ s' = s /\ Forall (fun r => r.2 < req) L)
                 \/ (1 <= p /\ p + req <= N)).
Proof.
  intros. unfold alloc. destruct (t =? FM_LM_T_TRANSIENT).
  - by apply alloc_free_pages_fail.
  - by apply alloc_free_pages_reverse_fail.
Qed.

(** region_ok through the drain *)

Lemma merge_from_ok N L : forall a,
  N <= 2 ^ 52 -> region_ok N a -> Forall (region_ok N) L ->
  Forall (region_ok N) (merge_from a L).
Proof.
  induction L as [|b L IH]; intros a HN Ha HL; cbn [merge_from].
  - by apply Forall_singleton.
  - apply Forall_cons in HL as [Hb HL].
    destruct Ha as (A1 & A2 & A3). pose proof Hb as (B1 & B2 & B3).
    destruct (Z.eqb_spec (wrap (a.1 + a.2)) b.1) as [E|E].
    + apply IH; [done| |done]. rewrite wrap_small in E by lia.
      unfold region_ok. cbn [fst snd]. rewrite wrap_small by lia. lia.
    + apply Forall_cons. split; [done|]. by apply IH.
Qed.

Lemma merge_all_ok N L :
  N <= 2 ^ 52 -> Forall (region_ok N) L -> Forall (region_ok N) (merge_all L).
Proof.
  destruct L as [|a L]; [done|]. intros HN [Ha HL]%Forall_cons.
  by apply merge_from_ok.
Qed.

Lemma place_next_ok N f P r L2 :
  N <= 2 ^ 52 -> region_ok N f -> Forall (region_ok N) (P ++ r :: L2) ->
  Forall (region_ok N) (place_next f P r L2).
Proof.
  intros HN Hf H. unfold place_next.
  pose proof H as [HP [Hr HL2]%Forall_cons]%Forall_app.
  destruct Hf as (F1 & F2 & F3). destruct Hr as (R1 & R2 & R3).
  destruct (Z.eqb_spec (wrap (f.1 + f.2)) r.1) as [E|E].
  - apply merge_all_ok; [done|]. apply Forall_app. split; [done|].
    apply Forall_cons. split; [|done]. rewrite wrap_small in E by lia.
    unfold region_ok. cbn [fst snd]. rewrite wrap_small by lia. lia.
  - apply Forall_app. split; [done|]. apply Forall_cons. split; [done|].
    apply Forall_cons. done.
Qed.

Lemma restore_scan_ok N f L2 : forall L0 prev,
  N <= 2 ^ 52 -> region_ok N f -> Forall (region_ok N) (passed L0 prev ++ L2) ->
  Forall (region_ok N) (restore_scan f L0 prev L2).
Proof.
  induction L2 as [|r L2 IH]; intros L0 prev HN Hf H; cbn [restore_scan].
  - apply merge_all_ok; [done|]. rewrite app_nil_r in H.
    apply Forall_app. split; [done|]. by apply Forall_singleton.
  - destruct (f.1 <? r.1).
    + unfold place. destruct prev as [p|]; [|by apply place_next_ok].
      destruct (Z.eqb_spec (wrap (p.1 + p.2)) f.1) as [E|E];
        [|by apply place_next_ok].
      apply merge_all_ok; [done|]. unfold passed in H.
      rewrite <- app_assoc in H. cbn [app] in H.
      apply Forall_app in H as [H0 [Hp H2]%Forall_cons].
      apply Forall_app. split; [done|]. apply Forall_cons. split; [|done].
      destruct Hf as (F1 & F2 & F3). destruct Hp as (P1 & P2 & P3).
      rewrite wrap_small in E by lia.
      unfold region_ok. cbn [fst snd]. rewrite wrap_small by lia. lia.
    + apply IH; [done|done|]. unfold passed at 1. by rewrite <- app_assoc.
Qed.

Lemma restore_region_ok N f L :
  N <= 2 ^ 52 -> region_ok N f -> Forall (region_ok N) L ->
  Forall (region_ok N) (restore_region f L).
Proof. intros. by apply restore_scan_ok. Qed.

Lemma drain_ok N D : forall L,
  N <= 2 ^ 52 -> Forall (region_ok N) L -> Forall (region_ok N) D ->
  Forall (region_ok N) (drain L D).
Proof.
  induction D as [|d D IH]; intros L HN HL HD; [done|].
  apply Forall_cons in HD as [Hd HD]. cbn [drain foldl].
  apply IH; [done| |done]. by apply restore_region_ok.
Qed.

Lemma partial_bind_eq {A B} (m : M A) (k : A -> M B) s post :
  (forall a s1, m s = Ok a s1 -> partial (k a s1) post) ->
  partial (bind m k s) post.
Proof. unfold bind. destruct (m s); simpl; auto. Qed.

Lemma spec_partial {A} (r : res A) e post : spec r e post -> partial r post.
Proof. destruct r; simpl; auto. Qed.

Lemma partial_run {A} (r : res A) post a s : partial r post -> r = Ok a s -> post a s.
Proof. intros H ->. exact H. Qed.

Lemma set_meta_buffer i v s :
  partial (set_meta i v s) (fun _ s' => buffer_start s' = buffer_start s).
Proof. unfold set_meta. destruct (in_table i); simpl; done. Qed.

Lemma mark_alloced_pages_buffer a b s :
  partial (mark_alloced_pages a b s)
    (fun _ s' => buffer_start s' = buffer_start s).
Proof.
  unfold mark_alloced_pages, set_meta32.
  destruct (b <? 255); [apply set_meta_buffer|].
  apply partial_bind. eapply partial_mono; [|apply set_meta_buffer].
  intros u1 s1 E1. cbv beta.
  apply partial_bind. eapply partial_mono; [|apply set_meta_buffer].
  intros u2 s2 E2. cbv beta.
  apply partial_bind. eapply partial_mono; [|apply set_meta_buffer].
  intros u3 s3 E3. cbv beta.
  apply partial_bind. eapply partial_mono; [|apply set_meta_buffer].
  intros u4 s4 E4. cbv beta.
  eapply partial_mono; [|apply set_meta_buffer].
  intros u5 s5 E5. congruence.
Qed.

Lemma page_to_ptr_not_null N s p :
  N <= 2 ^ 52 -> 1 <= p <= N ->
  0 < buffer_start s -> buffer_start s + N * FM_PAGE_SIZE < 2 ^ 64 ->
  partial (page_to_ptr p s) (fun q _ => q ≠ NULL).
Proof.
  intros HN Hp Hb Hend. unfold page_to_ptr. simpl.
  change FM_PAGE_SIZE with 4096 in *. unfold NULL.
  rewrite (wrap_small (p * 4096)) by lia. rewrite wrap_small by lia. lia.
Qed.

Lemma marked_ptr_not_null N s p n :
  N <= 2 ^ 52 -> 1 <= p <= N ->
  0 < buffer_start s -> buffer_start s + N * FM_PAGE_SIZE < 2 ^ 64 ->
  partial ((mark_alloced_pages p n ;; page_to_ptr p) s) (fun q _ => q ≠ NULL).
Proof.
  intros HN Hp Hb Hend.
  apply partial_bind. eapply partial_mono; [|apply mark_alloced_pages_buffer].
  intros u s1 E. cbv beta. apply (page_to_ptr_not_null N); try done.
  all: by rewrite E.
Qed.

Lemma restore_all_nothing_deferred N s L fuel s' :
  lm_inv N s L [] -> restore_all_freed_memories fuel s = Ok tt s' -> s' = s.
Proof.
  intros (_ & _ & ([[Hn Hp] _] & _) & _). simpl in Hn, Hp.
  unfold restore_all_freed_memories.
  rewrite (bind_run _ _ _ _ _ (get_next_run _ _ _ Hn)).
  destruct fuel as [|fuel]; [discriminate|].
  cbn [restore_all_loop cptr_eqb]. unfold c_list_init.
  repeat mstep. intros [= <-].
  unfold upd_prev, upd_next. simpl.
  rewrite !insert_id by done. apply state_eta.
Qed.

(** Fields no allocation scan writes *)

Lemma preserves_bind {X A B} (f : state -> X) (m : M A) (k : A -> M B) :
  preserves f m -> (forall a, preserves f (k a)) -> preserves f (bind m k).
Proof.
  intros Hm Hk s. apply partial_bind. eapply partial_mono; [|apply Hm].
  intros a s1 E. cbv beta. eapply partial_mono; [|apply Hk].
  intros b s2 E2. cbv beta in *. congruence.
Qed.

Lemma preserves_ret {X A} (f : state -> X) (a : A) : preserves f (ret a).
Proof. intros s. reflexivity. Qed.

Ltac pres_prim :=
  let s := fresh "s" in
  intros s;
  unfold get_next, get_prev, set_next, set_prev, get_start_page, get_pages,
    get_size, get_count, get_slab_index, set_start_page, set_pages, set_size,
    set_count, set_slab_index, page_field, set_page_field, get_meta, set_meta,
    ptr_to_page, page_to_ptr, record_at, address_of, of_option, ret, undef,
    timeout, FM_ABORT;
  repeat case_match; simpl; done.

Ltac pres :=
  repeat first
    [ apply preserves_ret
    | apply preserves_bind; [|intros ?]
    | progress cbv beta iota
    | match goal with
      | |- preserves _ (if ?b then _ else _) => destruct b
      | |- preserves _ (match ?x with _ => _ end) => destruct x
      end
    | assumption
    | pres_prim ].

Section Preserves.
Context {X : Type} (f : state -> X).
Hypothesis f_next : forall p v s, f (upd_next p v s) = f s.
Hypothesis f_prev : forall p v s, f (upd_prev p v s) = f s.
Hypothesis f_start : forall n v s, f (upd_start_page n v s) = f s.
Hypothesis f_pages : forall n v s, f (upd_pages n v s) = f s.

Lemma preserves_get_next p : preserves f (get_next p).
Proof. pres_prim. Qed.
Lemma preserves_get_prev p : preserves f (get_prev p).
Proof. pres_prim. Qed.
Lemma preserves_get_start_page p : preserves f (get_start_page p).
Proof. pres_prim. Qed.
Lemma preserves_get_pages p : preserves f (get_pages p).
Proof. pres_prim. Qed.
Lemma preserves_set_next p v : preserves f (set_next p v).
Proof. intros s. apply f_next. Qed.
Lemma preserves_set_prev p v : preserves f (set_prev p v).
Proof. intros s. apply f_prev. Qed.
Lemma preserves_set_start_page p v : preserves f (set_start_page p v).
Proof. intros s. destruct p; try exact I. apply f_start. Qed.
Lemma preserves_set_pages p v : preserves f (set_pages p v).
Proof. intros s. destruct p; try exact I. apply f_pages. Qed.
Lemma preserves_page_to_ptr n : preserves f (page_to_ptr n).
Proof. pres_prim. Qed.
Lemma preserves_record_at a : preserves f (record_at a).
Proof. pres_prim. Qed.

Hint Resolve preserves_get_next preserves_get_prev preserves_get_start_page
  preserves_get_pages preserves_set_next preserves_set_prev
  preserves_set_start_page preserves_set_pages preserves_page_to_ptr
  preserves_record_at : core.

Ltac links :=
  repeat first
    [ apply preserves_ret
    | apply preserves_bind; [|intros ?]
    | progress cbv beta iota
    | match goal with
      | |- preserves _ (if ?b then _ else _) => destruct b
      end
    | solve [auto] ].

Lemma preserves_c_list_unlink p : preserves f (c_list_unlink p).
Proof.
  unfold c_list_unlink, c_list_is_linked, c_list_unlink_stale, c_list_init.
  links.
Qed.

Lemma preserves_move_region p : preserves f (move_region p).
Proof. unfold move_region. links. Qed.

Hint Resolve preserves_c_list_unlink preserves_move_region : core.

Lemma preserves_carve_front p n : preserves f (carve_front p n).
Proof. unfold carve_front. links. Qed.

Hint Resolve preserves_carve_front : core.

Lemma preserves_alloc_free_pages_loop fuel n : forall p,
  preserves f (alloc_free_pages_loop fuel n p).
Proof.
  induction fuel as [|fuel IH]; intros p; [intros s; exact I|].
  cbn [alloc_free_pages_loop]. links.
Qed.

Lemma preserves_alloc_free_pages_reverse_loop fuel n : forall p,
  preserves f (alloc_free_pages_reverse_loop fuel n p).
Proof.
  induction fuel as [|fuel IH]; intros p; [intros s; exact I|].
  cbn [alloc_free_pages_reverse_loop]. links.
Qed.

Lemma preserves_alloc_designated_loop fuel st n : forall p,
  preserves f (alloc_designated_loop fuel st n p).
Proof.
  induction fuel as [|fuel IH]; intros p; [intros s; exact I|].
  cbn [alloc_designated_loop]. links.
Qed.

Lemma preserves_alloc fuel n t : preserves f (alloc fuel n t).
Proof.
  unfold alloc, alloc_free_pages, alloc_free_pages_reverse.
  pose proof (preserves_alloc_free_pages_loop fuel n).
  pose proof (preserves_alloc_free_pages_reverse_loop fuel n).
  links.
Qed.

End Preserves.

Lemma alloc_buffer fuel n t : preserves buffer_start (alloc fuel n t).
Proof. by apply preserves_alloc. Qed.

Lemma free_rep_unlinked N s L1 r L2 :
  free_rep N s (L1 ++ r :: L2) ->
  free_rep N (unlinked (List.last (nodes L1) free_regions) (page_ptr r.1)
                (hd free_regions (nodes L2)) s)
    (L1 ++ L2).
Proof.
  intros (Hd & Hh & Hr).
  apply Forall_app in Hh as [Hh1 [_ Hh2]%Forall_cons].
  apply Forall_app in Hr as [Hr1 [_ Hr2]%Forall_cons].
  split; [|split].
  - rewrite nodes_app. apply dll_unlinked.
    rewrite nodes_app, nodes_cons in Hd. exact Hd.
  - apply Forall_app. split; [exact Hh1|exact Hh2].
  - apply Forall_app. split; [exact Hr1|exact Hr2].
Qed.

(** ** Frames that tell links from words; the slab layer *)

Lemma frame_sframe K s s' : frame K s s' <-> sframe K K s s'.
Proof. reflexivity. Qed.

Lemma sframe_refl KL KW s : sframe KL KW s s.
Proof. unfold sframe. naive_solver. Qed.

Lemma sframe_trans KL KW s1 s2 s3 :
  sframe KL KW s1 s2 -> sframe KL KW s2 s3 -> sframe KL KW s1 s3.
Proof.
  unfold sframe. intros (A1 & A2 & A3 & A4 & A5 & A6 & A7)
    (B1 & B2 & B3 & B4 & B5 & B6 & B7).
  repeat split; try congruence.
  - rewrite (proj1 (B6 q H)). apply A6, H.
  - rewrite (proj2 (B6 q H)). apply A6, H.
  - rewrite (proj1 (B7 n H)). apply A7, H.
  - rewrite (proj2 (B7 n H)). apply A7, H.
Qed.

Lemma sframe_mono KL KW KL' KW' s s' :
  KL ⊆ KL' -> KW ⊆ KW' -> sframe KL KW s s' -> sframe KL' KW' s s'.
Proof.
  unfold sframe. intros HL HW (A1 & A2 & A3 & A4 & A5 & A6 & A7).
  repeat split; try done; try (apply A6; set_solver); apply A7; set_solver.
Qed.

Lemma sframe_frame KL KW s s' : sframe KL KW s s' -> frame (KL ++ KW) s s'.
Proof.
  intros H. apply frame_sframe. eapply sframe_mono; [| |exact H]; set_solver.
Qed.

Lemma sframe_upd_next KL KW s s' p v :
  p ∈ KL -> sframe KL KW s s' -> sframe KL KW s (upd_next p v s').
Proof.
  unfold sframe. st_simpl. intros Hp (A1 & A2 & A3 & A4 & A5 & A6 & A7).
  repeat split; try done; try (apply A6; done); try (apply A7; done).
  rewrite lookup_insert_ne by (intros ->; done). by apply A6.
Qed.

Lemma sframe_upd_prev KL KW s s' p v :
  p ∈ KL -> sframe KL KW s s' -> sframe KL KW s (upd_prev p v s').
Proof.
  unfold sframe. st_simpl. intros Hp (A1 & A2 & A3 & A4 & A5 & A6 & A7).
  repeat split; try done; try (apply A6; done); try (apply A7; done).
  rewrite lookup_insert_ne by (intros ->; done). by apply A6.
Qed.

Lemma sframe_upd_start_page KL KW s s' n v :
  page_ptr n ∈ KW -> sframe KL KW s s' -> sframe KL KW s (upd_start_page n v s').
Proof.
  unfold sframe. st_simpl. intros Hp (A1 & A2 & A3 & A4 & A5 & A6 & A7).
  repeat split; try done; try (apply A6; done); try (apply A7; done).
  rewrite lookup_insert_ne by (intros ->; done). by apply A7.
Qed.

Lemma sframe_upd_pages KL KW s s' n v :
  page_ptr n ∈ KW -> sframe KL KW s s' -> sframe KL KW s (upd_pages n v s').
Proof.
  unfold sframe. st_simpl. intros Hp (A1 & A2 & A3 & A4 & A5 & A6 & A7).
  repeat split; try done; try (apply A6; done); try (apply A7; done).
  rewrite lookup_insert_ne by (intros ->; done). by apply A7.
Qed.

Ltac solve_sframe :=
  repeat first [ apply sframe_refl
               | apply sframe_upd_next; [mem|]
               | apply sframe_upd_prev; [mem|]
               | apply sframe_upd_start_page; [mem|]
               | apply sframe_upd_pages; [mem|] ].

Lemma dll_frame K s s' h l :
  frame K s s' -> (forall q, q ∈ h :: l -> q ∉ K) ->
  dll (c_next s) (c_prev s) h l -> dll (c_next s') (c_prev s') h l.
Proof.
  intros (_ & _ & _ & _ & _ & Hl & _) HK [Hc Hnd]. split; [|done].
  eapply chain_frame; [| |exact Hc].
  - intros q Hq. apply Hl, HK. done.
  - intros q Hq. apply Hl, HK. set_solver.
Qed.

Lemma ptr_to_page_of_page (s : state) (n : Z) :
  0 <= n < 2 ^ 52 ->
  ptr_to_page (wrap (buffer_start s + wrap (n * FM_PAGE_SIZE))) s = Ok n s.
Proof.
  intros Hn. unfold ptr_to_page. f_equal.
  assert (E : wrap (wrap (buffer_start s + wrap (n * FM_PAGE_SIZE))
                    - buffer_start s) = n * 4096).
  { unfold wrap. change FM_PAGE_SIZE with 4096.
    rewrite Zminus_mod_idemp_l. rewrite Z.add_comm. rewrite <- Z.add_sub_assoc.
    rewrite Z.add_comm.
    replace (buffer_start s - buffer_start s) with 0 by lia. rewrite Z.add_0_l.
    rewrite Z.mod_mod by lia. apply Z.mod_small. lia. }
  rewrite E. change FM_PAGE_SIZE with 4096. apply Z.div_mul. lia.
Qed.

Lemma fetch_alloced_pages_small s n k :
  0 <= n < META_ENTRIES -> meta_pages s !! n = Some k -> k < 255 ->
  fetch_alloced_pages n s = Ok k s.
Proof.
  intros Hn Hk Hlt. unfold fetch_alloced_pages, bind, get_meta, in_table.
  destruct (Z.leb_spec 0 n); [|lia]. destruct (Z.ltb_spec n META_ENTRIES); [|lia].
  simpl. rewrite Hk. simpl. destruct (Z.ltb_spec k 255); [|lia]. reflexivity.
Qed.

Lemma fm_lm_free_run s D (x k : Z) :
  dll (c_next s) (c_prev s) freed_memories D ->
  0 <= x < META_ENTRIES -> meta_pages s !! x = Some k -> k < 255 ->
  fm_lm_free (wrap (buffer_start s + wrap (x * FM_PAGE_SIZE))) s
  = Ok tt (linked (List.last D freed_memories) (page_ptr x) freed_memories
             (upd_pages x k (upd_start_page x x s))).
Proof.
  intros Hd Hx Hk Hlt. unfold fm_lm_free.
  assert (Hx' : 0 <= x < 2 ^ 52) by (unfold META_ENTRIES in Hx; lia).
  erewrite bind_run; [|by apply ptr_to_page_of_page]. cbv beta.
  erewrite bind_run; [|by apply fetch_alloced_pages_small]. cbv beta.
  erewrite bind_run; [|by apply record_at_page]. cbv beta.
  mstep. mstep. unfold c_list_link_tail.
  apply (c_list_link_before_run _ freed_memories D [] (page_ptr x)).
  rewrite app_nil_r. exact Hd.
Qed.

(** Slab pages *)

Lemma bitmap_all_cleared_partial s n :
  partial (bitmap_all_cleared (page_ptr n) s)
    (fun c s' => c = cleared s n /\ s' = s).
Proof.
  unfold bitmap_all_cleared, get_bitmap, bind, get_start_page, get_pages,
    page_field, cleared. simpl.
  destruct (start_page s !! n) as [b0|] eqn:E0; simpl; [|done].
  destruct (Z.eqb_spec b0 0) as [->|Hb0].
  - destruct (pages s !! n) as [b1|] eqn:E1; simpl; [|done].
    split; [|done]. destruct (Z.eqb_spec b1 0) as [->|Hb1].
    + symmetry. apply bool_decide_eq_true_2. done.
    + symmetry. apply bool_decide_eq_false_2. intros [_ [= ?]]. done.
  - simpl. split; [|done]. symmetry. apply bool_decide_eq_false_2.
    intros [[= ?] _]. done.
Qed.

Lemma elem_of_pages (x : Z) (S : list Z) : page_ptr x ∈ page_ptr <$> S <-> x ∈ S.
Proof.
  rewrite list_elem_of_fmap. split.
  - intros (y & [= ->] & H). done.
  - intros H. by exists x.
Qed.

Lemma head_not_in_pages (h : cptr) (S : list Z) :
  (forall n, h ≠ page_ptr n) -> h ∉ page_ptr <$> S.
Proof. intros Hh (y & -> & _)%list_elem_of_fmap. by apply (Hh y). Qed.

Lemma head_not_in_nodes (h : cptr) L :
  (forall n, h ≠ page_ptr n) -> h ∉ nodes L.
Proof. intros Hh (y & -> & _)%list_elem_of_fmap. by apply (Hh y.1). Qed.

Lemma NoDup_pages (S : list Z) : NoDup (page_ptr <$> S) <-> NoDup S.
Proof. apply NoDup_fmap. intros a b. congruence. Qed.

Lemma deferred_rep_frame N K s s' D :
  frame K s s' -> (forall q, q ∈ freed_memories :: nodes D -> q ∉ K) ->
  deferred_rep N s D -> deferred_rep N s' D.
Proof.
  intros Hf HK (Hd & Hh & Hr).
  split; [|split]; [by eapply dll_frame| |done].
  eapply Forall_holds_frame; [exact Hf| |exact Hh].
  intros r Hr'. apply HK. apply elem_of_cons. right.
  unfold nodes. by apply (list_elem_of_fmap_2 (fun r => page_ptr r.1)).
Qed.

Lemma deferred_rep_linked N s D fa fn :
  deferred_rep N s D ->
  holds s (fa, fn) -> 1 <= fa < N -> fa ∉ D.*1 ->
  deferred_rep N (linked (List.last (nodes D) freed_memories) (page_ptr fa)
                    freed_memories s)
    (D ++ [(fa, fn)]).
Proof.
  intros (Hd & Hh & Hr) Hf Hfr Hfa.
  split; [|split].
  - rewrite nodes_snoc. cbn [fst].
    apply (dll_linked s freed_memories (nodes D) [] (page_ptr fa)).
    + by rewrite app_nil_r.
    + rewrite app_nil_r. rewrite not_elem_of_cons, elem_of_nodes. done.
  - apply Forall_app. split; [done|]. by apply Forall_singleton.
  - apply Forall_app. split; [done|]. by apply Forall_singleton.
Qed.

Lemma freed_cons_true c0 x S : c0 x = true -> freed c0 (x :: S) = (x, 1) :: freed c0 S.
Proof. intros H. unfold freed. by rewrite filter_cons_True. Qed.

Lemma freed_cons_false c0 x S : c0 x = false -> freed c0 (x :: S) = freed c0 S.
Proof. intros H. unfold freed. rewrite filter_cons_False; [done|]. by rewrite H. Qed.

Lemma kept_cons_true c0 x S : c0 x = true -> kept c0 (x :: S) = kept c0 S.
Proof. intros H. unfold kept. rewrite filter_cons_False; [done|]. by rewrite H. Qed.

Lemma kept_cons_false c0 x S : c0 x = false -> kept c0 (x :: S) = x :: kept c0 S.
Proof. intros H. unfold kept. by rewrite filter_cons_True. Qed.

Lemma free_empty_slabs_loop_partial N i c0 S2 : forall S1 D s fuel,
  N <= META_ENTRIES ->
  deferred_rep N s D ->
  dll (c_next s) (c_prev s) (slab_lists i) (page_ptr <$> (S1 ++ S2)) ->
  NoDup (D.*1 ++ S1 ++ S2) ->
  Forall (fun n => 1 <= n < N /\ meta_pages s !! n = Some 1 /\
                   cleared s n = c0 n) S2 ->
  partial (free_empty_slabs_loop fuel (slab_lists i)
             (hd (slab_lists i) (page_ptr <$> S2)) s)
    (fun _ s' =>
       deferred_rep N s' (D ++ freed c0 S2) /\
       dll (c_next s') (c_prev s') (slab_lists i)
         (page_ptr <$> (S1 ++ kept c0 S2)) /\
       sframe (freed_memories :: nodes D ++ slab_lists i
                 :: (page_ptr <$> (S1 ++ S2)))
              (nodes (freed c0 S2)) s s').
Proof.
  induction S2 as [|x S2 IH]; intros S1 D s fuel HN Hdef Hdll Hnd Hok.
  - destruct fuel as [|fuel]; [exact I|].
    cbn [free_empty_slabs_loop hd fmap list_fmap].
    rewrite cptr_eqb_refl. simpl. unfold freed, kept. simpl.
    rewrite !app_nil_r in *.
    split; [done|]. split; [done|]. apply sframe_refl.
  - destruct fuel as [|fuel]; [exact I|].
    apply Forall_cons in Hok as [(Hx & Hmx & Hcx) Hok].
    cbn [free_empty_slabs_loop hd fmap list_fmap cptr_eqb].
    pose proof Hdll as [Hc Hnd'].
    rewrite fmap_app in Hc. cbn [fmap list_fmap] in Hc.
    pose proof (chain_mid _ _ _ _ _ _ _ Hc) as [Hnx Hpv].
    mstep.
    apply partial_bind. eapply partial_mono; [|apply bitmap_all_cleared_partial].
    intros c s1 [-> ->]. cbv beta. rewrite Hcx.
    destruct (c0 x) eqn:Hc0.
    + (* the page is empty: unlink it and give it back *)
      rewrite (freed_cons_true _ _ _ Hc0), (kept_cons_true _ _ _ Hc0).
      assert (Hall : NoDup (freed_memories :: slab_lists i :: nodes D ++
                (page_ptr <$> S1) ++ page_ptr x :: (page_ptr <$> S2))).
      { apply NoDup_cons. split.
        { rewrite not_elem_of_cons. split; [done|].
          change (page_ptr x :: (page_ptr <$> S2)) with (page_ptr <$> (x :: S2)).
          rewrite !not_elem_of_app. split; [|split].
          - by apply head_not_in_nodes.
          - by apply head_not_in_pages.
          - by apply head_not_in_pages. }
        apply NoDup_cons. split.
        { change (page_ptr x :: (page_ptr <$> S2)) with (page_ptr <$> (x :: S2)).
          rewrite !not_elem_of_app. split; [|split].
          - by apply head_not_in_nodes.
          - by apply head_not_in_pages.
          - by apply head_not_in_pages. }
        change (page_ptr x :: (page_ptr <$> S2)) with (page_ptr <$> (x :: S2)).
        assert (E : nodes D = page_ptr <$> D.*1).
        { unfold nodes. rewrite <- list_fmap_compose. reflexivity. }
        rewrite E, <- !fmap_app. by apply NoDup_pages. }
      pose proof (last_in_cons (slab_lists i) (page_ptr <$> S1)) as Hp.
      pose proof (hd_in_snoc (slab_lists i) (page_ptr <$> S2)) as Hn.
      pose proof (last_in_cons freed_memories (nodes D)) as Hl.
      assert (Hdll1 : dll (c_next s) (c_prev s) (slab_lists i)
                ((page_ptr <$> S1) ++ page_ptr x :: (page_ptr <$> S2))).
      { rewrite fmap_app in Hdll. exact Hdll. }
      mstep by (apply (c_list_unlink_run _ (slab_lists i) (page_ptr <$> S1)
                         (page_ptr x) (page_ptr <$> S2)); exact Hdll1).
      pose proof (dll_unlinked _ _ _ _ _ Hdll1) as Hdll2.
      set (p := List.last (page_ptr <$> S1) (slab_lists i)) in *.
      set (n := hd (slab_lists i) (page_ptr <$> S2)) in *.
      set (l := List.last (nodes D) freed_memories) in *.
      set (s1 := unlinked p (page_ptr x) n s) in *.
      assert (Hf1 : frame [p; page_ptr x; n] s s1).
      { subst s1. unfold unlinked. solve_frame. }
      assert (Hdef1 : deferred_rep N s1 D).
      { eapply deferred_rep_frame; [exact Hf1| |exact Hdef].
        clearbody p n l s1. intros q Hq. elem. }
      rewrite bind_assoc. erewrite bind_run; [|reflexivity]. cbv beta.
      pose proof Hdef1 as (Hd1 & _).
      mstep by (apply (fm_lm_free_run s1 (nodes D) x 1);
                [exact Hd1 | lia | exact Hmx | lia]).
      fold l.
      set (s2 := upd_pages x 1 (upd_start_page x x s1)) in *.
      assert (Hf2 : frame [page_ptr x] s1 s2).
      { subst s2. solve_frame. }
      assert (Hdef2 : deferred_rep N s2 D).
      { eapply deferred_rep_frame; [exact Hf2| |exact Hdef1].
        clearbody p n l s1 s2. intros q Hq. elem. }
      assert (HxD : x ∉ D.*1).
      { apply NoDup_app in Hnd as (_ & H & _). intros Hin.
        apply (H x Hin). set_solver. }
      assert (Hh2 : holds s2 (x, 1)).
      { subst s2. unfold holds. st_simpl. lk. done. }
      pose proof (deferred_rep_linked N s2 D x 1 Hdef2 Hh2 Hx HxD) as Hdef3.
      fold l in Hdef3.
      set (s3 := linked l (page_ptr x) freed_memories s2) in *.
      assert (Hf3 : frame [l; page_ptr x; freed_memories] s2 s3).
      { subst s3. unfold linked. solve_frame. }
      assert (Hdll3 : dll (c_next s3) (c_prev s3) (slab_lists i)
                (page_ptr <$> (S1 ++ S2))).
      { rewrite fmap_app.
        eapply (dll_frame [l; page_ptr x; freed_memories]); [|  |exact Hdll2].
        - eapply frame_trans; [|exact Hf3].
          eapply frame_mono; [|exact Hf2]. set_solver.
        - clearbody p n l s1 s2 s3. intros q Hq. elem. }
      eapply partial_mono; [|apply (IH S1 (D ++ [(x, 1)]) s3 fuel HN Hdef3 Hdll3)].
      * intros u s' (H1 & H2 & H3). rewrite <- app_assoc in H1.
        split; [exact H1|]. split; [exact H2|].
        eapply sframe_trans; [|eapply sframe_mono; [| |exact H3]].
        -- subst s3 s2 s1. unfold linked, unlinked. clearbody p n l.
           rewrite nodes_cons. cbn [fst]. solve_sframe.
        -- rewrite nodes_snoc. cbn [fst]. rewrite !fmap_app. cbn [fmap list_fmap].
           clear. set_solver.
        -- rewrite nodes_cons. intros q Hq. apply elem_of_cons. by right.
      * rewrite fmap_app. cbn [fmap list_fmap fst].
        rewrite <- app_assoc. cbn [app].
        eapply NoDup_Permutation_proper; [|exact Hnd]. solve_Permutation.
      * apply Forall_forall. intros y Hy.
        pose proof (proj1 (Forall_forall _ _) Hok y Hy) as (Hy1 & Hy2 & Hy3).
        assert (y ≠ x).
        { intros ->. apply NoDup_app in Hnd as (_ & _ & H).
          apply NoDup_app in H as (_ & _ & [H _]%NoDup_cons). done. }
        split; [done|]. split; [exact Hy2|]. rewrite <- Hy3.
        subst s3 s2 s1. unfold cleared, linked, unlinked. st_simpl.
        by rewrite !lookup_insert_ne by done.
    + mstep.
      rewrite (freed_cons_false _ _ _ Hc0), (kept_cons_false _ _ _ Hc0).
      eapply partial_mono; [|apply (IH (S1 ++ [x]) D s fuel HN Hdef)].
      * intros u s' (H1 & H2 & H3). rewrite <- !app_assoc in *.
        cbn [app] in *. done.
      * by rewrite <- app_assoc.
      * by rewrite <- app_assoc.
      * done.
Qed.

Lemma mark_alloced_pages_fields a b :
  preserves (fun s => (buffer_start s, c_next s, c_prev s, start_page s,
                       pages s, m_size s, m_count s, m_slab_index s))
    (mark_alloced_pages a b).
Proof.
  assert (H : forall i v, preserves
            (fun s => (buffer_start s, c_next s, c_prev s, start_page s,
                       pages s, m_size s, m_count s, m_slab_index s))
            (set_meta i v)).
  { intros i v s. unfold set_meta. destruct (in_table i); simpl; done. }
  unfold mark_alloced_pages, set_meta32.
  destruct (b <? 255); [apply H|].
  repeat (apply preserves_bind; [apply H|intros ?]). apply H.
Qed.

Lemma fm_lm_malloc_result N s L D fuel size t :
  lm_inv N s L D ->
  Forall (region_ok N) (L ++ D) ->
  0 < buffer_start s -> buffer_start s + N * FM_PAGE_SIZE < 2 ^ 64 ->
  partial (fm_lm_malloc fuel size t s)
    (fun q s' =>
       buffer_start s' = buffer_start s /\
       (q = NULL \/
        exists page, 1 <= page /\
          page + __fm_roundup size FM_PAGE_SIZE / FM_PAGE_SIZE <= N /\
          q = buffer_start s + page * FM_PAGE_SIZE)).
Proof.
  intros Hinv Hok Hb Hend.
  pose proof Hinv as (HN & Hrep & Hdef & Hnd).
  apply Forall_app in Hok as [HokL HokD].
  unfold fm_lm_malloc.
  set (npages := __fm_roundup size FM_PAGE_SIZE / FM_PAGE_SIZE) in *.
  assert (Hreq : 0 <= npages).
  { subst npages. apply Z.div_pos; [|done]. unfold __fm_roundup, wrap.
    apply Z.mod_pos_bound. done. }
  clearbody npages.
  assert (Hfin : forall p s1, buffer_start s1 = buffer_start s ->
            1 <= p /\ p + npages <= N ->
            partial ((mark_alloced_pages p npages ;; page_to_ptr p) s1)
              (fun q s' => buffer_start s' = buffer_start s /\
                 (q = NULL \/ exists page, 1 <= page /\ page + npages <= N /\
                    q = buffer_start s + page * FM_PAGE_SIZE))).
  { intros p s1 E Hp. apply partial_bind.
    eapply partial_mono; [|apply mark_alloced_pages_fields].
    intros u s2 E2. cbv beta. injection E2 as E2 _. unfold page_to_ptr. simpl.
    split; [congruence|]. right. exists p. split; [lia|]. split; [lia|].
    change FM_PAGE_SIZE with 4096 in *.
    rewrite (wrap_small (p * 4096)) by lia. rewrite wrap_small by lia.
    congruence. }
  apply partial_bind_eq. intros p s1 Hal.
  pose proof (alloc_fail N npages t L s fuel HN Hreq Hrep HokL) as Ha.
  pose proof (alloc_buffer fuel npages t s) as Hab.
  rewrite Hal in Ha, Hab. simpl in Ha, Hab.
  destruct Ha as [(-> & -> & Hnf)|Hp].
  - change (0 =? 0) with true. cbv iota.
    apply partial_bind_eq. intros p2 s3 H2.
    unfold bind at 1 in H2.
    pose proof (restore_all_freed_memories_spec N s L D fuel Hinv) as Hr.
    destruct (restore_all_freed_memories fuel s) as [[] s2| | |] eqn:Hrs;
      try discriminate.
    simpl in Hr. destruct Hr as [Hinv2 Hf2].
    pose proof Hinv2 as (_ & Hrep2 & _).
    pose proof (drain_ok N D L HN HokL HokD) as Hok2.
    pose proof (alloc_fail N npages t _ s2 fuel HN Hreq Hrep2 Hok2) as Ha2.
    pose proof (alloc_buffer fuel npages t s2) as Hab2.
    rewrite H2 in Ha2, Hab2. simpl in Ha2, Hab2.
    destruct Hf2 as (E2 & _).
    destruct Ha2 as [(-> & -> & Hnf2)|Hp2].
    + simpl. split; [done|]. by left.
    + destruct (Z.eqb_spec p2 0) as [|_]; [lia|].
      apply Hfin; [congruence|done].
  - destruct (Z.eqb_spec p 0) as [|_]; [lia|].
    erewrite bind_run; [|reflexivity]. cbv beta.
    destruct (Z.eqb_spec p 0) as [|_]; [lia|].
    apply Hfin; done.
Qed.

Lemma sframe_wframe KL KW s s' : sframe KL KW s s' -> wframe KW s s'.
Proof. unfold sframe, wframe. tauto. Qed.

Lemma frame_wframe K s s' : frame K s s' -> wframe K s s'.
Proof. unfold frame, wframe. tauto. Qed.

Lemma wframe_refl K s : wframe K s s.
Proof. unfold wframe. tauto. Qed.

Lemma wframe_mono K K' s s' : K ⊆ K' -> wframe K s s' -> wframe K' s s'.
Proof.
  unfold wframe. intros HK (A1 & A2 & A3 & A4 & A5 & A6).
  repeat split; try done; apply A6; set_solver.
Qed.

Lemma wframe_trans K s1 s2 s3 :
  wframe K s1 s2 -> wframe K s2 s3 -> wframe K s1 s3.
Proof.
  unfold wframe. intros (A1 & A2 & A3 & A4 & A5 & A6)
    (B1 & B2 & B3 & B4 & B5 & B6).
  repeat split; try congruence.
  - rewrite (proj1 (B6 n H)). apply A6, H.
  - rewrite (proj2 (B6 n H)). apply A6, H.
Qed.

Lemma freed_fst c0 S : (freed c0 S).*1 = filter (fun n => c0 n = true) S.
Proof.
  unfold freed. rewrite <- list_fmap_compose.
  induction (filter _ S) as [|a l IH]; [done|].
  cbn [fmap list_fmap]. f_equal. exact IH.
Qed.

Lemma nodes_freed c0 S :
  nodes (freed c0 S) = page_ptr <$> filter (fun n => c0 n = true) S.
Proof. unfold nodes, freed. by rewrite <- list_fmap_compose. Qed.

Lemma elem_of_kept c0 S n : n ∈ kept c0 S <-> c0 n = false /\ n ∈ S.
Proof. unfold kept. by rewrite list_elem_of_filter. Qed.

Lemma elem_of_freed_fst c0 S n : n ∈ (freed c0 S).*1 <-> c0 n = true /\ n ∈ S.
Proof. rewrite freed_fst. by rewrite list_elem_of_filter. Qed.

Lemma freed_ok N c0 S :
  Forall (fun n => 1 <= n < N) S -> Forall (region_ok N) (freed c0 S).
Proof.
  intros H. unfold freed. apply Forall_fmap. apply Forall_forall.
  intros n [_ Hn]%list_elem_of_filter.
  pose proof (proj1 (Forall_forall _ _) H n Hn) as H'. cbv beta in H'.
  unfold region_ok. simpl. lia.
Qed.

Lemma slab_page_ok_wframe N K s s' n :
  wframe K s s' -> slab_page_ok N s n -> slab_page_ok N s' n.
Proof.
  intros (_ & E1 & E2 & E3 & _) (H1 & H2 & sz & cnt & H3 & H4 & H5).
  split; [done|]. split; [by rewrite E1|]. exists sz, cnt.
  rewrite E2, E3. done.
Qed.

Lemma cleared_wframe K s s' n :
  wframe K s s' -> page_ptr n ∉ K -> cleared s' n = cleared s n.
Proof.
  intros (_ & _ & _ & _ & _ & H) Hn. destruct (H n Hn) as [E1 E2].
  unfold cleared. by rewrite E1, E2.
Qed.

Lemma free_empty_slabs_in_partial N c0 (i : nat) S L D SS s fuel :
  sm_inv N s L D SS -> slabs_cleared c0 s SS -> SS !! i = Some S ->
  partial (free_empty_slabs_in fuel i s)
    (fun _ s' =>
       sm_inv N s' L (D ++ freed c0 S) (<[i := kept c0 S]> SS) /\
       slabs_cleared c0 s' (<[i := kept c0 S]> SS) /\
       wframe (nodes (freed c0 S)) s s').
Proof.
  intros (Hlm & Hok & Hb & Hend & HN & Hlen & Hslab & HdisL & HdisS) Hcl Hi.
  pose proof Hlm as (HN52 & Hrep & Hdef & Hnd).
  destruct (Hslab i S Hi) as [Hdll HSok].
  unfold free_empty_slabs_in.
  pose proof Hdll as [Hc HndS]. pose proof (chain_next _ _ _ _ _ Hc) as Hnx.
  mstep.
  assert (HndS' : NoDup S).
  { apply NoDup_cons in HndS as [_ H]. by apply NoDup_pages. }
  assert (HSD : forall n, n ∈ S -> n ∉ D.*1).
  { intros n Hn HD. apply (HdisL i S n Hi Hn). rewrite fmap_app. set_solver. }
  assert (HSL : forall n, n ∈ S -> n ∉ L.*1).
  { intros n Hn HD. apply (HdisL i S n Hi Hn). rewrite fmap_app. set_solver. }
  eapply partial_mono;
    [|apply (free_empty_slabs_loop_partial N i c0 S [] D s fuel HN Hdef Hdll)].
  - intros u s' (Hdef' & Hdll' & Hsf). cbn [app] in *.
    pose proof (sframe_wframe _ _ _ _ Hsf) as Hwf.
    pose proof (sframe_frame _ _ _ _ Hsf) as Hfr.
    assert (Hfreed : forall q, q ∈ nodes (freed c0 S) -> q ∈ page_ptr <$> S).
    { intros q. rewrite nodes_freed. intros (n & -> & Hn)%list_elem_of_fmap.
      apply list_elem_of_filter in Hn as [_ Hn]. by apply elem_of_pages. }
    split; [|split; [|exact Hwf]].
    + split; [|split; [|split; [|split; [|split; [|split; [|split; [|split]]]]]]].
      * (* lm_inv *)
        split; [done|]. split; [|split; [exact Hdef'|]].
        -- eapply free_rep_frame; [exact Hfr| |exact Hrep].
           intros q Hq HK.
           apply elem_of_app in HK as [HK|HK].
           ++ apply elem_of_cons in HK as [->|HK].
              { apply elem_of_cons in Hq as [|Hq]; [done|].
                by apply head_not_in_nodes in Hq. }
              apply elem_of_app in HK as [HK|HK].
              { apply elem_of_cons in Hq as [->|Hq].
                - by apply head_not_in_nodes in HK.
                - apply list_elem_of_fmap in Hq as (r & -> & Hr).
                  apply elem_of_nodes in HK.
                  rewrite fmap_app in Hnd.
                  apply NoDup_app in Hnd as (_ & H & _).
                  apply (H r.1); [by apply list_elem_of_fmap_2|done]. }
              apply elem_of_cons in HK as [->|HK].
              { apply elem_of_cons in Hq as [|Hq]; [done|].
                by apply head_not_in_nodes in Hq. }
              apply elem_of_cons in Hq as [->|Hq].
              { by apply head_not_in_pages in HK. }
              apply list_elem_of_fmap in Hq as (r & -> & Hr).
              apply elem_of_pages in HK.
              apply (HSL _ HK). by apply list_elem_of_fmap_2.
           ++ apply Hfreed in HK.
              apply elem_of_cons in Hq as [->|Hq].
              { by apply head_not_in_pages in HK. }
              apply list_elem_of_fmap in Hq as (r & -> & Hr).
              apply elem_of_pages in HK.
              apply (HSL _ HK). by apply list_elem_of_fmap_2.
        -- rewrite app_assoc, fmap_app. apply NoDup_app. split; [done|].
           split.
           ++ intros n Hn [_ Hf]%elem_of_freed_fst.
              by apply (HdisL i S n Hi Hf).
           ++ rewrite freed_fst. by apply NoDup_filter.
      * rewrite app_assoc. apply Forall_app. split; [done|].
        apply freed_ok. eapply Forall_impl; [exact HSok|].
        intros n (H & _). exact H.
      * destruct Hwf as (E & _). by rewrite E.
      * destruct Hwf as (E & _). by rewrite E.
      * done.
      * by rewrite length_insert.
      * intros j Sj Hj.
        destruct (decide (j = i)) as [->|Hji].
        -- rewrite list_lookup_insert_eq in Hj
             by (apply lookup_lt_Some in Hi; done).
           injection Hj as <-. split; [exact Hdll'|].
           apply Forall_forall. intros n [_ Hn]%elem_of_kept.
           eapply slab_page_ok_wframe; [exact Hwf|].
           by apply (proj1 (Forall_forall _ _) HSok).
        -- rewrite list_lookup_insert_ne in Hj by done.
           destruct (Hslab j Sj Hj) as [Hdj Hokj]. split.
           ++ eapply dll_frame; [exact Hfr| |exact Hdj].
              intros q Hq HK.
              assert (HqS : q ∉ page_ptr <$> S).
              { apply elem_of_cons in Hq as [->|Hq];
                  [by apply head_not_in_pages|].
                apply list_elem_of_fmap in Hq as (n & -> & Hn).
                rewrite elem_of_pages. intros HnS.
                by apply (HdisS j i Sj S n Hji Hj Hi Hn). }
              apply elem_of_app in HK as [HK|HK]; [|by apply Hfreed in HK].
              apply elem_of_cons in HK as [->|HK].
              { apply elem_of_cons in Hq as [|Hq]; [done|].
                by apply head_not_in_pages in Hq. }
              apply elem_of_app in HK as [HK|HK].
              { apply elem_of_cons in Hq as [->|Hq];
                  [by apply head_not_in_nodes in HK|].
                apply list_elem_of_fmap in Hq as (n & -> & Hn).
                apply elem_of_nodes in HK.
                apply (HdisL j Sj n Hj Hn). rewrite fmap_app. set_solver. }
              apply elem_of_cons in HK as [->|HK]; [|done].
              apply elem_of_cons in Hq as [Hq|Hq]; [congruence|].
              by apply head_not_in_pages in Hq.
           ++ eapply Forall_impl; [exact Hokj|].
              intros n. apply (slab_page_ok_wframe N _ s s' n Hwf).
      * intros j Sj n Hj Hn.
        rewrite app_assoc, fmap_app, not_elem_of_app.
        destruct (decide (j = i)) as [->|Hji].
        -- rewrite list_lookup_insert_eq in Hj
             by (apply lookup_lt_Some in Hi; done).
           injection Hj as <-. apply elem_of_kept in Hn as [Hc0 Hn]. split.
           ++ by apply (HdisL i S n Hi Hn).
           ++ intros [Hc1 _]%elem_of_freed_fst. congruence.
        -- rewrite list_lookup_insert_ne in Hj by done. split.
           ++ by apply (HdisL j Sj n Hj Hn).
           ++ intros [_ HnS]%elem_of_freed_fst.
              by apply (HdisS j i Sj S n Hji Hj Hi Hn).
      * intros j k Sj Sk n Hjk Hj Hk Hn HnK.
        assert (Hsub : forall j Sj, <[i := kept c0 S]> SS !! j = Some Sj ->
                  exists Sj', SS !! j = Some Sj' /\ Sj ⊆ Sj').
        { intros j' Sj' Hj'. destruct (decide (j' = i)) as [->|Hji].
          - rewrite list_lookup_insert_eq in Hj'
              by (apply lookup_lt_Some in Hi; done).
            injection Hj' as <-. exists S. split; [done|].
            intros m [_ Hm]%elem_of_kept. done.
          - rewrite list_lookup_insert_ne in Hj' by done.
            exists Sj'. done. }
        destruct (Hsub j Sj Hj) as (Sj' & Hj' & Hsj).
        destruct (Hsub k Sk Hk) as (Sk' & Hk' & Hsk).
        apply (HdisS j k Sj' Sk' n Hjk Hj' Hk'); [by apply Hsj|by apply Hsk].
    + intros j Sj n Hj Hn.
      assert (Hcn : cleared s n = c0 n /\ (n ∈ S -> c0 n = false)).
      { destruct (decide (j = i)) as [->|Hji].
        - rewrite list_lookup_insert_eq in Hj
            by (apply lookup_lt_Some in Hi; done).
          injection Hj as <-. apply elem_of_kept in Hn as [Hc0 Hn].
          split; [by apply (Hcl i S n Hi Hn)|done].
        - rewrite list_lookup_insert_ne in Hj by done.
          split; [by apply (Hcl j Sj n Hj Hn)|].
          intros HnS. by destruct (HdisS j i Sj S n Hji Hj Hi Hn). }
      destruct Hcn as [E Hcn]. rewrite <- E.
      eapply cleared_wframe; [exact Hwf|].
      rewrite nodes_freed, elem_of_pages.
      intros [Hc1 HnS]%list_elem_of_filter. specialize (Hcn HnS). congruence.
  - cbn [app]. apply NoDup_app. split; [|split; [|done]].
    + rewrite fmap_app in Hnd. by apply NoDup_app in Hnd as (_ & _ & H).
    + intros n HnD HnS. by apply (HSD n HnS).
  - apply Forall_forall. intros n Hn.
    pose proof (proj1 (Forall_forall _ _) HSok n Hn) as (H1 & H2 & _).
    split; [done|]. split; [done|]. by apply (Hcl i S n Hi Hn).
Qed.

Lemma free_empty_slabs_partial N c0 L D SS s fuel :
  sm_inv N s L D SS -> slabs_cleared c0 s SS ->
  partial (free_empty_slabs fuel s)
    (fun _ s' => exists E,
       sm_inv N s' L (D ++ E) (kept c0 <$> SS) /\
       slabs_cleared c0 s' (kept c0 <$> SS) /\
       wframe (nodes E) s s' /\
       forall n, n ∈ E.*1 -> c0 n = true).
Proof.
  intros Hinv Hcl.
  pose proof Hinv as (_ & _ & _ & _ & _ & Hlen & _).
  destruct SS as [|S0 [|S1 [|S2 [|S3 [|S4 [|]]]]]]; try discriminate Hlen.
  unfold free_empty_slabs.
  apply partial_bind. eapply partial_mono;
    [|apply (free_empty_slabs_in_partial N c0 0 S0 L D _ s fuel Hinv Hcl eq_refl)].
  intros u0 s0 (Hinv0 & Hcl0 & Hw0). cbv beta. cbn [list_insert] in *.
  apply partial_bind. eapply partial_mono;
    [|apply (free_empty_slabs_in_partial N c0 1 S1 L _ _ s0 fuel Hinv0 Hcl0 eq_refl)].
  intros u1 s1 (Hinv1 & Hcl1 & Hw1). cbv beta. cbn [list_insert] in *.
  apply partial_bind. eapply partial_mono;
    [|apply (free_empty_slabs_in_partial N c0 2 S2 L _ _ s1 fuel Hinv1 Hcl1 eq_refl)].
  intros u2 s2 (Hinv2 & Hcl2 & Hw2). cbv beta. cbn [list_insert] in *.
  apply partial_bind. eapply partial_mono;
    [|apply (free_empty_slabs_in_partial N c0 3 S3 L _ _ s2 fuel Hinv2 Hcl2 eq_refl)].
  intros u3 s3 (Hinv3 & Hcl3 & Hw3). cbv beta. cbn [list_insert] in *.
  eapply partial_mono;
    [|apply (free_empty_slabs_in_partial N c0 4 S4 L _ _ s3 fuel Hinv3 Hcl3 eq_refl)].
  intros u4 s4 (Hinv4 & Hcl4 & Hw4). cbv beta. cbn [list_insert] in *.
  exists (freed c0 S0 ++ freed c0 S1 ++ freed c0 S2 ++ freed c0 S3 ++ freed c0 S4).
  rewrite <- !app_assoc in Hinv4.
  split; [exact Hinv4|]. split; [exact Hcl4|]. split.
  - rewrite !nodes_app.
    eapply wframe_trans;
      [eapply wframe_mono; [|exact Hw0];
       (intros ? ?; rewrite ?elem_of_app in *; tauto)|].
    eapply wframe_trans;
      [eapply wframe_mono; [|exact Hw1];
       (intros ? ?; rewrite ?elem_of_app in *; tauto)|].
    eapply wframe_trans;
      [eapply wframe_mono; [|exact Hw2];
       (intros ? ?; rewrite ?elem_of_app in *; tauto)|].
    eapply wframe_trans;
      [eapply wframe_mono; [|exact Hw3];
       (intros ? ?; rewrite ?elem_of_app in *; tauto)|].
    eapply wframe_mono; [|exact Hw4].
    intros ? ?. rewrite ?elem_of_app in *. tauto.
  - intros n. rewrite !fmap_app, !elem_of_app, !elem_of_freed_fst. tauto.
Qed.

Lemma ctz_from_ge n : forall i x, i <= ctz_from n i x.
Proof.
  induction n as [|n IH]; intros i x; simpl; [lia|].
  destruct (Z.testbit x i); [lia|]. specialize (IH (i + 1) x). lia.
Qed.

Lemma ctzl_nonneg x : 0 <= ctzl x.
Proof. apply ctz_from_ge. Qed.

Lemma bitmap_next_free_partial s n cnt :
  m_count s !! n = Some cnt ->
  partial (bitmap_next_free (page_ptr n) s)
    (fun idx s' => s' = s /\ (idx = FM_SM_INVALID_SLAB \/ 0 <= idx < cnt)).
Proof.
  intros Hcnt.
  unfold bitmap_next_free, get_bitmap, bind, get_start_page, get_pages,
    get_count, page_field. simpl.
  destruct (start_page s !! n) as [b0|]; simpl; [|done].
  destruct (negb (b0 =? UINT64_MAX)).
  - simpl. rewrite Hcnt. simpl.
    pose proof (ctzl_nonneg (not64 b0)).
    destruct (Z.leb_spec cnt (ctzl (not64 b0))); simpl;
      (split; [done|]); [by left|right; lia].
  - destruct (pages s !! n) as [b1|]; simpl; [|done].
    destruct (negb (b1 =? UINT64_MAX)); simpl; rewrite Hcnt; simpl.
    + pose proof (ctzl_nonneg (not64 b1)).
      destruct (Z.leb_spec cnt (64 + ctzl (not64 b1))); simpl;
        (split; [done|]); [by left|right; lia].
    + destruct (Z.leb_spec cnt FM_SM_INVALID_SLAB); simpl;
        (split; [done|]); [by left|right; unfold FM_SM_INVALID_SLAB in *; lia].
Qed.

Lemma bitmap_set_fields p i : preserves cell_fields (bitmap_set p i).
Proof.
  unfold bitmap_set, get_bitmap, set_bitmap.
  intros s. unfold bind, get_start_page, get_pages, set_start_page, set_pages,
    page_field, set_page_field, undef.
  destruct (i / 64 =? 0); [|destruct (i / 64 =? 1)];
    destruct p as [| |j|n]; simpl; try done.
  - destruct (start_page s !! n); simpl; done.
  - destruct (pages s !! n); simpl; done.
Qed.

Lemma bitmap_all_used_fields p : preserves cell_fields (bitmap_all_used p).
Proof.
  intros s. unfold bitmap_all_used, get_bitmap, bind, get_start_page,
    get_pages, get_count, page_field.
  destruct p as [| |j|n]; simpl; try done.
  destruct (start_page s !! n); simpl; [|done].
  destruct (pages s !! n); simpl; [|done].
  destruct (m_count s !! n); simpl; done.
Qed.

Lemma c_list_unlink_fields p : preserves cell_fields (c_list_unlink p).
Proof. by apply preserves_c_list_unlink. Qed.

Lemma index_to_ptr_in_page N s n sz cnt idx :
  1 <= n < N -> 0 < buffer_start s ->
  buffer_start s + N * FM_PAGE_SIZE < 2 ^ 64 ->
  m_size s !! n = Some sz -> 0 <= sz -> 0 <= idx < cnt ->
  PAGE_META_RESERVED_SIZE + cnt * sz <= FM_PAGE_SIZE ->
  index_to_ptr (page_ptr n) idx s
  = Ok (buffer_start s + n * FM_PAGE_SIZE + PAGE_META_RESERVED_SIZE + idx * sz) s.
Proof.
  intros Hn Hb Hend Hsz Hsz0 Hidx Hfit.
  unfold index_to_ptr, address_of, page_to_ptr, bind, get_size, page_field.
  rewrite Hsz. simpl. unfold ret. f_equal.
  change FM_PAGE_SIZE with 4096 in *. change PAGE_META_RESERVED_SIZE with 64 in *.
  assert (idx * sz <= (cnt - 1) * sz) by nia.
  assert (0 <= idx * sz) by nia.
  rewrite (wrap_small (n * 4096)) by lia.
  rewrite (wrap_small (buffer_start s + n * 4096)) by lia.
  rewrite (wrap_small (idx * sz)) by lia.
  rewrite (wrap_small (buffer_start s + n * 4096 + 64)) by lia.
  apply wrap_small. lia.
Qed.

Lemma sm_scan_loop_partial N i S2 : forall S1 s fuel,
  dll (c_next s) (c_prev s) (slab_lists i) (page_ptr <$> (S1 ++ S2)) ->
  Forall (slab_page_ok N s) S2 ->
  0 < buffer_start s -> buffer_start s + N * FM_PAGE_SIZE < 2 ^ 64 ->
  partial (sm_scan_loop fuel (slab_lists i)
             (hd (slab_lists i) (page_ptr <$> S2)) s)
    (fun r s' => match r with
                 | None => s' = s
                 | Some p => p ≠ NULL
                 end).
Proof.
  induction S2 as [|x S2 IH]; intros S1 s fuel Hdll Hok Hb Hend.
  - destruct fuel as [|fuel]; [exact I|].
    cbn [sm_scan_loop hd fmap list_fmap]. rewrite cptr_eqb_refl. reflexivity.
  - destruct fuel as [|fuel]; [exact I|].
    apply Forall_cons in Hok as [(Hx & Hmx & sz & cnt & Hsz & Hcnt & Hsz0 & Hcnt0 & Hfit) Hok].
    cbn [sm_scan_loop hd fmap list_fmap cptr_eqb].
    apply partial_bind. eapply partial_mono;
      [|apply (bitmap_next_free_partial s x cnt Hcnt)].
    intros idx s0 [-> Hidx]. cbv beta.
    destruct (Z.eqb_spec idx FM_SM_INVALID_SLAB) as [Hinv|Hval]; cbn [negb].
    + pose proof Hdll as [Hc _].
      rewrite fmap_app in Hc. cbn [fmap list_fmap] in Hc.
      pose proof (chain_mid _ _ _ _ _ _ _ Hc) as [Hnx _].
      mstep.
      apply (IH (S1 ++ [x]) s fuel); try done. by rewrite <- app_assoc.
    + destruct Hidx as [|Hidx]; [done|].
      apply partial_bind. eapply partial_mono; [|apply bitmap_set_fields].
      intros u1 s1 E1. cbv beta.
      apply partial_bind. eapply partial_mono; [|apply bitmap_all_used_fields].
      intros full s2 E2. cbv beta.
      apply partial_bind.
      eapply partial_mono with (post := fun _ s3 => cell_fields s3 = cell_fields s2).
      2:{ destruct full; [apply c_list_unlink_fields|reflexivity]. }
      intros u3 s3 E3. cbv beta.
      assert (E : cell_fields s3 = cell_fields s) by congruence.
      injection E as Eb Es.
      erewrite bind_run;
        [|apply (index_to_ptr_in_page N s3 x sz cnt idx); try done;
          try (rewrite Eb; done); by rewrite Es].
      simpl. rewrite Eb. unfold NULL.
      change FM_PAGE_SIZE with 4096 in *.
      change PAGE_META_RESERVED_SIZE with 64 in *.
      assert (0 <= idx * sz) by nia. lia.
Qed.

Lemma drain_starts D : forall L x, x ∈ drain L D -> x.1 ∈ (L ++ D).*1.
Proof.
  induction D as [|d D IH]; intros L x; cbn [drain foldl].
  - rewrite app_nil_r. apply list_elem_of_fmap_2.
  - intros H%IH. rewrite fmap_app in H. apply elem_of_app in H as [H|H].
    + apply list_elem_of_fmap in H as (r & -> & Hr).
      apply restore_region_starts in Hr. rewrite fmap_app, fmap_cons.
      set_solver.
    + rewrite fmap_app, fmap_cons. set_solver.
Qed.

Lemma wframe_drop_head h K s s' :
  (forall n, h ≠ page_ptr n) -> wframe (h :: K) s s' -> wframe K s s'.
Proof.
  unfold wframe. intros Hh (A1 & A2 & A3 & A4 & A5 & A6).
  repeat split; try done; apply A6; rewrite not_elem_of_cons; split; try done;
    apply not_eq_sym, Hh.
Qed.

Lemma fm_lm_malloc_null_restores N s L D fuel size t s' :
  lm_inv N s L D ->
  Forall (region_ok N) (L ++ D) ->
  0 < buffer_start s -> buffer_start s + N * FM_PAGE_SIZE < 2 ^ 64 ->
  fm_lm_malloc fuel size t s = Ok NULL s' ->
  restore_all_freed_memories fuel s = Ok tt s' /\ lm_inv N s' (drain L D) [].
Proof.
  intros Hinv Hok Hb Hend Hrun.
  pose proof Hinv as (HN & Hrep & Hdef & Hnd).
  apply Forall_app in Hok as [HokL HokD].
  unfold fm_lm_malloc in Hrun.
  set (npages := __fm_roundup size FM_PAGE_SIZE / FM_PAGE_SIZE) in *.
  assert (Hreq : 0 <= npages).
  { subst npages. apply Z.div_pos; [|done]. unfold __fm_roundup, wrap.
    apply Z.mod_pos_bound. done. }
  clearbody npages.
  unfold bind at 1 in Hrun. unfold bind at 1 in Hrun.
  pose proof (alloc_fail N npages t L s fuel HN Hreq Hrep HokL) as Ha.
  pose proof (alloc_buffer fuel npages t s) as Hab.
  destruct (alloc fuel npages t s) as [p s1| | |]; try discriminate.
  simpl in Ha, Hab. destruct Ha as [(-> & -> & Hnf)|Hp].
  - change (0 =? 0) with true in Hrun. cbv iota in Hrun.
    unfold bind at 1 in Hrun.
    pose proof (restore_all_freed_memories_spec N s L D fuel Hinv) as Hr.
    destruct (restore_all_freed_memories fuel s) as [[] s2| | |] eqn:Hrs;
      try discriminate.
    simpl in Hr. destruct Hr as [Hinv2 Hf2].
    pose proof Hinv2 as (_ & Hrep2 & _).
    pose proof (drain_ok N D L HN HokL HokD) as Hok2.
    pose proof (alloc_fail N npages t _ s2 fuel HN Hreq Hrep2 Hok2) as Ha2.
    pose proof (alloc_buffer fuel npages t s2) as Hab2.
    destruct (alloc fuel npages t s2) as [p2 s3| | |]; try discriminate.
    simpl in Ha2, Hab2. destruct Ha2 as [(-> & -> & Hnf2)|Hp2].
    + unfold ret in Hrun. injection Hrun as <-. done.
    + exfalso. destruct (Z.eqb_spec p2 0) as [|_]; [lia|].
      pose proof (marked_ptr_not_null N s3 p2 npages HN ltac:(lia)) as Hm.
      rewrite Hrun in Hm. simpl in Hm. apply Hm; [| |done].
      * destruct Hf2 as (E & _). congruence.
      * destruct Hf2 as (E & _). rewrite Hab2, E. done.
  - exfalso. destruct (Z.eqb_spec p 0) as [|_]; [lia|].
    simpl in Hrun. destruct (Z.eqb_spec p 0) as [|_]; [lia|].
    pose proof (marked_ptr_not_null N s1 p npages HN ltac:(lia)) as Hm.
    rewrite Hrun in Hm. simpl in Hm. apply Hm; [| |done]; by rewrite Hab.
Qed.

Lemma fm_lm_malloc_null_sm N c0 L D SS s fuel size t s' :
  sm_inv N s L D SS -> slabs_cleared c0 s SS ->
  fm_lm_malloc fuel size t s = Ok NULL s' ->
  sm_inv N s' (drain L D) [] SS /\ slabs_cleared c0 s' SS /\
  wframe (nodes (L ++ D)) s s'.
Proof.
  intros (Hlm & Hok & Hb & Hend & HN & Hlen & Hslab & HdisL & HdisS) Hcl Hrun.
  pose proof Hlm as (HN52 & _).
  destruct (fm_lm_malloc_null_restores N s L D fuel size t s' Hlm Hok Hb Hend Hrun)
    as (Hra & Hlm').
  pose proof (restore_all_freed_memories_spec N s L D fuel Hlm) as Hsp.
  rewrite Hra in Hsp. simpl in Hsp. destruct Hsp as [_ Hfr].
  pose proof (frame_wframe _ _ _ Hfr) as Hwf.
  apply wframe_drop_head in Hwf; [|done]. apply wframe_drop_head in Hwf; [|done].
  assert (HK : forall i S q, SS !! i = Some S ->
            q ∈ slab_lists i :: (page_ptr <$> S) ->
            q ∉ free_regions :: freed_memories :: nodes (L ++ D)).
  { intros i S q Hi Hq.
    rewrite !not_elem_of_cons.
    apply elem_of_cons in Hq as [->|Hq].
    - split; [done|]. split; [done|]. by apply head_not_in_nodes.
    - apply list_elem_of_fmap in Hq as (n & -> & Hn).
      split; [done|]. split; [done|]. rewrite elem_of_nodes.
      by apply (HdisL i S n Hi Hn). }
  split; [|split; [|exact Hwf]].
  - split; [done|]. split.
    { rewrite app_nil_r. apply Forall_app in Hok as [H1 H2].
      by apply drain_ok. }
    pose proof Hfr as (E & _). rewrite E.
    split; [done|]. split; [done|]. split; [done|]. split; [done|].
    split; [|split; [|done]].
    + intros i S Hi. destruct (Hslab i S Hi) as [Hd Hpo]. split.
      * eapply dll_frame; [exact Hfr| |exact Hd].
        intros q Hq. by apply (HK i S q Hi).
      * eapply Forall_impl; [exact Hpo|]. intros n.
        apply (slab_page_ok_wframe N _ s s' n Hwf).
    + intros i S n Hi Hn. rewrite app_nil_r.
      intros (r & -> & Hr)%list_elem_of_fmap. apply drain_starts in Hr.
      by apply (HdisL i S _ Hi Hn).
  - intros i S n Hi Hn. rewrite <- (Hcl i S n Hi Hn).
    eapply cleared_wframe; [exact Hwf|]. rewrite elem_of_nodes.
    by apply (HdisL i S n Hi Hn).
Qed.

Lemma lm_malloc_null N c0 L D SS s fuel size t s1 :
  sm_inv N s L D SS -> slabs_cleared c0 s SS ->
  lm_malloc fuel size t s = Ok NULL s1 ->
  after_failure N c0 L D SS s s1.
Proof.
  intros Hinv Hcl Hrun. unfold lm_malloc in Hrun. unfold bind at 1 in Hrun.
  destruct (fm_lm_malloc fuel size t s) as [p sa| | |] eqn:H1; try discriminate.
  destruct (Z.eqb_spec p NULL) as [->|Hp].
  2:{ injection Hrun as -> _. done. }
  destruct (fm_lm_malloc_null_sm N c0 L D SS s fuel size t sa Hinv Hcl H1)
    as (Ha & Hca & Hwa).
  unfold bind at 1 in Hrun.
  pose proof (free_empty_slabs_partial N c0 _ _ SS sa fuel Ha Hca) as Hfe.
  destruct (free_empty_slabs fuel sa) as [[] sb| | |]; try discriminate.
  simpl in Hfe. destruct Hfe as (E & Hb & Hcb & Hwb & HE).
  destruct (fm_lm_malloc_null_sm N c0 _ _ _ sb fuel size t s1 Hb Hcb Hrun)
    as (Hc & Hcc & Hwc).
  exists (drain (drain L D) ([] ++ E)), [], (kept c0 <$> SS),
    (nodes (L ++ D) ++ nodes E ++ nodes (drain L D ++ [] ++ E)).
  split; [exact Hc|]. split; [exact Hcc|]. split; [|split; [|by right]].
  - eapply wframe_trans; [eapply wframe_mono; [|exact Hwa]|].
    { intros ? ?; rewrite ?elem_of_app in *; tauto. }
    eapply wframe_trans; [eapply wframe_mono; [|exact Hwb]|].
    { intros ? ?; rewrite ?elem_of_app in *; tauto. }
    eapply wframe_mono; [|exact Hwc].
    intros ? ?; rewrite ?elem_of_app in *; tauto.
  - intros n. rewrite !elem_of_app, !elem_of_nodes. cbn [app].
    rewrite !fmap_app, !elem_of_app.
    intros [H|[H|[H|H]]]; [by left|right; by apply HE| |right; by apply HE].
    left. apply list_elem_of_fmap in H as (r & -> & Hr).
    rewrite <- elem_of_app, <- fmap_app. by apply drain_starts.
Qed.

Lemma slab_index_range size :
  slab_index size = FM_SM_INVALID_SLAB \/ 0 <= slab_index size < 5.
Proof.
  unfold slab_index, slab_sizes. cbn [slab_index_from].
  repeat (destruct (_ <=? _); [right; simpl; lia|]). by left.
Qed.

Lemma record_at_addr (s : state) (n : Z) :
  0 <= n < 2 ^ 52 ->
  record_at (buffer_start s + n * FM_PAGE_SIZE) s = Ok (page_ptr n) s.
Proof.
  intros Hn. unfold record_at.
  replace (buffer_start s + n * FM_PAGE_SIZE - buffer_start s)
    with (n * FM_PAGE_SIZE) by lia.
  change FM_PAGE_SIZE with 4096. rewrite wrap_small by lia.
  rewrite Z.mod_mul by lia. rewrite Z.div_mul by lia. reflexivity.
Qed.

Lemma bitmap_set_buffer p i : preserves buffer_start (bitmap_set p i).
Proof.
  intros s. pose proof (bitmap_set_fields p i s) as H.
  destruct (bitmap_set p i s); simpl in *; try done. by injection H.
Qed.

Ltac step_buffer :=
  cbv beta zeta; apply partial_bind; eapply partial_mono;
  [|match goal with
    | |- partial (?m ?s) _ =>
        let H := fresh in
        first
          [ apply bitmap_set_buffer
          | assert (H : preserves buffer_start m)
              by (unfold set_bitmap, get_bitmap, c_list_link_front,
                    c_list_link_after; pres);
            apply H ]
    end];
  intros ? ? ?; cbv beta in *.

Lemma fresh_slab_not_null N s (head : cptr) (i page : Z) :
  1 <= page -> page + 1 <= N -> N <= 2 ^ 52 ->
  0 < buffer_start s -> buffer_start s + N * FM_PAGE_SIZE < 2 ^ 64 ->
  partial
    ((let* meta := record_at (buffer_start s + page * FM_PAGE_SIZE) in
      set_bitmap meta 0 0 ;;
      set_bitmap meta 1 0 ;;
      let* sz := of_option (slab_sizes !! Z.to_nat i) in
      set_size meta sz ;;
      set_slab_index meta i ;;
      set_count meta ((FM_PAGE_SIZE - PAGE_META_RESERVED_SIZE) / sz) ;;
      c_list_link_front head meta ;;
      let element_index := 0 in
      bitmap_set meta element_index ;;
      index_to_ptr meta element_index) s)
    (fun p _ => p ≠ NULL).
Proof.
  intros Hp1 Hp2 HN Hb Hend.
  erewrite bind_run; [|apply record_at_addr; lia]. cbv beta.
  do 8 step_buffer.
  match goal with |- partial (index_to_ptr _ _ ?sf) _ =>
    assert (E : buffer_start sf = buffer_start s) by congruence end.
  unfold index_to_ptr, address_of, page_to_ptr, bind, get_size, page_field.
  match goal with |- context [m_size ?s' !! page] =>
    destruct (m_size s' !! page) as [sz|]; simpl; [|done] end.
  rewrite E. change FM_PAGE_SIZE with 4096 in *.
  change PAGE_META_RESERVED_SIZE with 64.
  rewrite (wrap_small (page * 4096)) by lia.
  rewrite (wrap_small (buffer_start s + page * 4096)) by lia.
  rewrite (wrap_small (buffer_start s + page * 4096 + 64)) by lia.
  change (0 * sz) with 0. rewrite (wrap_small 0) by lia.
  rewrite wrap_small by lia. unfold NULL. lia.
Qed.

Lemma fm_sm_malloc_null N c0 L D SS s fuel size s1 :
  sm_inv N s L D SS -> slabs_cleared c0 s SS ->
  fm_sm_malloc fuel size s = Ok NULL s1 ->
  after_failure N c0 L D SS s s1.
Proof.
  intros Hinv Hcl Hrun. unfold fm_sm_malloc in Hrun.
  destruct (slab_index_range size) as [Hi|Hi].
  { rewrite Hi in Hrun. simpl in Hrun. by eapply lm_malloc_null. }
  destruct (Z.eqb_spec (slab_index size) FM_SM_INVALID_SLAB) as [E|_].
  { rewrite E in Hi. unfold FM_SM_INVALID_SLAB in Hi. lia. }
  set (i := slab_index size) in *. clearbody i.
  pose proof Hinv as (Hlm & Hok & Hb & Hend & HN & Hlen & Hslab & HdisL & HdisS).
  pose proof Hlm as (HN52 & _).
  unfold slab_list_at in Hrun.
  destruct (Z.leb_spec 0 i); [|lia]. destruct (Z.ltb_spec i 5); [|lia].
  cbn [andb] in Hrun.
  rewrite (bind_run _ _ _ _ _ (eq_refl : ret _ s = Ok _ s)) in Hrun.
  destruct (lookup_lt_is_Some_2 SS (Z.to_nat i) ltac:(lia)) as [S HS].
  destruct (Hslab _ S HS) as [Hdll HSok].
  pose proof Hdll as [Hc _]. apply chain_next in Hc.
  rewrite (bind_run _ _ _ _ _ (get_next_run _ _ _ Hc)) in Hrun.
  unfold bind at 1 in Hrun.
  pose proof (sm_scan_loop_partial N (Z.to_nat i) S [] s fuel Hdll HSok Hb Hend)
    as Hscan.
  destruct (sm_scan_loop fuel _ _ s) as [[p|] s0| | |]; try discriminate.
  { simpl in Hscan. injection Hrun as -> _. done. }
  simpl in Hscan. subst s0.
  unfold bind at 1 in Hrun.
  pose proof (fm_lm_malloc_result N s L D fuel FM_PAGE_SIZE FM_LM_T_PERSISTENT
                Hlm Hok Hb Hend) as Hres.
  destruct (fm_lm_malloc fuel FM_PAGE_SIZE FM_LM_T_PERSISTENT s)
    as [slab s2| | |] eqn:Hm; try discriminate.
  simpl in Hres. destruct Hres as [Eb Hslabv].
  destruct (Z.eqb_spec slab NULL) as [->|Hnn].
  - injection Hrun as <-.
    destruct (fm_lm_malloc_null_sm N c0 L D SS s fuel _ _ s2 Hinv Hcl Hm)
      as (Ha & Hca & Hwa).
    exists (drain L D), [], SS, (nodes (L ++ D)).
    split; [done|]. split; [done|]. split; [done|]. split; [|by left].
    intros n Hn%elem_of_nodes. by left.
  - exfalso. destruct Hslabv as [|(page & Hp1 & Hp2 & ->)]; [done|].
    change (__fm_roundup FM_PAGE_SIZE FM_PAGE_SIZE / FM_PAGE_SIZE) with 1 in Hp2.
    pose proof (fresh_slab_not_null N s2 (slab_lists (Z.to_nat i)) i page
                  Hp1 Hp2 HN52 ltac:(by rewrite Eb) ltac:(by rewrite Eb)) as Hf.
    rewrite Eb in Hf. cbv zeta in Hf, Hrun. rewrite Hrun in Hf. by apply Hf.
Qed.

Lemma bitmap_bit_not_cleared s P idx :
  bitmap_bit s P idx = Some true -> cleared s P = false.
Proof.
  unfold bitmap_bit, get_bitmap, get_start_page, get_pages, page_field, cleared.
  intros H. apply bool_decide_eq_false_2. intros [H0 H1].
  destruct (idx / 64 =? 0); [|destruct (idx / 64 =? 1)]; simpl in H;
    try discriminate; rewrite ?H0, ?H1 in H; simpl in H;
    by rewrite Z.testbit_0_l in H.
Qed.

Lemma bitmap_bit_words s s' P idx :
  start_page s' !! P = start_page s !! P -> pages s' !! P = pages s !! P ->
  bitmap_bit s' P idx = bitmap_bit s P idx.
Proof.
  intros E0 E1.
  unfold bitmap_bit, get_bitmap, get_start_page, get_pages, page_field.
  destruct (idx / 64 =? 0); [|destruct (idx / 64 =? 1)]; simpl; try done;
    rewrite ?E0, ?E1.
  - by destruct (start_page s !! P).
  - by destruct (pages s !! P).
Qed.

(** ** Scenarios on the 128 KiB buffer *)

(** C9.  [fm_lm_realloc(NULL, s, t)] is [fm_lm_malloc(s, t)]: same result
    and same final state, for every size, direction and state. *)
Theorem fm_lm_realloc_null_is_malloc (fuel : nat) (size t : Z) (s : state) :
  fm_lm_realloc fuel NULL size t s = fm_lm_malloc fuel size t s.
Proof. reflexivity. Qed.

(** S1 of the specification, as a check of the model: page 1, then page
    31, and [{2, 29}] is left. *)
Example scenario_S1 :
  let r := then_calls 40 fresh_lm
             [lm_malloc_call 4096 FM_LM_T_TRANSIENT;
              lm_malloc_call 4096 FM_LM_T_PERSISTENT] in
  returned r = Some [page0 1; page0 31] /\
  free_list_of 40 r = Some (Some [(2, 29)]) /\
  deferred_list_of 40 r = Some (Some []).
Proof. repeat split; vm_compute; reflexivity. Qed.

(** C3, as stated, fails: after S1 and the two frees the call does not
    return page 1 with [{3, 29}] left. *)
Lemma scenario_S2_as_specified_fails :
  ~ S2_as_specified 40 (then_calls 40 fresh_lm S1_then_frees).
Proof. intros [H _]. vm_compute in H. discriminate H. Qed.

(** C3, amended.  After S1, [lm_free(p1); lm_free(p2)] only queue
    [{1, 1}] and [{31, 1}] on the deferred list; the first scan of
    [lm_malloc(8192, TRANSIENT)] succeeds on [{2, 29}], so nothing is
    drained: [q] is page 2, the free list is [{4, 27}] and the deferred
    list still holds the two records. *)
Theorem scenario_S2_first_scan_succeeds :
  let before := then_calls 40 fresh_lm S1_then_frees in
  let after := run_then before (fm_lm_malloc 40 8192 FM_LM_T_TRANSIENT) in
  returned before = Some [page0 1; page0 31; 0; 0] /\
  free_list_of 40 before = Some (Some [(2, 29)]) /\
  deferred_list_of 40 before = Some (Some [(1, 1); (31, 1)]) /\
  returned (run_then before (alloc 40 2 FM_LM_T_TRANSIENT)) = Some 2 /\
  same_final after
    (run_then before (alloc 40 2 FM_LM_T_TRANSIENT ;; mark_alloced_pages 2 2))
  = true /\
  returned after = Some (page0 2) /\
  free_list_of 40 after = Some (Some [(4, 27)]) /\
  deferred_list_of 40 after = Some (Some [(1, 1); (31, 1)]).
Proof. repeat split; vm_compute; reflexivity. Qed.

(** C4, as stated, fails: 16 MiB is page-aligned and inside
    [128 KiB, 4 GiB), yet [fm_lm_reinit] aborts. *)
Lemma fm_lm_reinit_16MiB_aborts :
  ~ reinit_as_specified buffer0 (16 * 1024 * 1024) 0 boot_state.
Proof.
  intros [_ H].
  assert (Hr : returned (fm_lm_reinit buffer0 (16 * 1024 * 1024) 0 boot_state)
               = Some 0).
  { apply H. vm_compute. intros [C|[C|C]]; try (apply C; reflexivity).
    apply C. split; [discriminate | reflexivity]. }
  vm_compute in Hr. discriminate Hr.
Qed.

(** C4, amended.  [fm_lm_reinit] of [linear-malloc.c] aborts exactly when
    the buffer address is not 4096-byte aligned, the size is not 4096-byte
    aligned, or the size lies outside [128 KiB, 16 MiB); otherwise it
    returns 0. *)
Theorem fm_lm_reinit_abort_iff (buffer size zero_filled : Z) (s : state) :
  let bad := ~ page_aligned buffer \/ ~ page_aligned size \/
             ~ (128 * 1024 <= size < 16 * 1024 * 1024) in
  (fm_lm_reinit buffer size zero_filled s = Abort <-> bad) /\
  (~ bad -> exists s', fm_lm_reinit buffer size zero_filled s = Ok 0 s').
Proof.
  intros bad. subst bad. unfold page_aligned, fm_lm_reinit.
  destruct (Z.eqb_spec (Z.land buffer (FM_PAGE_SIZE - 1)) 0) as [Hb|Hb];
    cbn [negb].
  2:{ split; [split; [intros _; left; exact Hb | reflexivity]
             | intros H; exfalso; apply H; left; exact Hb]. }
  destruct (Z.eqb_spec (Z.land size (FM_PAGE_SIZE - 1)) 0) as [Hz|Hz];
    cbn [negb].
  2:{ split; [split; [intros _; right; left; exact Hz | reflexivity]
             | intros H; exfalso; apply H; right; left; exact Hz]. }
  destruct (Z.ltb_spec size (128 * 1024)) as [Hl|Hl]; cbn [orb].
  { split; [split; [intros _; right; right; lia | reflexivity]
           | intros H; exfalso; apply H; right; right; lia]. }
  destruct (Z.geb_spec size (16 * 1024 * 1024)) as [Hg|Hg]; cbn [orb].
  { split; [split; [intros _; right; right; lia | reflexivity]
           | intros H; exfalso; apply H; right; right; lia]. }
  unfold bind, set_buffer, set_start_page, set_pages, c_list_init,
    c_list_link_after, bind, set_next, set_prev, get_next, ret; cbn.
  rewrite lookup_insert_eq. cbn.
  split.
  - split; [discriminate|].
    intros [H|[H|H]]; exfalso; try (apply H; assumption); apply H; lia.
  - intros _. eexists; reflexivity.
Qed.

Lemma fm_lm_reinit_abort_iff_witness :
  exists s', fm_lm_reinit buffer0 (128 * 1024) 0 boot_state = Ok 0 s'.
Proof.
  apply (fm_lm_reinit_abort_iff buffer0 (128 * 1024) 0 boot_state).
  intros [H|[H|H]]; apply H; try reflexivity.
  split; [discriminate | reflexivity].
Defined.

(** The bundled single-header build keeps the older bound: there an aligned
    request of 16 MiB is accepted. *)
Lemma fm_lm_reinit_all_h_16MiB :
  returned (fm_lm_reinit_all_h buffer0 (16 * 1024 * 1024) 0 boot_state)
  = Some 0.
Proof. vm_compute. reflexivity. Qed.

(** C2.  In-place extension leaves the metadata stale: after
    [p = lm_malloc(4096, TRANSIENT)] and a successful
    [lm_realloc(p, 8192, TRANSIENT)], which returns [p] and takes page 2
    from the free list, the table still records one page for [p]. *)
Theorem realloc_in_place_leaves_stale_length :
  let r := then_calls 40 fresh_lm
             [lm_malloc_call 4096 FM_LM_T_TRANSIENT;
              lm_realloc_call (page0 1) 8192 FM_LM_T_TRANSIENT] in
  returned r = Some [page0 1; page0 1] /\
  free_list_of 40 r = Some (Some [(3, 29)]) /\
  deferred_list_of 40 r = Some (Some []) /\
  returned (run_then r (fetch_alloced_pages 1)) = Some 1.
Proof. repeat split; vm_compute; reflexivity. Qed.

(** C7.  After the in-place extension of C2 the block at page 1 occupies
    two pages, yet [lm_realloc(p, 8192, TRANSIENT)] does not return [p]:
    it allocates pages 3-4, queues [{1, 1}] on the deferred list and
    rewrites the table. *)
Theorem realloc_after_in_place_extension_moves :
  let before := then_calls 40 fresh_lm
                  [lm_malloc_call 4096 FM_LM_T_TRANSIENT;
                   lm_realloc_call (page0 1) 8192 FM_LM_T_TRANSIENT] in
  let after :=
    run_then before (fm_lm_realloc 40 (page0 1) 8192 FM_LM_T_TRANSIENT) in
  returned before = Some [page0 1; page0 1] /\
  free_list_of 40 before = Some (Some [(3, 29)]) /\
  deferred_list_of 40 before = Some (Some []) /\
  returned after = Some (page0 3) /\
  page0 3 ≠ page0 1 /\
  free_list_of 40 after = Some (Some [(5, 27)]) /\
  deferred_list_of 40 after = Some (Some [(1, 1)]) /\
  observe after meta_pages ≠ observe before meta_pages.
Proof.
  repeat split; try (vm_compute; reflexivity);
    intros H; vm_compute in H; discriminate H.
Qed.

(** C5, as stated, fails: after [p = lm_malloc(4096, TRANSIENT)] and
    [lm_free(p)], a request for 32 pages returns NULL, and the deferred
    record [{1, 1}] has been merged into the free list. *)
Lemma malloc_null_after_drain_changes_lists :
  ~ null_leaves_state 40 (32 * 4096) FM_LM_T_TRANSIENT
      (then_calls 40 fresh_lm
         [lm_malloc_call 4096 FM_LM_T_TRANSIENT; lm_free_call (page0 1)]).
Proof.
  intros H. destruct H as [H _]; [vm_compute; reflexivity|].
  vm_compute in H. discriminate H.
Qed.

(** C6.  Fresh slab-page acquisition is not retried.  With the buffer
    exhausted and an empty class-64 slab page on its list,
    [fm_sm_malloc(32)] finds no class-32 page, fails its linear allocation
    and returns NULL with the empty slab page still on its list; the
    [lm_malloc] wrapper called in the same state with the same request
    ([FM_PAGE_SIZE], PERSISTENT) reclaims that page and returns it, as the
    fallback path [fm_sm_malloc(4096)] does. *)
Theorem fresh_slab_page_failure_not_retried :
  let before := then_calls 40 fresh_sm exhausted_with_empty_slab_calls in
  let after := run_then before (fm_sm_malloc 40 32) in
  observe before (fun s => list_nodes s 40 (slab_lists 0)) = Some (Some []) /\
  observe before (fun s => list_nodes s 40 (slab_lists 1))
  = Some (Some [page_ptr 31]) /\
  returned (run_then before (bitmap_all_cleared (page_ptr 31))) = Some true /\
  free_list_of 40 before = Some (Some []) /\
  deferred_list_of 40 before = Some (Some []) /\
  returned after = Some NULL /\
  observe after (fun s => list_nodes s 40 (slab_lists 1))
  = Some (Some [page_ptr 31]) /\
  returned (run_then before (lm_malloc 40 FM_PAGE_SIZE FM_LM_T_PERSISTENT))
  = Some (page0 31) /\
  returned (run_then before (fm_sm_malloc 40 4096)) = Some (page0 31).
Proof. repeat split; vm_compute; reflexivity. Qed.

(** C10.  A failed [fm_sm_realloc] that clears the bit of the cell it was
    given.  After [aliased_slab_page_calls] the cell [c1], index 1 of the
    slab page 30 of class 1024, is allocated: its bit is set.
    [fm_sm_realloc(c1, 3 * 4096)] calls [fm_sm_malloc(3 * 4096)], which
    returns NULL, and returns NULL itself; the drain made on the way merges
    the deferred record [{29, 1}] into the record that lies over the head
    of page 30, whose first bitmap word goes from 30 to 29, and the bit of
    [c1] is cleared. *)
Theorem failed_realloc_clears_cell_bit :
  let before := then_calls 60 fresh_sm aliased_slab_page_calls in
  let c1 := page0 30 + 64 + 1024 in
  let after := run_then before (fm_sm_realloc 60 c1 (3 * 4096)) in
  returned before
  = Some [page0 1; page0 29; page0 31 + 64; page0 30; page0 30 + 64; c1;
          page0 30 + 64 + 2048; 0; NULL; 0] /\
  returned (run_then before (record_at (__fm_rounddown c1 FM_PAGE_SIZE)))
  = Some (page_ptr 30) /\
  returned (run_then before (ptr_to_index (page_ptr 30) c1)) = Some 1 /\
  returned (run_then before (get_size (page_ptr 30))) = Some 1024 /\
  observe before (fun s => bitmap_bit s 30 1) = Some (Some true) /\
  observe before (fun s => start_page s !! 30) = Some (Some 30) /\
  returned (run_then before (fm_sm_malloc 60 (3 * 4096))) = Some NULL /\
  returned after = Some NULL /\
  observe after (fun s => start_page s !! 30) = Some (Some 29) /\
  observe after (fun s => bitmap_bit s 30 1) = Some (Some false).
Proof. repeat split; vm_compute; reflexivity. Qed.

(** C1.  A drain that leaves the free list out of order.  The calls of
    [zero_size_alias_calls] all return; page 2 is handed out twice, by
    [lm_malloc(0)] and by [lm_malloc(4096)].  In the state they reach,
    [lm_malloc(32 * 4096)] fails its first scan, drains the deferred
    record [{31, 1}] and returns NULL; right after that drain the free
    list is [{3, 27}; {2, 1}; {30, 2}]. *)
Theorem drain_after_zero_size_alias_unsorted :
  let before := then_calls 40 fresh_lm zero_size_alias_calls in
  let drained := run_then before (restore_all_freed_memories 40) in
  let after :=
    run_then before (fm_lm_malloc 40 (32 * 4096) FM_LM_T_TRANSIENT) in
  returned before
  = Some [page0 31; page0 1; page0 2; page0 2; 0; 0; page0 1; 0; 0;
          page0 1; 0] /\
  free_list_of 40 before = Some (Some [(3, 27); (2, 1); (30, 1)]) /\
  deferred_list_of 40 before = Some (Some [(31, 1)]) /\
  returned (run_then before (alloc 40 32 FM_LM_T_TRANSIENT)) = Some 0 /\
  returned after = Some NULL /\
  same_final after drained = true /\
  free_list_of 40 drained = Some (Some [(3, 27); (2, 1); (30, 2)]) /\
  deferred_list_of 40 drained = Some (Some []) /\
  ~ ascending [(3, 27); (2, 1); (30, 2)].
Proof.
  repeat split; try (vm_compute; reflexivity).
  simpl. lia.
Qed.

(** ** Requests of size zero and requests that fail *)




(** C5, amended.  In a state whose two lists are well formed and lie
    inside the buffer, a call of [fm_lm_malloc] that returns NULL has
    drained the deferred list: the final state is the one
    [restore_all_freed_memories] produces, so the table is unchanged, the
    deferred list is empty and the free list holds the regions of both
    lists merged, none of them long enough for the request.  The state is
    exactly as before only when the deferred list was empty. *)
Theorem fm_lm_malloc_null_drained (N : Z) (s : state) (L D : list (Z * Z))
    (fuel : nat) (size t : Z) (s' : state) :
  lm_inv N s L D ->
  Forall (region_ok N) (L ++ D) ->
  0 < buffer_start s -> buffer_start s + N * FM_PAGE_SIZE < 2 ^ 64 ->
  fm_lm_malloc fuel size t s = Ok NULL s' ->
  restore_all_freed_memories fuel s = Ok tt s' /\
  lm_inv N s' (drain L D) [] /\
  meta_pages s' = meta_pages s /\
  Forall (fun r => r.2 < __fm_roundup size FM_PAGE_SIZE / FM_PAGE_SIZE)
    (drain L D) /\
  (D = [] -> s' = s).
Proof.
  intros Hinv Hok Hb Hend Hrun.
  pose proof Hinv as (HN & Hrep & Hdef & Hnd).
  apply Forall_app in Hok as [HokL HokD].
  unfold fm_lm_malloc in Hrun.
  set (npages := __fm_roundup size FM_PAGE_SIZE / FM_PAGE_SIZE) in *.
  assert (Hreq : 0 <= npages).
  { subst npages. apply Z.div_pos; [|done]. unfold __fm_roundup, wrap.
    apply Z.mod_pos_bound. done. }
  clearbody npages.
  unfold bind at 1 in Hrun. unfold bind at 1 in Hrun.
  pose proof (alloc_fail N npages t L s fuel HN Hreq Hrep HokL) as Ha.
  pose proof (alloc_buffer fuel npages t s) as Hab.
  destruct (alloc fuel npages t s) as [p s1| | |]; try discriminate.
  simpl in Ha, Hab. destruct Ha as [(-> & -> & Hnf)|Hp].
  - change (0 =? 0) with true in Hrun. cbv iota in Hrun.
    unfold bind at 1 in Hrun.
    pose proof (restore_all_freed_memories_spec N s L D fuel Hinv) as Hr.
    destruct (restore_all_freed_memories fuel s) as [[] s2| | |] eqn:Hrs;
      try discriminate.
    simpl in Hr. destruct Hr as [Hinv2 Hf2].
    pose proof Hinv2 as (_ & Hrep2 & _).
    pose proof (drain_ok N D L HN HokL HokD) as Hok2.
    pose proof (alloc_fail N npages t _ s2 fuel HN Hreq Hrep2 Hok2) as Ha2.
    pose proof (alloc_buffer fuel npages t s2) as Hab2.
    destruct (alloc fuel npages t s2) as [p2 s3| | |]; try discriminate.
    simpl in Ha2, Hab2. destruct Ha2 as [(-> & -> & Hnf2)|Hp2].
    + unfold ret in Hrun. injection Hrun as <-.
      split; [done|]. split; [done|]. split; [apply Hf2|]. split; [done|].
      intros ->. by eapply restore_all_nothing_deferred.
    + exfalso. destruct (Z.eqb_spec p2 0) as [|_]; [lia|].
      pose proof (marked_ptr_not_null N s3 p2 npages HN ltac:(lia)) as Hm.
      rewrite Hrun in Hm. simpl in Hm. apply Hm; [| |done].
      * destruct Hf2 as (E & _). congruence.
      * destruct Hf2 as (E & _). rewrite Hab2, E. done.
  - exfalso. destruct (Z.eqb_spec p 0) as [|_]; [lia|].
    simpl in Hrun. destruct (Z.eqb_spec p 0) as [|_]; [lia|].
    pose proof (marked_ptr_not_null N s1 p npages HN ltac:(lia)) as Hm.
    rewrite Hrun in Hm. simpl in Hm. apply Hm; [| |done]; by rewrite Hab.
Qed.

Lemma fm_lm_malloc_null_drained_witness :
  let s := state_of (then_calls 40 fresh_lm malloc_then_free) in
  let s' := state_of (fm_lm_malloc 40 (32 * 4096) FM_LM_T_TRANSIENT s) in
  restore_all_freed_memories 40 s = Ok tt s' /\
  lm_inv 32 s' (drain [(2, 30)] [(1, 1)]) [] /\
  meta_pages s' = meta_pages s /\
  Forall (fun r => r.2 < __fm_roundup (32 * 4096) FM_PAGE_SIZE / FM_PAGE_SIZE)
    (drain [(2, 30)] [(1, 1)]) /\
  ([(1, 1)] = [] -> s' = s).
Proof.
  apply (fm_lm_malloc_null_drained 32 _ [(2, 30)] [(1, 1)] 40 (32 * 4096)
           FM_LM_T_TRANSIENT).
  - split; [vm_compute; discriminate|].
    split; [|split].
    + split; [split|split].
      * repeat split; vm_compute; reflexivity.
      * apply (bool_decide_unpack _). vm_compute. reflexivity.
      * repeat constructor; vm_compute; reflexivity.
      * repeat constructor; vm_compute; try reflexivity; discriminate.
    + split; [split|split].
      * repeat split; vm_compute; reflexivity.
      * apply (bool_decide_unpack _). vm_compute. reflexivity.
      * repeat constructor; vm_compute; reflexivity.
      * repeat constructor; vm_compute; try reflexivity; discriminate.
    + apply (bool_decide_unpack _). vm_compute. reflexivity.
  - repeat constructor; vm_compute; try reflexivity; discriminate.
  - vm_compute. reflexivity.
  - vm_compute. reflexivity.
  - vm_compute. reflexivity.
Defined.

(** ** Rounding, addresses and size classes *)

Lemma wrap_land_ones x : wrap x = Z.land x (Z.ones 64).
Proof. unfold wrap. by rewrite Z.land_ones. Qed.

Lemma pow2_le_64 k : 0 <= k < 64 -> 0 < 2 ^ k /\ 2 ^ k * 2 ^ (64 - k) = 2 ^ 64.
Proof.
  intros Hk. split; [apply Z.pow_pos_nonneg; lia|].
  rewrite <- Z.pow_add_r by lia. f_equal. lia.
Qed.

Lemma mod_pow2_mod_pow2 x k :
  0 <= k < 64 -> (x mod 2 ^ 64) mod 2 ^ k = x mod 2 ^ k.
Proof.
  intros Hk. destruct (pow2_le_64 k Hk) as [Hp He].
  rewrite <- He. rewrite Z.rem_mul_r by lia.
  rewrite Z.mul_comm, Z.mod_add by lia. apply Z.mod_mod. lia.
Qed.

Lemma roundup_eq x k :
  0 <= x < 2 ^ 64 -> 0 <= k < 64 ->
  __fm_roundup x (2 ^ k) = wrap (x + (- x) mod 2 ^ k).
Proof.
  intros Hx Hk. destruct (pow2_le_64 k Hk) as [Hp He].
  unfold __fm_roundup. f_equal. f_equal.
  assert (Hlt : 2 ^ k < 2 ^ 64) by (apply Z.pow_lt_mono_r; lia).
  rewrite (wrap_small (2 ^ k - 1)) by lia.
  replace (2 ^ k - 1) with (Z.ones k) by (rewrite Z.ones_equiv; lia).
  rewrite Z.land_ones by lia.
  unfold wrap. rewrite Zplus_mod_idemp_l. rewrite mod_pow2_mod_pow2 by done.
  f_equal. unfold Z.lnot. lia.
Qed.

Lemma roundup_pow2 (x k : Z) :
  0 <= x < 2 ^ 64 -> 0 <= k < 64 ->
  let r := __fm_roundup x (2 ^ k) in
  0 <= r < 2 ^ 64 /\ r mod 2 ^ k = 0 /\
  (x <= 2 ^ 64 - 2 ^ k -> x <= r < x + 2 ^ k) /\
  (2 ^ 64 - 2 ^ k < x -> r = 0).
Proof.
  intros Hx Hk r. subst r. rewrite roundup_eq by done.
  destruct (pow2_le_64 k Hk) as [Hp He].
  pose proof (Z.mod_pos_bound (- x) (2 ^ k) Hp) as Hm.
  assert (Hdiv : (x + (- x) mod 2 ^ k) mod 2 ^ k = 0).
  { rewrite Zplus_mod_idemp_r. replace (x + - x) with 0 by lia.
    apply Z.mod_0_l. lia. }
  split; [apply Z.mod_pos_bound; lia|]. split; [|split].
  - unfold wrap. rewrite mod_pow2_mod_pow2 by done. exact Hdiv.
  - intros Hle. rewrite wrap_small; [lia|]. split; [lia|].
    apply Z.mod_divide in Hdiv as [q Hq]; [|lia].
    assert (q * 2 ^ k < (2 ^ (64 - k) + 1) * 2 ^ k) by lia.
    assert (q < 2 ^ (64 - k) + 1) by (apply Z.mul_lt_mono_pos_r with (2 ^ k); lia).
    assert (q * 2 ^ k <= 2 ^ (64 - k) * 2 ^ k) by (apply Z.mul_le_mono_nonneg_r; lia).
    assert (q * 2 ^ k ≠ 2 ^ 64); [|lia].
    intros E. lia.
  - intros Hgt.
    apply Z.mod_divide in Hdiv as [q Hq]; [|lia].
    assert (2 ^ 64 - 2 ^ k < q * 2 ^ k < 2 ^ 64 + 2 ^ k) by lia.
    assert (q = 2 ^ (64 - k)).
    { assert ((2 ^ (64 - k) - 1) * 2 ^ k < q * 2 ^ k) by lia.
      assert (q * 2 ^ k < (2 ^ (64 - k) + 1) * 2 ^ k) by lia.
      assert (2 ^ (64 - k) - 1 < q) by (apply Z.mul_lt_mono_pos_r with (2 ^ k); lia).
      assert (q < 2 ^ (64 - k) + 1) by (apply Z.mul_lt_mono_pos_r with (2 ^ k); lia).
      lia. }
    rewrite Hq. subst q. rewrite Z.mul_comm, He. unfold wrap.
    apply Z_mod_same_full.
Qed.

(** X12.  [__fm_roundup] with a power of two: the result is a multiple
    of the unit; when [x] is at most [2^64 - 2^k] it is the least multiple
    that is not below [x]; for the larger [x] the sum wraps and the result
    is 0. *)
Theorem fm_roundup_power_of_two (x k : Z) :
  0 <= x < 2 ^ 64 -> 0 <= k < 64 ->
  let r := __fm_roundup x (2 ^ k) in
  0 <= r < 2 ^ 64 /\ r mod 2 ^ k = 0 /\
  (x <= 2 ^ 64 - 2 ^ k -> x <= r < x + 2 ^ k) /\
  (2 ^ 64 - 2 ^ k < x -> r = 0).
Proof. apply roundup_pow2. Qed.

Lemma fm_roundup_power_of_two_witness :
  __fm_roundup 5000 (2 ^ 12) mod 2 ^ 12 = 0 /\
  5000 <= __fm_roundup 5000 (2 ^ 12) < 5000 + 2 ^ 12.
Proof.
  destruct (fm_roundup_power_of_two 5000 12) as (_ & H2 & H3 & _); [lia|lia|].
  split; [exact H2|apply H3; lia].
Defined.

(** X8.  A request of more than [2^64 - 4096] bytes is not refused: its
    size rounds up to 0, so [fm_lm_malloc] does exactly what it does for a
    request of size zero. *)
Theorem fm_lm_malloc_huge_size_is_zero_size (fuel : nat) (size t : Z)
    (s : state) :
  2 ^ 64 - FM_PAGE_SIZE < size < 2 ^ 64 ->
  fm_lm_malloc fuel size t s = fm_lm_malloc fuel 0 t s.
Proof.
  intros Hs. unfold fm_lm_malloc.
  change FM_PAGE_SIZE with (2 ^ 12) in *.
  destruct (roundup_pow2 size 12) as (_ & _ & _ & H); [lia|lia|].
  cbv zeta in H. rewrite H by lia. reflexivity.
Qed.

Lemma fm_lm_malloc_huge_size_is_zero_size_witness :
  fm_lm_malloc 40 (2 ^ 64 - 1) FM_LM_T_TRANSIENT (state_of fresh_lm)
  = fm_lm_malloc 40 0 FM_LM_T_TRANSIENT (state_of fresh_lm).
Proof.
  apply fm_lm_malloc_huge_size_is_zero_size. vm_compute. split; reflexivity.
Defined.

Lemma rounddown_pow2 (x k : Z) :
  0 <= x < 2 ^ 64 -> 0 <= k < 64 ->
  __fm_rounddown x (2 ^ k) = x - x mod 2 ^ k.
Proof.
  intros Hx Hk. destruct (pow2_le_64 k Hk) as [Hp He].
  assert (Hlt : 2 ^ k < 2 ^ 64) by (apply Z.pow_lt_mono_r; lia).
  unfold __fm_rounddown. rewrite (wrap_small (2 ^ k - 1)) by lia.
  replace (2 ^ k - 1) with (Z.ones k) by (rewrite Z.ones_equiv; lia).
  rewrite wrap_land_ones.
  rewrite (Z.land_comm (Z.lnot _)), Z.land_assoc.
  rewrite Z.land_ones by lia. rewrite Z.mod_small by lia.
  rewrite <- Z.ldiff_land.
  rewrite Z.ldiff_ones_r by lia.
  rewrite Z.shiftr_div_pow2, Z.shiftl_mul_pow2 by lia.
  pose proof (Z.div_mod x (2 ^ k)). lia.
Qed.

(** X13.  [__fm_rounddown] with a power of two clears the low bits: the
    result is [x] minus its remainder. *)
Theorem fm_rounddown_power_of_two (x k : Z) :
  0 <= x < 2 ^ 64 -> 0 <= k < 64 ->
  __fm_rounddown x (2 ^ k) = x - x mod 2 ^ k.
Proof. apply rounddown_pow2. Qed.

Lemma fm_rounddown_power_of_two_witness :
  __fm_rounddown 5000 (2 ^ 12) = 5000 - 5000 mod 2 ^ 12.
Proof. apply fm_rounddown_power_of_two; lia. Defined.

Lemma in_table_true i : 0 <= i < META_ENTRIES -> in_table i = true.
Proof.
  intros H. unfold in_table.
  destruct (Z.leb_spec 0 i); [|lia]. destruct (Z.ltb_spec i META_ENTRIES); [|lia].
  done.
Qed.

Lemma set_meta_run i v s :
  0 <= i < META_ENTRIES -> set_meta i v s = Ok tt (upd_meta i v s).
Proof. intros H. unfold set_meta. by rewrite in_table_true. Qed.

Lemma get_meta_run i v s :
  0 <= i < META_ENTRIES -> meta_pages s !! i = Some v -> get_meta i s = Ok v s.
Proof. intros H E. unfold get_meta. by rewrite in_table_true, E. Qed.

Lemma bytes_of_word n :
  0 <= n < 2 ^ 32 ->
  n mod 256 + 256 * (n / 256 mod 256) + 65536 * (n / 65536 mod 256)
  + 16777216 * (n / 16777216 mod 256) = n.
Proof.
  intros Hn.
  pose proof (Z.div_mod n 256 ltac:(lia)).
  pose proof (Z.div_mod (n / 256) 256 ltac:(lia)).
  pose proof (Z.div_mod (n / 65536) 256 ltac:(lia)).
  pose proof (Z.div_mod (n / 16777216) 256 ltac:(lia)).
  assert (n / 256 / 256 = n / 65536) by (rewrite Z.div_div by lia; done).
  assert (n / 65536 / 256 = n / 16777216) by (rewrite Z.div_div by lia; done).
  assert (n / 16777216 / 256 = 0).
  { rewrite Z.div_div by lia. apply Z.div_small. lia. }
  lia.
Qed.

Lemma mark_then_fetch (p n : Z) (s : state) :
  0 <= p < META_ENTRIES -> 0 <= n < 2 ^ 32 ->
  (255 <= n -> p + n <= META_ENTRIES) ->
  exists s',
    mark_alloced_pages p n s = Ok tt s' /\
    fetch_alloced_pages p s' = Ok n s' /\
    (n < 255 -> s' = upd_meta p n s) /\
    (forall i, i < p \/ p + 8 <= i -> meta_pages s' !! i = meta_pages s !! i) /\
    (buffer_start s', c_next s', c_prev s', start_page s', pages s',
     m_size s', m_count s', m_slab_index s')
    = (buffer_start s, c_next s, c_prev s, start_page s, pages s,
       m_size s, m_count s, m_slab_index s).
Proof.
  intros Hp Hn Hfit. unfold mark_alloced_pages, fetch_alloced_pages.
  destruct (Z.ltb_spec n 255) as [Hs|Hl].
  - exists (upd_meta p n s). rewrite Z.mod_small by lia.
    split; [by apply set_meta_run|]. split; [|split; [done|split; [|done]]].
    + erewrite bind_run; [|apply get_meta_run; [done|]; st_simpl;
                            apply lookup_insert_eq].
      cbv beta. destruct (Z.ltb_spec n 255); [done|lia].
    + intros i Hi. st_simpl. rewrite lookup_insert_ne by lia. done.
  - specialize (Hfit Hl). unfold META_ENTRIES in *.
    set (a := __fm_roundup (wrap (p + 1)) 4).
    assert (Ha : p + 1 <= a < p + 5 /\ a mod 4 = 0).
    { subst a. rewrite wrap_small by lia.
      destruct (roundup_pow2 (p + 1) 2) as (_ & H2 & H3 & _);
        [lia|lia|].
      change (2 ^ 2) with 4 in *. split; [|exact H2].
      specialize (H3 ltac:(lia)). lia. }
    destruct Ha as [Ha _]. clearbody a.
    set (v := n mod 2 ^ 32).
    exists (upd_meta (a + 3) (v / 16777216 mod 256)
              (upd_meta (a + 2) (v / 65536 mod 256)
                 (upd_meta (a + 1) (v / 256 mod 256)
                    (upd_meta a (v mod 256) (upd_meta p 255 s))))).
    split; [|split; [|split; [lia|split; [|done]]]].
    + unfold set_meta32.
      repeat (erewrite bind_run;
              [|apply set_meta_run; unfold META_ENTRIES; lia]; cbv beta).
      apply set_meta_run. unfold META_ENTRIES. lia.
    + erewrite bind_run;
        [|apply get_meta_run; [unfold META_ENTRIES; lia|]; st_simpl;
          rewrite !lookup_insert_ne by lia; apply lookup_insert_eq].
      cbv beta. change (255 <? 255) with false. cbv iota.
      unfold get_meta32.
      erewrite bind_run;
        [|apply get_meta_run; [unfold META_ENTRIES; lia|]; st_simpl;
          rewrite !lookup_insert_ne by lia; apply lookup_insert_eq].
      cbv beta.
      erewrite bind_run;
        [|apply get_meta_run; [unfold META_ENTRIES; lia|]; st_simpl;
          rewrite !lookup_insert_ne by lia; apply lookup_insert_eq].
      cbv beta.
      erewrite bind_run;
        [|apply get_meta_run; [unfold META_ENTRIES; lia|]; st_simpl;
          rewrite !lookup_insert_ne by lia; apply lookup_insert_eq].
      cbv beta.
      erewrite bind_run;
        [|apply get_meta_run; [unfold META_ENTRIES; lia|]; st_simpl;
          apply lookup_insert_eq].
      cbv beta. unfold ret. f_equal.
      subst v. rewrite (Z.mod_small n) by lia. by apply bytes_of_word.
    + intros i Hi. st_simpl. rewrite !lookup_insert_ne by lia. done.
Qed.

(** X10.  The table of lengths round trip: after
    [mark_alloced_pages p n], [fetch_alloced_pages p] returns [n], for the
    one-byte form ([n < 255]) and for the form with the marker 255 and a
    32-bit length behind it.  Only the table is written, and only entries
    [p] to [p + 7]; a short length writes the one byte at [p]. *)
Theorem mark_then_fetch_alloced_pages (p n : Z) (s : state) :
  0 <= p < META_ENTRIES -> 0 <= n < 2 ^ 32 ->
  (255 <= n -> p + n <= META_ENTRIES) ->
  exists s',
    mark_alloced_pages p n s = Ok tt s' /\
    fetch_alloced_pages p s' = Ok n s' /\
    (n < 255 -> s' = upd_meta p n s) /\
    (forall i, i < p \/ p + 8 <= i -> meta_pages s' !! i = meta_pages s !! i) /\
    (buffer_start s', c_next s', c_prev s', start_page s', pages s',
     m_size s', m_count s', m_slab_index s')
    = (buffer_start s, c_next s, c_prev s, start_page s, pages s,
       m_size s, m_count s, m_slab_index s).
Proof. apply mark_then_fetch. Qed.

Lemma mark_then_fetch_alloced_pages_witness :
  exists s',
    mark_alloced_pages 1 300 (state_of fresh_lm) = Ok tt s' /\
    fetch_alloced_pages 1 s' = Ok 300 s'.
Proof.
  destruct (mark_then_fetch_alloced_pages 1 300 (state_of fresh_lm))
    as (s' & H1 & H2 & _).
  - vm_compute. split; [discriminate|reflexivity].
  - lia.
  - intros _. vm_compute. discriminate.
  - exists s'. split; [exact H1|exact H2].
Defined.

(** X11.  [ptr_to_page] inverts [page_to_ptr], whatever the address of
    the buffer, and maps every address inside the page to the page. *)
Theorem page_to_ptr_to_page (s : state) (n off : Z) :
  0 <= n < 2 ^ 52 -> 0 <= off < FM_PAGE_SIZE ->
  exists p,
    page_to_ptr n s = Ok p s /\
    ptr_to_page p s = Ok n s /\
    ptr_to_page (wrap (p + off)) s = Ok n s.
Proof.
  intros Hn Hoff. eexists. split; [reflexivity|].
  change FM_PAGE_SIZE with 4096 in *.
  assert (E : forall o, 0 <= o < 4096 ->
            wrap (wrap (wrap (buffer_start s + wrap (n * 4096)) + o)
                  - buffer_start s) = n * 4096 + o).
  { intros o Ho. unfold wrap.
    rewrite Zminus_mod_idemp_l.
    rewrite <- Z.add_sub_assoc, Zplus_mod_idemp_l.
    replace (buffer_start s + (n * 4096) mod 2 ^ 64 + (o - buffer_start s))
      with ((n * 4096) mod 2 ^ 64 + o) by lia.
    rewrite Zplus_mod_idemp_l. apply Z.mod_small. lia. }
  assert (D : forall o, 0 <= o < 4096 -> (n * 4096 + o) / 4096 = n).
  { intros o Ho. rewrite Z.add_comm, Z.div_add by lia.
    rewrite Z.div_small by lia. lia. }
  split.
  - unfold ptr_to_page. f_equal. change FM_PAGE_SIZE with 4096.
    specialize (E 0 ltac:(lia)). rewrite Z.add_0_r in E.
    replace (wrap (wrap (buffer_start s + wrap (n * 4096))))
      with (wrap (buffer_start s + wrap (n * 4096))) in E
      by (unfold wrap; by rewrite Z.mod_mod).
    rewrite E. rewrite <- (D 0) at 2 by lia. done.
  - unfold ptr_to_page. f_equal. change FM_PAGE_SIZE with 4096.
    rewrite E by done. by apply D.
Qed.

Lemma page_to_ptr_to_page_witness :
  exists p,
    page_to_ptr 31 (state_of fresh_lm) = Ok p (state_of fresh_lm) /\
    ptr_to_page p (state_of fresh_lm) = Ok 31 (state_of fresh_lm) /\
    ptr_to_page (wrap (p + 4095)) (state_of fresh_lm)
    = Ok 31 (state_of fresh_lm).
Proof. apply page_to_ptr_to_page; vm_compute; split; congruence. Defined.

(** X15.  [slab_index] returns the least size class that holds the
    request: the class at the index returned is large enough and every
    class before it is too small; above 1024 bytes there is no class and
    the result is [FM_SM_INVALID_SLAB]. *)
Theorem slab_index_least_class (size : Z) :
  (size <= 1024 ->
   exists i sz,
     slab_index size = Z.of_nat i /\ slab_sizes !! i = Some sz /\ size <= sz /\
     forall j sz', (j < i)%nat -> slab_sizes !! j = Some sz' -> sz' < size) /\
  (1024 < size -> slab_index size = FM_SM_INVALID_SLAB).
Proof.
  unfold slab_index, slab_sizes, slab_index_from. split.
  - intros Hle.
    destruct (Z.leb_spec size 32); [exists 0%nat, 32|
    destruct (Z.leb_spec size 64); [exists 1%nat, 64|
    destruct (Z.leb_spec size 128); [exists 2%nat, 128|
    destruct (Z.leb_spec size 512); [exists 3%nat, 512|
    destruct (Z.leb_spec size 1024); [exists 4%nat, 1024|lia]]]]];
    (split; [reflexivity|]; split; [reflexivity|]; split; [done|]);
    intros j sz' Hj Hl;
    repeat (destruct j as [|j]; [injection Hl as <-; lia|]); lia.
  - intros Hgt.
    repeat (match goal with |- context [?a <=? ?b] =>
              destruct (Z.leb_spec a b); [lia|] end).
    reflexivity.
Qed.

(** ** The free list: merging, draining and first fit *)

Lemma spec_run {A} (r : res A) (e : Prop) (post : A -> state -> Prop) :
  spec r e post -> e -> exists a s', r = Ok a s' /\ post a s'.
Proof. destruct r as [a s'| | |]; simpl; try tauto. intros H _. by exists a, s'. Qed.

Lemma merge_from_hd L : forall a, exists n rest, merge_from a L = (a.1, n) :: rest.
Proof.
  induction L as [|b L IH]; intros a; cbn [merge_from].
  - exists a.2, []. by destruct a.
  - destruct (_ =? _).
    + destruct (IH (a.1, wrap (a.2 + b.2))) as (n & rest & E). by exists n, rest.
    + exists a.2, (merge_from b L). by destruct a.
Qed.

Lemma merge_from_coalesced L : forall a, coalesced (merge_from a L).
Proof.
  induction L as [|b L IH]; intros a; cbn [merge_from]; [done|].
  destruct (Z.eqb_spec (wrap (a.1 + a.2)) b.1) as [E|E]; [apply IH|].
  specialize (IH b). destruct (merge_from_hd L b) as (n & rest & Eq).
  rewrite Eq in *. split; [exact E|exact IH].
Qed.

Lemma merge_all_coalesced L : coalesced (merge_all L).
Proof. destruct L as [|a L]; [done|]. apply merge_from_coalesced. Qed.

Lemma merge_from_pages N L : forall a,
  N <= 2 ^ 52 -> region_ok N a -> Forall (region_ok N) L ->
  free_pages (merge_from a L) = a.2 + free_pages L.
Proof.
  induction L as [|b L IH]; intros a HN Ha HL; cbn [merge_from free_pages foldr].
  - reflexivity.
  - apply Forall_cons in HL as [Hb HL].
    destruct Ha as (A1 & A2 & A3). pose proof Hb as (B1 & B2 & B3).
    destruct (Z.eqb_spec (wrap (a.1 + a.2)) b.1) as [E|E].
    + rewrite wrap_small in E by lia.
      rewrite IH; [|done| |done].
      * cbn [fst snd]. rewrite wrap_small by lia. fold (free_pages L). lia.
      * unfold region_ok. cbn [fst snd]. rewrite wrap_small by lia. lia.
    + cbn [free_pages foldr]. fold (free_pages (merge_from b L)).
      rewrite IH by done. fold (free_pages L). lia.
Qed.

Lemma merge_all_pages N L :
  N <= 2 ^ 52 -> Forall (region_ok N) L ->
  free_pages (merge_all L) = free_pages L.
Proof.
  destruct L as [|a L]; [done|]. intros HN [Ha HL]%Forall_cons.
  by apply (merge_from_pages N).
Qed.

(** X1.  [merged_consecutive_pages] returns, given fuel for the length of
    the list, and leaves the free list [merge_all L]: every run of regions
    in which each one ends where the next starts has become one region.  No
    two neighbours of the result touch, the number of free pages is
    unchanged, and nothing outside the records of the list is written. *)
Theorem merged_consecutive_pages_coalesces (N : Z) (L : list (Z * Z))
    (s : state) (fuel : nat) :
  free_rep N s L -> (length L < fuel)%nat ->
  exists s',
    merged_consecutive_pages fuel s = Ok tt s' /\
    free_rep N s' (merge_all L) /\
    coalesced (merge_all L) /\
    (N <= 2 ^ 52 -> Forall (region_ok N) L ->
     free_pages (merge_all L) = free_pages L) /\
    frame (free_regions :: nodes L) s s'.
Proof.
  intros Hrep Hfuel.
  destruct (spec_run _ _ _ (merged_consecutive_pages_spec N L s fuel Hrep) Hfuel)
    as ([] & s' & Hrun & Hrep' & Hf).
  exists s'. split; [done|]. split; [done|].
  split; [apply merge_all_coalesced|]. split; [|done].
  apply merge_all_pages.
Qed.

(** Discharging the representation predicates on a closed state. *)
Ltac closed_rep :=
  split; [split; [repeat split; vm_compute; reflexivity
                 |apply (bool_decide_unpack _); vm_compute; reflexivity]
         |split; [repeat constructor; vm_compute; reflexivity
                 |repeat constructor; vm_compute; try reflexivity;
                  discriminate]].

Ltac closed_lm_inv :=
  split; [vm_compute; discriminate|];
  split; [closed_rep|];
  split; [closed_rep|];
  apply (bool_decide_unpack _); vm_compute; reflexivity.

Lemma merged_consecutive_pages_coalesces_witness :
  exists s',
    merged_consecutive_pages 3 touching_regions = Ok tt s' /\
    free_rep 32 s' [(1, 31)].
Proof.
  destruct (merged_consecutive_pages_coalesces 32 [(1, 1); (2, 30)]
              touching_regions 3) as (s' & H1 & H2 & _).
  - closed_rep.
  - simpl. lia.
  - exists s'. split; [exact H1|exact H2].
Defined.

Lemma free_pages_app A B : free_pages (A ++ B) = free_pages A + free_pages B.
Proof.
  induction A as [|a A IH]; [done|]. cbn [app free_pages foldr].
  fold (free_pages (A ++ B)). fold (free_pages A). lia.
Qed.

Lemma free_pages_cons a A : free_pages (a :: A) = a.2 + free_pages A.
Proof. reflexivity. Qed.

Lemma place_next_pages N f P r L2 :
  N <= 2 ^ 52 -> region_ok N f -> Forall (region_ok N) (P ++ r :: L2) ->
  free_pages (place_next f P r L2) = f.2 + free_pages (P ++ r :: L2).
Proof.
  intros HN Hf H. unfold place_next.
  pose proof H as [HP [Hr HL2]%Forall_cons]%Forall_app.
  pose proof Hf as (F1 & F2 & F3). pose proof Hr as (R1 & R2 & R3).
  destruct (Z.eqb_spec (wrap (f.1 + f.2)) r.1) as [E|E].
  - rewrite wrap_small in E by lia.
    rewrite (merge_all_pages N); [| done |].
    + rewrite !free_pages_app, !free_pages_cons. cbn [fst snd].
      rewrite wrap_small by lia. lia.
    + apply Forall_app. split; [done|]. apply Forall_cons. split; [|done].
      unfold region_ok. cbn [fst snd]. rewrite wrap_small by lia. lia.
  - rewrite !free_pages_app, !free_pages_cons. lia.
Qed.

Lemma restore_scan_pages N f L2 : forall L0 prev,
  N <= 2 ^ 52 -> region_ok N f -> Forall (region_ok N) (passed L0 prev ++ L2) ->
  free_pages (restore_scan f L0 prev L2)
  = f.2 + free_pages (passed L0 prev ++ L2).
Proof.
  induction L2 as [|r L2 IH]; intros L0 prev HN Hf H; cbn [restore_scan].
  - rewrite app_nil_r in *. rewrite (merge_all_pages N); [|done|].
    + rewrite free_pages_app, free_pages_cons. cbn [free_pages foldr]. lia.
    + apply Forall_app. split; [done|]. by apply Forall_singleton.
  - destruct (f.1 <? r.1).
    + unfold place. destruct prev as [p|]; [|by apply (place_next_pages N)].
      destruct (Z.eqb_spec (wrap (p.1 + p.2)) f.1) as [E|E];
        [|by apply (place_next_pages N)].
      unfold passed in *. rewrite <- app_assoc in H. cbn [app] in H.
      pose proof H as [H0 [Hp H2]%Forall_cons]%Forall_app.
      pose proof Hf as (F1 & F2 & F3). pose proof Hp as (P1 & P2 & P3).
      rewrite wrap_small in E by lia.
      rewrite (merge_all_pages N); [|done|].
      * rewrite <- app_assoc. cbn [app].
        rewrite !free_pages_app, !free_pages_cons. cbn [fst snd].
        rewrite wrap_small by lia. lia.
      * apply Forall_app. split; [done|]. apply Forall_cons. split; [|done].
        unfold region_ok. cbn [fst snd]. rewrite wrap_small by lia. lia.
    + rewrite IH; [|done|done|].
      * unfold passed at 1. by rewrite <- app_assoc.
      * unfold passed at 1. by rewrite <- app_assoc.
Qed.

Lemma restore_region_pages N f L :
  N <= 2 ^ 52 -> region_ok N f -> Forall (region_ok N) L ->
  free_pages (restore_region f L) = f.2 + free_pages L.
Proof. intros. by apply (restore_scan_pages N f L [] None). Qed.

Lemma drain_pages N D : forall L,
  N <= 2 ^ 52 -> Forall (region_ok N) L -> Forall (region_ok N) D ->
  free_pages (drain L D) = free_pages L + free_pages D.
Proof.
  induction D as [|d D IH]; intros L HN HL HD.
  - cbn [drain foldl]. change (free_pages []) with 0. lia.
  - apply Forall_cons in HD as [Hd HD]. cbn [drain foldl].
    fold (drain (restore_region d L) D).
    rewrite IH; [|done|by apply restore_region_ok|done].
    rewrite (restore_region_pages N) by done. rewrite free_pages_cons. lia.
Qed.

(** X2.  [restore_all_freed_memories] returns, given enough fuel, with
    the deferred list empty and the free list [drain L D]; the lists stay
    well formed, the free list holds the pages of both lists, and neither
    the table nor the address of the buffer changes. *)
Theorem restore_all_freed_memories_drains (N : Z) (s : state)
    (L D : list (Z * Z)) (fuel : nat) :
  lm_inv N s L D ->
  Forall (region_ok N) (L ++ D) ->
  (2 * length L + 3 * length D + 3 < fuel)%nat ->
  exists s',
    restore_all_freed_memories fuel s = Ok tt s' /\
    lm_inv N s' (drain L D) [] /\
    Forall (region_ok N) (drain L D) /\
    free_pages (drain L D) = free_pages L + free_pages D /\
    meta_pages s' = meta_pages s /\
    buffer_start s' = buffer_start s.
Proof.
  intros Hinv Hok Hfuel. pose proof Hinv as (HN & _).
  apply Forall_app in Hok as [HL HD].
  destruct (spec_run _ _ _ (restore_all_freed_memories_spec N s L D fuel Hinv)
              Hfuel) as ([] & s' & Hrun & Hinv' & Hf).
  exists s'. split; [done|]. split; [done|].
  split; [by apply drain_ok|]. split; [by apply (drain_pages N)|].
  destruct Hf as (E1 & E2 & _). done.
Qed.

Lemma restore_all_freed_memories_drains_witness :
  exists s',
    restore_all_freed_memories 40
      (state_of (then_calls 40 fresh_lm malloc_then_free)) = Ok tt s' /\
    lm_inv 32 s' [(1, 31)] [].
Proof.
  destruct (restore_all_freed_memories_drains 32
              (state_of (then_calls 40 fresh_lm malloc_then_free))
              [(2, 30)] [(1, 1)] 40) as (s' & H1 & H2 & _).
  - closed_lm_inv.
  - repeat constructor; vm_compute; try reflexivity; discriminate.
  - simpl. lia.
  - exists s'. split; [exact H1|exact H2].
Defined.

Lemma ordered_from_app A : forall lo B,
  ordered_from lo (A ++ B)
  <-> ordered_from lo A /\ ordered_from (end_from lo A) B.
Proof.
  induction A as [|a A IH]; intros lo B; cbn [app ordered_from end_from foldl].
  - tauto.
  - fold (end_from (a.1 + a.2) A). rewrite IH. tauto.
Qed.

Lemma ordered_from_weaken L lo lo' :
  lo' <= lo -> ordered_from lo L -> ordered_from lo' L.
Proof. destruct L as [|r L]; [done|]. cbn [ordered_from]. intros ? (? & ? & ?).
  split; [lia|done]. Qed.

Lemma end_from_snoc lo A r : end_from lo (A ++ [r]) = r.1 + r.2.
Proof. unfold end_from. by rewrite foldl_app. Qed.

Lemma covers_app A B x : covers (A ++ B) x <-> covers A x \/ covers B x.
Proof. apply Exists_app. Qed.

Lemma covers_cons a A x :
  covers (a :: A) x <-> a.1 <= x < a.1 + a.2 \/ covers A x.
Proof. apply Exists_cons. Qed.

Lemma covers_nil x : covers [] x <-> False.
Proof. split; [by intros ?%Exists_nil|done]. Qed.

Lemma merge_from_ordered N L : forall a lo,
  N <= 2 ^ 52 -> Forall (region_ok N) (a :: L) ->
  ordered_from lo (a :: L) -> ordered_from lo (merge_from a L).
Proof.
  induction L as [|b L IH]; intros a lo HN Hok Hord; cbn [merge_from]; [done|].
  apply Forall_cons in Hok as [(A1 & A2 & A3) Hok].
  pose proof Hok as [(B1 & B2 & B3) HokL]%Forall_cons.
  destruct Hord as (O1 & O2 & O3 & O4 & O5).
  rewrite wrap_small by lia.
  destruct (Z.eqb_spec (a.1 + a.2) b.1) as [E|E].
  - rewrite wrap_small by lia. apply IH; [done| |].
    + apply Forall_cons. split; [|done]. unfold region_ok. cbn [fst snd]. lia.
    + cbn [ordered_from fst snd]. split; [done|]. split; [lia|].
      replace (a.1 + (a.2 + b.2)) with (b.1 + b.2) by lia. done.
  - cbn [ordered_from]. split; [done|]. split; [done|].
    apply IH; [done|done|]. cbn [ordered_from]. done.
Qed.

Lemma merge_all_ordered N L lo :
  N <= 2 ^ 52 -> Forall (region_ok N) L ->
  ordered_from lo L -> ordered_from lo (merge_all L).
Proof. destruct L as [|a L]; [done|]. apply merge_from_ordered. Qed.

Lemma merge_from_covers N L x : forall a,
  N <= 2 ^ 52 -> Forall (region_ok N) (a :: L) ->
  covers (merge_from a L) x <-> covers (a :: L) x.
Proof.
  induction L as [|b L IH]; intros a HN Hok; cbn [merge_from]; [done|].
  apply Forall_cons in Hok as [(A1 & A2 & A3) Hok].
  pose proof Hok as [(B1 & B2 & B3) HokL]%Forall_cons.
  rewrite wrap_small by lia.
  destruct (Z.eqb_spec (a.1 + a.2) b.1) as [E|E].
  - rewrite wrap_small by lia. rewrite IH; [|done|].
    + rewrite !covers_cons. cbn [fst snd]. split; intros H.
      * destruct H as [H|H]; [|tauto].
        destruct (Z.lt_ge_cases x b.1); [left|right; left]; lia.
      * destruct H as [H|[H|H]]; [left; lia|left; lia|by right].
    + apply Forall_cons. split; [|done]. unfold region_ok. cbn [fst snd]. lia.
  - rewrite covers_cons, IH by done. by rewrite (covers_cons a).
Qed.

Lemma merge_all_covers N L x :
  N <= 2 ^ 52 -> Forall (region_ok N) L ->
  covers (merge_all L) x <-> covers L x.
Proof. destruct L as [|a L]; [done|]. apply merge_from_covers. Qed.

Lemma merged_ok N a b :
  N <= 2 ^ 52 -> region_ok N a -> region_ok N b -> a.1 + a.2 = b.1 ->
  region_ok N (a.1, wrap (a.2 + b.2)) /\ wrap (a.2 + b.2) = a.2 + b.2.
Proof.
  intros HN (A1 & A2 & A3) (B1 & B2 & B3) E.
  rewrite wrap_small by lia. split; [|done].
  unfold region_ok. cbn [fst snd]. lia.
Qed.

Lemma region_ok_wrap N a :
  N <= 2 ^ 52 -> region_ok N a -> wrap (a.1 + a.2) = a.1 + a.2.
Proof. intros HN (A1 & A2 & A3). apply wrap_small. lia. Qed.

Lemma place_next_ordered N f P r L2 lo :
  N <= 2 ^ 52 -> region_ok N f -> Forall (region_ok N) (P ++ r :: L2) ->
  0 < f.2 -> f.1 + f.2 <= r.1 ->
  ordered_from lo (P ++ r :: L2) -> end_from lo P <= f.1 ->
  ordered_from lo (place_next f P r L2).
Proof.
  intros HN Hf Hok Hpos Hbefore Hord Hend. unfold place_next.
  pose proof Hok as [HP [Hr HL2]%Forall_cons]%Forall_app.
  apply ordered_from_app in Hord as (OP & Or1 & Or2 & OL2).
  rewrite (region_ok_wrap N f) by done.
  destruct (Z.eqb_spec (f.1 + f.2) r.1) as [E|E].
  - destruct (merged_ok N f r HN Hf Hr E) as [Hm Hw].
    rewrite (Z.add_comm r.2 f.2).
    apply (merge_all_ordered N); [done| |].
    + apply Forall_app. split; [done|]. by apply Forall_cons.
    + apply ordered_from_app. split; [done|].
      cbn [ordered_from fst snd]. rewrite Hw. split; [done|]. split; [lia|].
      replace (f.1 + (f.2 + r.2)) with (r.1 + r.2) by lia. done.
  - apply ordered_from_app. split; [done|].
    cbn [ordered_from]. split; [done|]. split; [done|].
    split; [lia|]. done.
Qed.

Lemma restore_scan_ordered N f L2 : forall L0 prev lo,
  N <= 2 ^ 52 -> region_ok N f ->
  Forall (region_ok N) (passed L0 prev ++ L2) ->
  0 < f.2 -> Forall (apart f) L2 ->
  ordered_from lo (passed L0 prev ++ L2) ->
  end_from lo (passed L0 prev) <= f.1 ->
  ordered_from lo (restore_scan f L0 prev L2).
Proof.
  induction L2 as [|r L2 IH]; intros L0 prev lo HN Hf Hok Hpos Hap Hord Hend;
    cbn [restore_scan].
  - rewrite app_nil_r in *. apply (merge_all_ordered N); [done| |].
    + apply Forall_app. split; [done|]. by apply Forall_singleton.
    + apply ordered_from_app. split; [done|]. cbn [ordered_from]. done.
  - apply Forall_cons in Hap as [Hr Hap].
    pose proof Hord as (_ & _ & Hrpos & _)%ordered_from_app.
    destruct (Z.ltb_spec f.1 r.1) as [Hlt|Hge].
    + assert (Hbefore : f.1 + f.2 <= r.1) by (destruct Hr; lia).
      unfold place. destruct prev as [p|]; [|by apply (place_next_ordered N)].
      unfold passed in Hok, Hord, Hend.
      pose proof Hok as [[H0 [Hp _]%Forall_cons]%Forall_app
                          [Hrok HL2]%Forall_cons]%Forall_app.
      rewrite (region_ok_wrap N p) by done.
      destruct (Z.eqb_spec (p.1 + p.2) f.1) as [E|E];
        [|by apply (place_next_ordered N)].
      destruct (merged_ok N p f HN Hp Hf E) as [Hm Hw].
      rewrite <- app_assoc in Hord. cbn [app] in Hord.
      apply ordered_from_app in Hord as (O0 & Op1 & Op2 & Or1 & Or2 & OL2).
      apply (merge_all_ordered N); [done| |].
      * apply Forall_app. split; [done|]. apply Forall_cons. split; [done|].
        by apply Forall_cons.
      * apply ordered_from_app. split; [done|].
        cbn [ordered_from fst snd]. rewrite Hw.
        split; [done|]. split; [lia|]. split; [lia|]. done.
    + assert (Hafter : r.1 + r.2 <= f.1) by (destruct Hr; lia).
      apply IH; try done.
      * unfold passed at 1. by rewrite <- app_assoc.
      * unfold passed at 1. by rewrite <- app_assoc.
      * unfold passed at 1. by rewrite end_from_snoc.
Qed.

Lemma coalesced_insert P : forall f r L2,
  coalesced (P ++ r :: L2) ->
  match last P with Some p => wrap (p.1 + p.2) ≠ f.1 | None => True end ->
  wrap (f.1 + f.2) ≠ r.1 ->
  coalesced (P ++ f :: r :: L2).
Proof.
  induction P as [|a P IH]; intros f r L2 Hco Hlast Hnext.
  - cbn [app coalesced] in *. done.
  - destruct P as [|a' P].
    + cbn [app coalesced last] in *. destruct Hco as [_ Hco]. done.
    + cbn [app] in *. destruct Hco as [Ha Hco]. split; [done|].
      apply IH; done.
Qed.

Lemma place_next_coalesced f P r L2 :
  coalesced (P ++ r :: L2) ->
  match last P with Some p => wrap (p.1 + p.2) ≠ f.1 | None => True end ->
  coalesced (place_next f P r L2).
Proof.
  intros Hco Hlast. unfold place_next.
  destruct (Z.eqb_spec (wrap (f.1 + f.2)) r.1) as [E|E].
  - apply merge_all_coalesced.
  - by apply coalesced_insert.
Qed.

Lemma restore_scan_coalesced f L2 : forall L0 prev,
  (prev = None -> L0 = []) ->
  coalesced (passed L0 prev ++ L2) ->
  coalesced (restore_scan f L0 prev L2).
Proof.
  induction L2 as [|r L2 IH]; intros L0 prev Hnone Hco; cbn [restore_scan].
  - apply merge_all_coalesced.
  - destruct (f.1 <? r.1).
    + unfold place. destruct prev as [p|].
      * destruct (Z.eqb_spec (wrap (p.1 + p.2)) f.1) as [E|E];
          [apply merge_all_coalesced|].
        apply place_next_coalesced; [done|].
        unfold passed. by rewrite list.last_snoc.
      * apply place_next_coalesced; [done|].
        rewrite (Hnone eq_refl). done.
    + apply IH; [done|]. unfold passed at 1. by rewrite <- app_assoc.
Qed.

Lemma place_next_covers N f P r L2 x :
  N <= 2 ^ 52 -> region_ok N f -> Forall (region_ok N) (P ++ r :: L2) ->
  covers (place_next f P r L2) x
  <-> f.1 <= x < f.1 + f.2 \/ covers (P ++ r :: L2) x.
Proof.
  intros HN Hf Hok. unfold place_next.
  pose proof Hok as [HP [Hr HL2]%Forall_cons]%Forall_app.
  pose proof Hf as (F1 & F2 & F3). pose proof Hr as (R1 & R2 & R3).
  rewrite (region_ok_wrap N f) by done.
  destruct (Z.eqb_spec (f.1 + f.2) r.1) as [E|E].
  - destruct (merged_ok N f r HN Hf Hr E) as [Hm Hw].
    rewrite (Z.add_comm r.2 f.2).
    rewrite (merge_all_covers N); [|done|].
    + rewrite !covers_app, !covers_cons. cbn [fst snd]. rewrite Hw.
      split; intros H.
      * destruct H as [H|[H|H]]; [tauto| |tauto].
        destruct (Z.lt_ge_cases x r.1); [left; lia|right; right; left; lia].
      * destruct H as [H|[H|[H|H]]]; [right; left; lia|tauto
                                       |right; left; lia|tauto].
    + apply Forall_app. split; [done|]. by apply Forall_cons.
  - rewrite !covers_app, !covers_cons. tauto.
Qed.

Lemma restore_scan_covers N f L2 x : forall L0 prev,
  N <= 2 ^ 52 -> region_ok N f ->
  Forall (region_ok N) (passed L0 prev ++ L2) ->
  covers (restore_scan f L0 prev L2) x
  <-> f.1 <= x < f.1 + f.2 \/ covers (passed L0 prev ++ L2) x.
Proof.
  induction L2 as [|r L2 IH]; intros L0 prev HN Hf Hok; cbn [restore_scan].
  - rewrite app_nil_r in *. rewrite (merge_all_covers N); [|done|].
    + rewrite covers_app, covers_cons, covers_nil. tauto.
    + apply Forall_app. split; [done|]. by apply Forall_singleton.
  - destruct (f.1 <? r.1).
    + unfold place. destruct prev as [p|]; [|by apply (place_next_covers N)].
      unfold passed in Hok.
      pose proof Hok as [[H0 [Hp _]%Forall_cons]%Forall_app
                          [Hrok HL2]%Forall_cons]%Forall_app.
      rewrite (region_ok_wrap N p) by done.
      destruct (Z.eqb_spec (p.1 + p.2) f.1) as [E|E];
        [|by apply (place_next_covers N)].
      destruct (merged_ok N p f HN Hp Hf E) as [Hm Hw].
      pose proof Hf as (F1 & F2 & F3). pose proof Hp as (P1 & P2 & P3).
      rewrite (merge_all_covers N); [|done|].
      * unfold passed. rewrite <- app_assoc. cbn [app].
        rewrite !covers_app, !covers_cons. cbn [fst snd]. rewrite Hw.
        split; intros H.
        -- destruct H as [H|[H|H]]; [tauto| |tauto].
           destruct (Z.lt_ge_cases x f.1); [right; right; left; lia|left; lia].
        -- destruct H as [H|[H|[H|H]]]; [right; left; lia|tauto
                                         |right; left; lia|tauto].
      * apply Forall_app. split; [done|]. apply Forall_cons. split; [done|].
        by apply Forall_cons.
    + rewrite IH; [|done|done|].
      * unfold passed at 1. by rewrite <- app_assoc.
      * unfold passed at 1. by rewrite <- app_assoc.
Qed.

Lemma ordered_from_positive L : forall lo,
  ordered_from lo L -> Forall (fun r => 0 < r.2) L.
Proof.
  induction L as [|r L IH]; intros lo; [done|]. cbn [ordered_from].
  intros (_ & Hr & HL). apply Forall_cons. split; [done|]. by apply (IH _ HL).
Qed.

Lemma apart_of_disjoint f r :
  0 < f.2 -> 0 < r.2 ->
  (forall x, f.1 <= x < f.1 + f.2 -> ~ r.1 <= x < r.1 + r.2) -> apart f r.
Proof.
  intros Hf Hr Hdis. unfold apart.
  destruct (Z.le_gt_cases (r.1 + r.2) f.1) as [|H1]; [by left|].
  destruct (Z.le_gt_cases (f.1 + f.2) r.1) as [|H2]; [by right|].
  exfalso. apply (Hdis (Z.max f.1 r.1)); lia.
Qed.

Lemma restore_region_canonical N f L :
  N <= 2 ^ 52 -> region_ok N f -> Forall (region_ok N) L ->
  0 < f.2 -> ordered_from 1 L -> coalesced L ->
  (forall x, f.1 <= x < f.1 + f.2 -> ~ covers L x) ->
  ordered_from 1 (restore_region f L) /\ coalesced (restore_region f L) /\
  forall x, covers (restore_region f L) x
            <-> f.1 <= x < f.1 + f.2 \/ covers L x.
Proof.
  intros HN Hf Hok Hpos Hord Hco Hdis. unfold restore_region.
  split; [|split].
  - apply (restore_scan_ordered N); try done.
    + pose proof (ordered_from_positive _ _ Hord) as HposL.
      rewrite Forall_forall in HposL. apply Forall_forall. intros r Hr.
      apply apart_of_disjoint; [done|by apply HposL|].
      intros x Hx Hx'. apply (Hdis x Hx). apply Exists_exists. by exists r.
    + cbn. destruct Hf. lia.
  - by apply restore_scan_coalesced.
  - intros x. by apply (restore_scan_covers N).
Qed.

Lemma drain_canonical N D : forall L,
  N <= 2 ^ 52 -> Forall (region_ok N) L -> Forall (region_ok N) D ->
  Forall (fun d => 0 < d.2) D ->
  ordered_from 1 L -> coalesced L -> disjoint_regions D ->
  (forall x, covers D x -> ~ covers L x) ->
  ordered_from 1 (drain L D) /\ coalesced (drain L D) /\
  forall x, covers (drain L D) x <-> covers L x \/ covers D x.
Proof.
  induction D as [|d D IH]; intros L HN HokL HokD Hpos Hord Hco Hdis HLD.
  - cbn [drain foldl]. split; [done|]. split; [done|].
    intros x. rewrite covers_nil. tauto.
  - apply Forall_cons in HokD as [Hd HokD].
    apply Forall_cons in Hpos as [Hdpos Hpos].
    destruct Hdis as [HdD Hdis].
    destruct (restore_region_canonical N d L) as (O1 & C1 & V1); try done.
    { intros x Hx Hc. apply (HLD x); [|done]. apply covers_cons. by left. }
    cbn [drain foldl]. fold (drain (restore_region d L) D).
    destruct (IH (restore_region d L)) as (O2 & C2 & V2); try done.
    { by apply restore_region_ok. }
    { intros x Hx [Hc|Hc]%V1.
      - by apply (HdD x).
      - apply (HLD x); [|done]. apply covers_cons. by right. }
    split; [done|]. split; [done|].
    intros x. rewrite V2, V1, covers_cons. tauto.
Qed.

(** X3.  Draining keeps the free list in order.  When the free list is
    in ascending order without overlap and without touching neighbours, and
    the deferred regions are not empty and share no page with each other or
    with the free list, then after [restore_all_freed_memories] the free
    list is again in ascending order, without overlap and without touching
    neighbours, and it covers exactly the pages that were free or
    deferred. *)
Theorem restore_all_freed_memories_keeps_order (N : Z) (s : state)
    (L D : list (Z * Z)) (fuel : nat) :
  lm_inv N s L D ->
  Forall (region_ok N) (L ++ D) ->
  ordered_from 1 L -> coalesced L ->
  Forall (fun d => 0 < d.2) D -> disjoint_regions D ->
  (forall x, covers D x -> ~ covers L x) ->
  (2 * length L + 3 * length D + 3 < fuel)%nat ->
  exists s',
    restore_all_freed_memories fuel s = Ok tt s' /\
    lm_inv N s' (drain L D) [] /\
    ordered_from 1 (drain L D) /\ coalesced (drain L D) /\
    forall x, covers (drain L D) x <-> covers L x \/ covers D x.
Proof.
  intros Hinv Hok Hord Hco Hpos Hdis HLD Hfuel.
  pose proof Hinv as (HN & _).
  apply Forall_app in Hok as [HokL HokD].
  destruct (spec_run _ _ _ (restore_all_freed_memories_spec N s L D fuel Hinv)
              Hfuel) as ([] & s' & Hrun & Hinv' & _).
  exists s'. split; [done|]. split; [done|].
  by apply (drain_canonical N).
Qed.

Lemma restore_all_freed_memories_keeps_order_witness :
  let s := state_of (then_calls 40 fresh_lm S1_then_frees) in
  exists s',
    restore_all_freed_memories 40 s = Ok tt s' /\
    lm_inv 32 s' (drain [(2, 29)] [(1, 1); (31, 1)]) [] /\
    ordered_from 1 (drain [(2, 29)] [(1, 1); (31, 1)]).
Proof.
  intros s.
  destruct (restore_all_freed_memories_keeps_order 32 s [(2, 29)]
              [(1, 1); (31, 1)] 40) as (s' & H1 & H2 & H3 & _).
  - closed_lm_inv.
  - repeat constructor; vm_compute; discriminate.
  - vm_compute. repeat split; discriminate.
  - vm_compute. done.
  - repeat constructor.
  - split; [|split; [|done]]; intros x Hx Hc;
      repeat (apply Exists_cons in Hc as [Hc|Hc]; [cbn [fst snd] in *; lia|]);
      by apply Exists_nil in Hc.
  - intros x Hx Hc.
    repeat (apply Exists_cons in Hx as [Hx|Hx];
            [repeat (apply Exists_cons in Hc as [Hc|Hc];
                     [cbn [fst snd] in *; lia|]); by apply Exists_nil in Hc|]).
    by apply Exists_nil in Hx.
  - simpl. lia.
  - exists s'. split; [exact H1|]. split; [exact H2|exact H3].
Defined.

Lemma get_meta_state i v s s' : get_meta i s = Ok v s' -> s' = s.
Proof. unfold get_meta. destruct (in_table i); [|done]. by intros [= _ <-]. Qed.

Lemma fetch_alloced_pages_state x k s s' :
  fetch_alloced_pages x s = Ok k s' -> s' = s.
Proof.
  unfold fetch_alloced_pages, get_meta32, bind.
  destruct (get_meta x s) as [b s0| | |] eqn:E0; try done.
  apply get_meta_state in E0 as ->.
  destruct (b <? 255); [by intros [= _ <-]|].
  repeat (destruct (get_meta _ s) as [? s0| | |] eqn:E; try done;
          apply get_meta_state in E as ->).
  by intros [= _ <-].
Qed.

(** X4.  [fm_lm_free] of the first address of page [x], which is on
    neither list, links the record [{x, k}] at the tail of the deferred
    list, [k] being the length the table holds for [x].  The free list and
    the table are left as they are: the pages become free only at the next
    drain. *)
Theorem fm_lm_free_queues_region (N : Z) (s : state) (L D : list (Z * Z))
    (x k : Z) :
  lm_inv N s L D ->
  1 <= x < N -> x ∉ (L ++ D).*1 ->
  0 <= buffer_start s -> buffer_start s + N * FM_PAGE_SIZE <= 2 ^ 64 ->
  returned (fetch_alloced_pages x s) = Some k ->
  exists s',
    fm_lm_free (buffer_start s + x * FM_PAGE_SIZE) s = Ok tt s' /\
    lm_inv N s' L (D ++ [(x, k)]) /\
    meta_pages s' = meta_pages s /\
    frame [freed_memories; List.last (nodes D) freed_memories; page_ptr x] s s'.
Proof.
  intros (HN & Hfree & Hdef & Hnd) Hx Hnew Hb Hend Hk.
  destruct (fetch_alloced_pages x s) as [k' s0| | |] eqn:Hfetch; try done.
  injection Hk as ->. pose proof (fetch_alloced_pages_state _ _ _ _ Hfetch) as ->.
  assert (Hx52 : 0 <= x < 2 ^ 52) by lia.
  assert (Hptr : buffer_start s + x * FM_PAGE_SIZE
                 = wrap (buffer_start s + wrap (x * FM_PAGE_SIZE))).
  { change FM_PAGE_SIZE with 4096 in *.
    rewrite (wrap_small (x * 4096)) by lia. rewrite wrap_small by lia. done. }
  pose proof Hdef as (Hdll & HhD & HrD).
  set (s' := linked (List.last (nodes D) freed_memories) (page_ptr x)
               freed_memories (upd_pages x k (upd_start_page x x s))).
  assert (Hrun : fm_lm_free (buffer_start s + x * FM_PAGE_SIZE) s = Ok tt s').
  { rewrite Hptr. unfold fm_lm_free.
    erewrite bind_run; [|by apply ptr_to_page_of_page]. cbv beta.
    erewrite bind_run; [|exact Hfetch]. cbv beta.
    erewrite bind_run; [|by apply record_at_page]. cbv beta.
    mstep. mstep. unfold c_list_link_tail.
    apply (c_list_link_before_run _ freed_memories (nodes D) [] (page_ptr x)).
    rewrite app_nil_r. exact Hdll. }
  rewrite fmap_app, not_elem_of_app in Hnew. destruct Hnew as [HxL HxD].
  assert (Hlast : List.last (nodes D) freed_memories ∈ freed_memories :: nodes D)
    by apply last_in_cons.
  assert (Hfr : frame [freed_memories; List.last (nodes D) freed_memories;
                       page_ptr x] s s').
  { subst s'. unfold linked. solve_frame. }
  assert (Hw : frame [page_ptr x] s (upd_pages x k (upd_start_page x x s)))
    by solve_frame.
  exists s'. split; [exact Hrun|]. split; [|split; [apply Hfr|exact Hfr]].
  split; [done|]. split; [|split].
  - eapply free_rep_frame; [exact Hfr| |exact Hfree].
    intros q Hq Hq'. rewrite !elem_of_cons in Hq'.
    destruct Hq' as [->|[Hq'|[->|Hq']]].
    + apply elem_of_cons in Hq as [?|Hq]; [done|].
      by apply (head_not_in_nodes freed_memories L).
    + rewrite Hq' in Hq. clear Hq'.
      apply elem_of_cons in Hlast as [E|Hl].
      * rewrite E in Hq. apply elem_of_cons in Hq as [?|Hq]; [done|].
        by apply (head_not_in_nodes freed_memories L).
      * apply elem_of_cons in Hq as [E|Hq].
        { rewrite E in Hl. by apply (head_not_in_nodes free_regions D). }
        apply list_elem_of_fmap in Hl as (d & Ed & Hd).
        rewrite Ed in Hq. apply elem_of_nodes in Hq.
        rewrite fmap_app in Hnd. apply NoDup_app in Hnd as (_ & Hdis & _).
        apply (Hdis d.1 Hq). by apply list_elem_of_fmap_2.
    + apply elem_of_cons in Hq as [?|Hq]; [done|].
      by apply elem_of_nodes in Hq.
    + by apply elem_of_nil in Hq'.
  - subst s'. apply deferred_rep_linked; [| |done|done].
    + eapply deferred_rep_frame; [exact Hw| |exact Hdef].
      intros q Hq Hq'. apply list_elem_of_singleton in Hq' as ->.
      apply elem_of_cons in Hq as [?|Hq]; [done|]. by apply elem_of_nodes in Hq.
    + split; st_simpl; by rewrite lookup_insert_eq.
  - rewrite app_assoc, fmap_app. cbn [fmap list_fmap fst].
    apply NoDup_app. split; [done|]. split; [|apply NoDup_singleton].
    intros y Hy Hy'. apply list_elem_of_singleton in Hy' as ->.
    rewrite fmap_app, elem_of_app in Hy. tauto.
Qed.

Lemma fm_lm_free_queues_region_witness :
  let s := state_of (then_calls 40 fresh_lm
                       [lm_malloc_call 8192 FM_LM_T_TRANSIENT]) in
  exists s',
    fm_lm_free (buffer_start s + 1 * FM_PAGE_SIZE) s = Ok tt s' /\
    lm_inv 32 s' [(3, 29)] [(1, 2)].
Proof.
  intros s.
  destruct (fm_lm_free_queues_region 32 s [(3, 29)] [] 1 2)
    as (s' & H1 & H2 & _).
  - closed_lm_inv.
  - lia.
  - vm_compute. set_solver.
  - vm_compute. discriminate.
  - vm_compute. discriminate.
  - vm_compute. reflexivity.
  - exists s'. split; [exact H1|exact H2].
Defined.

Lemma free_rep_words_unlinked N s L1 r L2 a b :
  free_rep N s (L1 ++ r :: L2) ->
  free_rep N (unlinked (List.last (nodes L1) free_regions) (page_ptr r.1)
                (hd free_regions (nodes L2))
                (upd_pages r.1 b (upd_start_page r.1 a s)))
    (L1 ++ L2).
Proof.
  intros Hrep. pose proof (free_rep_NoDup _ _ _ Hrep) as Hnd.
  destruct Hrep as (Hd & Hh & Hr).
  apply Forall_app in Hh as [Hh1 [_ Hh2]%Forall_cons].
  apply Forall_app in Hr as [Hr1 [_ Hr2]%Forall_cons].
  split; [|split].
  - rewrite nodes_app.
    apply (dll_unlinked (upd_pages r.1 b (upd_start_page r.1 a s))).
    rewrite nodes_app, nodes_cons in Hd. exact Hd.
  - apply Forall_app. split.
    + eapply Forall_holds_same; [|exact Hh1]. intros x Hx. st_simpl.
      pose proof (NoDup_nodes_mid _ _ _ x Hnd ltac:(set_solver)).
      lk. done.
    + eapply Forall_holds_same; [|exact Hh2]. intros x Hx. st_simpl.
      pose proof (NoDup_nodes_mid _ _ _ x Hnd ltac:(set_solver)).
      lk. done.
  - apply Forall_app. split; [exact Hr1|exact Hr2].
Qed.

Lemma carve_front_run N s L1 sp np L2 req :
  N <= 2 ^ 52 ->
  free_rep N s (L1 ++ (sp, np) :: L2) ->
  region_ok N (sp, np) -> 0 <= req <= np ->
  (0 < req < np -> sp + req ∉ (L1 ++ L2).*1) ->
  exists s',
    carve_front (page_ptr sp) req s = Ok sp s' /\
    free_rep N s' (L1 ++ carve_low req (sp, np) ++ L2) /\
    frame (free_regions :: nodes (L1 ++ (sp, np) :: L2)
           ++ nodes (carve_low req (sp, np))) s s'.
Proof.
  intros HN Hrep (Hsp & Hnp & Hend) Hreq Hnew. cbn [fst snd] in *.
  pose proof (free_rep_holds _ _ _ (sp, np) Hrep ltac:(set_solver)) as [Hr1 Hr2].
  cbn [fst snd] in *.
  pose proof Hrep as (Hdll & _ & _).
  rewrite nodes_app, nodes_cons in Hdll. cbn [fst] in Hdll.
  pose proof (last_in_cons free_regions (nodes L1)) as Hlast.
  pose proof (hd_in_snoc free_regions (nodes L2)) as Hhd.
  unfold carve_front, carve_low. cbn [fst snd].
  mstep. mstep. mstep. mstep. mstep.
  rewrite (wrap_small (sp + req)) by lia.
  rewrite (wrap_small (np - req)) by lia.
  destruct (Z.eqb_spec (np - req) 0) as [Hz|Hnz].
  - erewrite bind_run; [|eapply (c_list_unlink_run _ free_regions); exact Hdll].
    eexists. split; [reflexivity|]. split.
    + rewrite Hz. apply (free_rep_words_unlinked N s L1 (sp, np) L2). exact Hrep.
    + unfold unlinked. rewrite nodes_app, nodes_cons. cbn [fst].
      clear Hnew. solve_frame.
  - destruct (Z.eq_dec req 0) as [->|Hr0].
    + rewrite Z.add_0_r, Z.sub_0_r.
      rewrite (upd_start_page_id s sp sp) by done.
      rewrite (upd_pages_id s sp np) by done.
      erewrite bind_run; [|erewrite bind_run;
                            [|apply move_region_same; [done|lia]]; reflexivity].
      exists s. split; [reflexivity|]. split; [exact Hrep|apply frame_refl].
    + assert (Hin : sp + req ∉ (L1 ++ (sp, np) :: L2).*1).
      { specialize (Hnew ltac:(lia)). rewrite fmap_app in *.
        rewrite fmap_cons. cbn [fst].
        rewrite !not_elem_of_app in *. rewrite not_elem_of_cons.
        split; [tauto|]. split; [lia|tauto]. }
      erewrite bind_run;
        [|erewrite bind_run;
          [|eapply (move_region_run _ free_regions (nodes L1) (nodes L2) sp
                      (sp + req) (np - req)); [exact Hdll|solve_lookup
                      |solve_lookup|lia|]]; [reflexivity|]].
      * eexists. split; [reflexivity|]. split.
        -- by apply (free_rep_moved N s L1 sp np L2); [|lia|].
        -- unfold moved. rewrite nodes_app, nodes_cons. cbn [fst].
           clear Hnew Hin. solve_frame.
      * pose proof (not_in_nodes _ _ Hin) as H.
        rewrite nodes_app, nodes_cons in H. exact H.
Qed.

Lemma alloc_free_pages_loop_skips N req L1b : forall L1a r L2 s fuel,
  free_rep N s (L1a ++ L1b ++ r :: L2) ->
  Forall (fun x => x.2 < req) L1b -> req <= r.2 ->
  (length L1b < fuel)%nat ->
  alloc_free_pages_loop fuel req
    (hd free_regions (nodes (L1b ++ r :: L2))) s
  = carve_front (page_ptr r.1) req s.
Proof.
  induction L1b as [|[xs xp] L1b IH]; intros L1a r L2 s fuel Hrep Hsmall Hfit Hfuel.
  - destruct fuel as [|fuel]; [simpl in Hfuel; lia|].
    pose proof (free_rep_holds _ _ _ r Hrep ltac:(set_solver)) as [Hr1 Hr2].
    cbn [app hd nodes fmap list_fmap alloc_free_pages_loop cptr_eqb].
    mstep. destruct (Z.leb_spec req r.2); [done|lia].
  - destruct fuel as [|fuel]; [simpl in Hfuel; lia|].
    pose proof (free_rep_holds _ _ _ (xs, xp) Hrep ltac:(set_solver)) as [Hx1 Hx2].
    apply Forall_cons in Hsmall as [Hx Hsmall]. cbn [fst snd] in *.
    cbn [app hd nodes fmap list_fmap fst alloc_free_pages_loop cptr_eqb].
    mstep. destruct (Z.leb_spec req xp); [lia|].
    pose proof Hrep as ([Hc _] & _).
    rewrite nodes_app in Hc. cbn [app] in Hc. rewrite nodes_cons in Hc.
    cbn [fst] in Hc. apply chain_mid in Hc as [Hnx _].
    mstep. fold (nodes (L1b ++ r :: L2)).
    apply (IH (L1a ++ [(xs, xp)])); try done.
    + by rewrite <- app_assoc.
    + simpl in Hfuel. lia.
Qed.

Lemma alloc_free_pages_run N s L1 sp np L2 req fuel :
  N <= 2 ^ 52 ->
  free_rep N s (L1 ++ (sp, np) :: L2) ->
  Forall (fun x => x.2 < req) L1 ->
  region_ok N (sp, np) -> 0 <= req <= np ->
  (0 < req < np -> sp + req ∉ (L1 ++ L2).*1) ->
  (length L1 < fuel)%nat ->
  exists s',
    alloc_free_pages fuel req s = Ok sp s' /\
    free_rep N s' (L1 ++ carve_low req (sp, np) ++ L2) /\
    frame (free_regions :: nodes (L1 ++ (sp, np) :: L2)
           ++ nodes (carve_low req (sp, np))) s s'.
Proof.
  intros HN Hrep Hsmall Hok Hreq Hnew Hfuel.
  unfold alloc_free_pages.
  pose proof Hrep as ([Hc _] & _). apply chain_next in Hc.
  mstep.
  rewrite (alloc_free_pages_loop_skips N req L1 [] (sp, np) L2 s fuel);
    try done; [|cbn [snd]; lia].
  by apply (carve_front_run N).
Qed.



Lemma carve_back_run N s L1 sp np L2 req :
  N <= 2 ^ 52 ->
  free_rep N s (L1 ++ (sp, np) :: L2) ->
  region_ok N (sp, np) -> 0 <= req <= np ->
  exists s',
    (let* sp' := get_start_page (page_ptr sp) in
     let result := wrap (wrap (sp' + np) - req) in
     set_pages (page_ptr sp) (wrap (np - req)) ;;
     let* np' := get_pages (page_ptr sp) in
     (if np' =? 0 then c_list_unlink (page_ptr sp) else ret tt) ;;
     ret result) s = Ok (sp + np - req) s' /\
    free_rep N s' (L1 ++ carve_high req (sp, np) ++ L2) /\
    frame (free_regions :: nodes (L1 ++ (sp, np) :: L2)) s s'.
Proof.
  intros HN Hrep (Hsp & Hnp & Hend) Hreq. cbn [fst snd] in *.
  pose proof (free_rep_holds _ _ _ (sp, np) Hrep ltac:(set_solver)) as [Hr1 Hr2].
  cbn [fst snd] in *.
  pose proof Hrep as (Hdll & _ & _).
  rewrite nodes_app, nodes_cons in Hdll. cbn [fst] in Hdll.
  pose proof (last_in_cons free_regions (nodes L1)) as Hlast.
  pose proof (hd_in_snoc free_regions (nodes L2)) as Hhd.
  unfold carve_high. cbn [fst snd].
  mstep. mstep. mstep.
  rewrite (wrap_small (sp + np)) by lia.
  rewrite (wrap_small (sp + np - req)) by lia.
  rewrite (wrap_small (np - req)) by lia.
  destruct (Z.eqb_spec (np - req) 0) as [Hz|Hnz].
  - erewrite bind_run; [|eapply (c_list_unlink_run _ free_regions); exact Hdll].
    eexists. split; [reflexivity|]. split.
    + rewrite Hz. rewrite <- (upd_start_page_id s sp sp) at 1 by done.
      apply (free_rep_words_unlinked N s L1 (sp, np) L2). exact Hrep.
    + unfold unlinked. rewrite nodes_app, nodes_cons. cbn [fst]. solve_frame.
  - erewrite bind_run; [|reflexivity].
    eexists. split; [reflexivity|]. split.
    + by apply (free_rep_grow N s L1 sp np).
    + rewrite nodes_app, nodes_cons. cbn [fst]. solve_frame.
Qed.

Lemma alloc_free_pages_reverse_loop_skips N req L2b : forall L1 r L2a s fuel,
  free_rep N s (L1 ++ r :: L2b ++ L2a) ->
  Forall (fun x => x.2 < req) L2b -> req <= r.2 ->
  (length L2b < fuel)%nat ->
  alloc_free_pages_reverse_loop fuel req
    (List.last (nodes (L1 ++ r :: L2b)) free_regions) s
  = (let* sp' := get_start_page (page_ptr r.1) in
     let result := wrap (wrap (sp' + r.2) - req) in
     set_pages (page_ptr r.1) (wrap (r.2 - req)) ;;
     let* np' := get_pages (page_ptr r.1) in
     (if np' =? 0 then c_list_unlink (page_ptr r.1) else ret tt) ;;
     ret result) s.
Proof.
  induction L2b as [|[xs xp] L2b IH] using rev_ind;
    intros L1 r L2a s fuel Hrep Hsmall Hfit Hfuel.
  - destruct fuel as [|fuel]; [simpl in Hfuel; lia|].
    pose proof (free_rep_holds _ _ _ r Hrep ltac:(set_solver)) as [Hr1 Hr2].
    rewrite nodes_snoc, last_snoc.
    cbn [alloc_free_pages_reverse_loop cptr_eqb].
    mstep. destruct (Z.leb_spec req r.2); [|lia].
    mstep. reflexivity.
  - destruct fuel as [|fuel]; [simpl in Hfuel; lia|].
    pose proof (free_rep_holds _ _ _ (xs, xp) Hrep ltac:(set_solver)) as [Hx1 Hx2].
    apply Forall_app in Hsmall as [Hsmall [Hx _]%Forall_cons].
    cbn [fst snd] in *.
    replace (L1 ++ r :: L2b ++ [(xs, xp)]) with ((L1 ++ r :: L2b) ++ [(xs, xp)])
      by (by rewrite <- app_assoc).
    rewrite nodes_snoc, last_snoc. cbn [fst].
    cbn [alloc_free_pages_reverse_loop cptr_eqb].
    mstep. destruct (Z.leb_spec req xp); [lia|].
    pose proof Hrep as ([Hc _] & _).
    replace (L1 ++ r :: (L2b ++ [(xs, xp)]) ++ L2a)
      with ((L1 ++ r :: L2b) ++ (xs, xp) :: L2a) in Hc
      by (by rewrite <- !app_assoc).
    rewrite nodes_app, nodes_cons in Hc. cbn [fst] in Hc.
    apply chain_mid in Hc as [_ Hpv].
    mstep.
    apply (IH L1 r ((xs, xp) :: L2a)); try done.
    + by rewrite <- app_assoc in Hrep.
    + rewrite length_app in Hfuel. simpl in Hfuel. lia.
Qed.

Lemma alloc_free_pages_reverse_run N s L1 sp np L2 req fuel :
  N <= 2 ^ 52 ->
  free_rep N s (L1 ++ (sp, np) :: L2) ->
  Forall (fun x => x.2 < req) L2 ->
  region_ok N (sp, np) -> 0 <= req <= np ->
  (length L2 < fuel)%nat ->
  exists s',
    alloc_free_pages_reverse fuel req s = Ok (sp + np - req) s' /\
    free_rep N s' (L1 ++ carve_high req (sp, np) ++ L2) /\
    frame (free_regions :: nodes (L1 ++ (sp, np) :: L2)) s s'.
Proof.
  intros HN Hrep Hsmall Hok Hreq Hfuel.
  unfold alloc_free_pages_reverse.
  pose proof Hrep as ([Hc _] & _). apply chain_prev in Hc.
  mstep.
  rewrite (alloc_free_pages_reverse_loop_skips N req L2 L1 (sp, np) [] s fuel);
    try done; [|by rewrite app_nil_r|cbn [snd]; lia].
  by apply (carve_back_run N).
Qed.

(** X6.  [alloc_free_pages_reverse] is first fit from the tail: when
    [(sp, np)] is the last region with at least [req] pages, the scan
    returns [sp + np - req], the pages at the back of the region, whose
    record stays where it is with [np - req] pages; a region used up is
    unlinked. *)
Theorem alloc_free_pages_reverse_last_fit (N : Z) (s : state)
    (L1 : list (Z * Z)) (sp np : Z) (L2 : list (Z * Z)) (req : Z)
    (fuel : nat) :
  N <= 2 ^ 52 ->
  free_rep N s (L1 ++ (sp, np) :: L2) ->
  Forall (fun x => x.2 < req) L2 ->
  region_ok N (sp, np) -> 0 <= req <= np ->
  (length L2 < fuel)%nat ->
  exists s',
    alloc_free_pages_reverse fuel req s = Ok (sp + np - req) s' /\
    free_rep N s' (L1 ++ carve_high req (sp, np) ++ L2) /\
    frame (free_regions :: nodes (L1 ++ (sp, np) :: L2)) s s'.
Proof. apply alloc_free_pages_reverse_run. Qed.

Lemma alloc_free_pages_reverse_last_fit_witness :
  exists s',
    alloc_free_pages_reverse 1 3 (state_of fresh_lm) = Ok 29 s' /\
    free_rep 32 s' [(1, 28)].
Proof.
  destruct (alloc_free_pages_reverse_last_fit 32 (state_of fresh_lm) []
              1 31 [] 3 1) as (s' & H1 & H2 & _).
  - vm_compute. discriminate.
  - closed_rep.
  - constructor.
  - vm_compute. repeat split; discriminate.
  - lia.
  - simpl. lia.
  - exists s'. split; [exact H1|exact H2].
Defined.

Lemma free_rep_words N s s' L :
  c_next s' = c_next s -> c_prev s' = c_prev s ->
  start_page s' = start_page s -> pages s' = pages s ->
  free_rep N s L -> free_rep N s' L.
Proof.
  intros E1 E2 E3 E4. unfold free_rep, holds. by rewrite E1, E2, E3, E4.
Qed.

Lemma deferred_rep_words N s s' D :
  c_next s' = c_next s -> c_prev s' = c_prev s ->
  start_page s' = start_page s -> pages s' = pages s ->
  deferred_rep N s D -> deferred_rep N s' D.
Proof.
  intros E1 E2 E3 E4. unfold deferred_rep, holds. by rewrite E1, E2, E3, E4.
Qed.

Lemma carve_low_starts req sp np x :
  x ∈ (carve_low req (sp, np)).*1 -> x = sp + req /\ np - req ≠ 0.
Proof.
  unfold carve_low. cbn [fst snd].
  destruct (Z.eqb_spec (np - req) 0); cbn [fmap list_fmap fst].
  - by intros ?%elem_of_nil.
  - by intros ->%list_elem_of_singleton.
Qed.

Lemma carve_high_starts req sp np x :
  x ∈ (carve_high req (sp, np)).*1 -> x = sp.
Proof.
  unfold carve_high. cbn [fst snd].
  destruct (Z.eqb_spec (np - req) 0); cbn [fmap list_fmap fst].
  - by intros ?%elem_of_nil.
  - by intros ->%list_elem_of_singleton.
Qed.

Lemma lm_inv_carved_low N s s' L1 sp np L2 D req :
  lm_inv N s (L1 ++ (sp, np) :: L2) D -> 0 <= req <= np ->
  (0 < req < np -> sp + req ∉ (L1 ++ L2 ++ D).*1) ->
  free_rep N s' (L1 ++ carve_low req (sp, np) ++ L2) ->
  frame (free_regions :: nodes (L1 ++ (sp, np) :: L2)
         ++ nodes (carve_low req (sp, np))) s s' ->
  lm_inv N s' (L1 ++ carve_low req (sp, np) ++ L2) D.
Proof.
  intros (HN & Hfree & Hdef & Hnd) Hreq Hnew Hrep Hfr.
  rewrite fmap_app in Hnd. apply NoDup_app in Hnd as (HndL & Hdis0 & HndD).
  assert (Hdis : forall x, x ∈ L1.*1 \/ x = sp \/ x ∈ L2.*1 -> x ∉ D.*1).
  { intros x Hx. apply Hdis0.
    rewrite fmap_app, fmap_cons, elem_of_app, elem_of_cons. done. }
  clear Hdis0.
  split; [done|]. split; [exact Hrep|]. split.
  - eapply deferred_rep_frame; [exact Hfr| |exact Hdef].
    intros q Hq Hq'. apply elem_of_cons in Hq as [->|Hq].
    + apply elem_of_cons in Hq' as [?|Hq']; [done|].
      apply elem_of_app in Hq' as [Hq'|Hq'];
        by apply (head_not_in_nodes freed_memories) in Hq'.
    + apply list_elem_of_fmap in Hq as (d & -> & Hd).
      apply elem_of_cons in Hq' as [?|Hq']; [done|].
      apply elem_of_app in Hq' as [Hq'|Hq']; apply elem_of_nodes in Hq'.
      * rewrite fmap_app, fmap_cons, elem_of_app, elem_of_cons in Hq'.
        cbn [fst] in Hq'.
        apply (Hdis _ Hq'). by apply list_elem_of_fmap_2.
      * apply carve_low_starts in Hq' as [Hd1 Hd2].
        destruct (Z.eq_dec req 0) as [->|Hr0].
        -- rewrite Z.add_0_r in Hd1. apply (Hdis sp); [tauto|].
           rewrite <- Hd1. by apply list_elem_of_fmap_2.
        -- specialize (Hnew ltac:(lia)). apply Hnew.
           rewrite !fmap_app, !elem_of_app. right. right.
           rewrite <- Hd1. by apply list_elem_of_fmap_2.
  - pose proof (free_rep_NoDup _ _ _ Hrep) as Hnd'.
    apply NoDup_nodes in Hnd'.
    rewrite fmap_app. apply NoDup_app. split; [exact Hnd'|]. split; [|done].
    intros x Hx HxD. rewrite !fmap_app, !elem_of_app in Hx.
    destruct Hx as [Hx|[Hx|Hx]].
    + apply (Hdis x); [tauto|done].
    + apply carve_low_starts in Hx as [-> Hd2].
      destruct (Z.eq_dec req 0) as [->|Hr0].
      * rewrite Z.add_0_r in HxD. by apply (Hdis sp); [tauto|].
      * specialize (Hnew ltac:(lia)). apply Hnew.
        rewrite !fmap_app, !elem_of_app. tauto.
    + apply (Hdis x); [tauto|done].
Qed.

Lemma alloc_run N s L1 sp np L2 D req t fuel :
  lm_inv N s (L1 ++ (sp, np) :: L2) D ->
  region_ok N (sp, np) -> 0 <= req <= np ->
  reached_first t req L1 L2 ->
  (t = FM_LM_T_TRANSIENT -> 0 < req < np -> sp + req ∉ (L1 ++ L2 ++ D).*1) ->
  (length (L1 ++ (sp, np) :: L2) < fuel)%nat ->
  exists s',
    alloc fuel req t s = Ok (served_page t req (sp, np)) s' /\
    lm_inv N s' (served_list t req L1 (sp, np) L2) D /\
    frame (free_regions :: nodes (L1 ++ (sp, np) :: L2)
           ++ nodes (carve_low req (sp, np))) s s'.
Proof.
  intros Hinv Hok Hreq Hfirst Hnew Hfuel.
  pose proof Hinv as (HN & Hfree & Hdef & Hnd).
  rewrite length_app in Hfuel. cbn [length] in Hfuel.
  rewrite fmap_app in Hnd. apply NoDup_app in Hnd as (HndL & Hdis0 & HndD).
  assert (Hdis : forall x, x ∈ L1.*1 \/ x = sp \/ x ∈ L2.*1 -> x ∉ D.*1).
  { intros x Hx. apply Hdis0.
    rewrite fmap_app, fmap_cons, elem_of_app, elem_of_cons. done. }
  clear Hdis0.
  unfold alloc, served_page, served_list, reached_first in *. cbn [fst snd].
  destruct (Z.eqb_spec t FM_LM_T_TRANSIENT) as [Ht|Ht].
  - destruct (alloc_free_pages_run N s L1 sp np L2 req fuel)
      as (s' & Hrun & Hrep & Hfr); try done; [| |].
    { intros Hr. specialize (Hnew Ht Hr). rewrite !fmap_app in *.
      rewrite !not_elem_of_app in *. tauto. }
    { lia. }
    exists s'. split; [exact Hrun|]. split; [|exact Hfr].
    apply (lm_inv_carved_low N s); try done.
    intros Hr. by apply Hnew.
  - destruct (alloc_free_pages_reverse_run N s L1 sp np L2 req fuel)
      as (s' & Hrun & Hrep & Hfr); try done; [lia|].
    exists s'. split; [exact Hrun|]. split.
    2:{ eapply frame_mono; [|exact Hfr]. intros q Hq.
        rewrite elem_of_cons, elem_of_app. rewrite elem_of_cons in Hq. tauto. }
    split; [done|]. split; [exact Hrep|]. split.
    + eapply deferred_rep_frame; [exact Hfr| |exact Hdef].
      intros q Hq Hq'. apply elem_of_cons in Hq as [->|Hq].
      * apply elem_of_cons in Hq' as [?|Hq']; [done|].
        by apply (head_not_in_nodes freed_memories) in Hq'.
      * apply list_elem_of_fmap in Hq as (d & -> & Hd).
        apply elem_of_cons in Hq' as [?|Hq']; [done|].
        apply elem_of_nodes in Hq'.
        rewrite fmap_app, fmap_cons, elem_of_app, elem_of_cons in Hq'.
        cbn [fst] in Hq'.
        apply (Hdis _ Hq'). by apply list_elem_of_fmap_2.
    + pose proof (free_rep_NoDup _ _ _ Hrep) as Hnd'.
      apply NoDup_nodes in Hnd'.
      rewrite fmap_app. apply NoDup_app. split; [exact Hnd'|]. split; [|done].
      intros x Hx HxD. rewrite !fmap_app, !elem_of_app in Hx.
      destruct Hx as [Hx|[Hx|Hx]].
      * apply (Hdis x); [tauto|done].
      * apply carve_high_starts in Hx as ->. by apply (Hdis sp); [tauto|].
      * apply (Hdis x); [tauto|done].
Qed.

Lemma fm_lm_malloc_run_frame N s L1 sp np L2 D size t fuel :
  let req := __fm_roundup size FM_PAGE_SIZE / FM_PAGE_SIZE in
  let page := served_page t req (sp, np) in
  lm_inv N s (L1 ++ (sp, np) :: L2) D ->
  region_ok N (sp, np) -> req <= np ->
  reached_first t req L1 L2 ->
  (t = FM_LM_T_TRANSIENT -> 0 < req < np -> sp + req ∉ (L1 ++ L2 ++ D).*1) ->
  N < META_ENTRIES ->
  0 < buffer_start s -> buffer_start s + N * FM_PAGE_SIZE < 2 ^ 64 ->
  (length (L1 ++ (sp, np) :: L2) < fuel)%nat ->
  exists s',
    fm_lm_malloc fuel size t s
    = Ok (buffer_start s + page * FM_PAGE_SIZE) s' /\
    lm_inv N s' (served_list t req L1 (sp, np) L2) D /\
    fetch_alloced_pages page s' = Ok req s' /\
    1 <= page /\ page + req <= N /\
    buffer_start s' = buffer_start s /\
    exists s1,
      frame (free_regions :: nodes (L1 ++ (sp, np) :: L2)
             ++ nodes (carve_low req (sp, np))) s s1 /\
      (req < 255 -> s' = upd_meta page req s1).
Proof.
  intros req page Hinv Hok Hle Hfirst Hnew HN Hb Hend Hfuel.
  assert (Hreq : 0 <= req).
  { subst req. apply Z.div_pos; [|done]. unfold __fm_roundup, wrap.
    apply Z.mod_pos_bound. done. }
  pose proof Hok as (Hsp & Hnp & Hfit). cbn [fst snd] in *.
  destruct (alloc_run N s L1 sp np L2 D req t fuel)
    as (s1 & Hrun & Hinv1 & Hfr1); try done; try lia.
  pose proof Hfr1 as (Hb1 & Hm1 & _).
  assert (Hpage : 1 <= page /\ page + req <= N).
  { subst page. unfold served_page. cbn [fst snd].
    destruct (t =? FM_LM_T_TRANSIENT); lia. }
  unfold META_ENTRIES in HN.
  destruct (mark_then_fetch page req s1)
    as (s2 & Hmark & Hfetch & Hsmall & _ & Hsame);
    [unfold META_ENTRIES; lia|lia|unfold META_ENTRIES; lia|].
  injection Hsame as Eb En Ep Es Eg _ _ _.
  exists s2. split; [|split; [|split; [exact Hfetch|]]].
  - unfold fm_lm_malloc. fold req.
    erewrite bind_run; [|exact Hrun]. cbv beta. fold page.
    destruct (Z.eqb_spec page 0) as [|_]; [lia|].
    erewrite bind_run; [|reflexivity]. cbv beta.
    destruct (Z.eqb_spec page 0) as [|_]; [lia|].
    erewrite bind_run; [|exact Hmark]. cbv beta.
    rewrite page_to_ptr_small; rewrite ?Eb, ?Hb1; try done;
      change FM_PAGE_SIZE with 4096 in *; lia.
  - destruct Hinv1 as (H52 & Hfree & Hdef & Hnd).
    split; [done|]. split; [|split; [|done]].
    + by apply (free_rep_words N s1).
    + by apply (deferred_rep_words N s1).
  - split; [lia|]. split; [lia|]. split; [by rewrite Eb|]. exists s1. done.
Qed.

Lemma fm_lm_malloc_run N s L1 sp np L2 D size t fuel :
  let req := __fm_roundup size FM_PAGE_SIZE / FM_PAGE_SIZE in
  let page := served_page t req (sp, np) in
  lm_inv N s (L1 ++ (sp, np) :: L2) D ->
  region_ok N (sp, np) -> req <= np ->
  reached_first t req L1 L2 ->
  (t = FM_LM_T_TRANSIENT -> 0 < req < np -> sp + req ∉ (L1 ++ L2 ++ D).*1) ->
  N < META_ENTRIES ->
  0 < buffer_start s -> buffer_start s + N * FM_PAGE_SIZE < 2 ^ 64 ->
  (length (L1 ++ (sp, np) :: L2) < fuel)%nat ->
  exists s',
    fm_lm_malloc fuel size t s
    = Ok (buffer_start s + page * FM_PAGE_SIZE) s' /\
    lm_inv N s' (served_list t req L1 (sp, np) L2) D /\
    fetch_alloced_pages page s' = Ok req s' /\
    1 <= page /\ page + req <= N /\
    buffer_start s' = buffer_start s.
Proof.
  intros req page Hinv Hok Hle Hfirst Hnew HN Hb Hend Hfuel.
  destruct (fm_lm_malloc_run_frame N s L1 sp np L2 D size t fuel)
    as (s' & Hrun & Hinv' & Hfetch & Hp1 & Hp2 & Hbuf & _); try done.
  by exists s'.
Qed.

(** X7.  [fm_lm_malloc] on a free list with a fitting region: the request
    is served by the first scan, without a drain.  A transient request gets
    the front of the first fitting region, a persistent one the back of the
    last fitting region.  The address returned is that of the page, the
    table records the number of pages of the request at that page, the
    lists stay well formed and the deferred list is untouched. *)
Theorem fm_lm_malloc_serves_first_fit (N : Z) (s : state)
    (L1 : list (Z * Z)) (sp np : Z) (L2 D : list (Z * Z)) (size t : Z)
    (fuel : nat) :
  let req := __fm_roundup size FM_PAGE_SIZE / FM_PAGE_SIZE in
  let page := served_page t req (sp, np) in
  lm_inv N s (L1 ++ (sp, np) :: L2) D ->
  region_ok N (sp, np) -> req <= np ->
  reached_first t req L1 L2 ->
  (t = FM_LM_T_TRANSIENT -> 0 < req < np -> sp + req ∉ (L1 ++ L2 ++ D).*1) ->
  N < META_ENTRIES ->
  0 < buffer_start s -> buffer_start s + N * FM_PAGE_SIZE < 2 ^ 64 ->
  (length (L1 ++ (sp, np) :: L2) < fuel)%nat ->
  exists s',
    fm_lm_malloc fuel size t s
    = Ok (buffer_start s + page * FM_PAGE_SIZE) s' /\
    lm_inv N s' (served_list t req L1 (sp, np) L2) D /\
    fetch_alloced_pages page s' = Ok req s' /\
    1 <= page /\ page + req <= N /\
    buffer_start s' = buffer_start s.
Proof. apply fm_lm_malloc_run. Qed.

Lemma fm_lm_malloc_serves_first_fit_witness :
  let s := state_of (then_calls 40 fresh_lm malloc_then_free) in
  exists s',
    fm_lm_malloc 2 8192 FM_LM_T_PERSISTENT s = Ok (page0 30) s' /\
    lm_inv 32 s' [(2, 28)] [(1, 1)] /\
    fetch_alloced_pages 30 s' = Ok 2 s'.
Proof.
  intros s.
  destruct (fm_lm_malloc_serves_first_fit 32 s [] 2 30 [] [(1, 1)] 8192
              FM_LM_T_PERSISTENT 2) as (s' & H1 & H2 & H3 & _).
  - closed_lm_inv.
  - vm_compute. repeat split; discriminate.
  - vm_compute. discriminate.
  - constructor.
  - intros [=].
  - vm_compute. reflexivity.
  - vm_compute. reflexivity.
  - vm_compute. reflexivity.
  - simpl. lia.
  - exists s'. split; [exact H1|]. split; [exact H2|exact H3].
Defined.

Lemma alloc_free_pages_loop_none N req L2 : forall L1 s fuel,
  free_rep N s (L1 ++ L2) -> Forall (fun x => x.2 < req) L2 ->
  (length L2 < fuel)%nat ->
  alloc_free_pages_loop fuel req (hd free_regions (nodes L2)) s = Ok 0 s.
Proof.
  induction L2 as [|[xs xp] L2 IH]; intros L1 s fuel Hrep Hsmall Hfuel.
  - destruct fuel as [|fuel]; [simpl in Hfuel; lia|]. reflexivity.
  - destruct fuel as [|fuel]; [simpl in Hfuel; lia|].
    pose proof (free_rep_holds _ _ _ (xs, xp) Hrep ltac:(set_solver)) as [Hx1 Hx2].
    apply Forall_cons in Hsmall as [Hx Hsmall]. cbn [fst snd] in *.
    cbn [hd nodes fmap list_fmap fst alloc_free_pages_loop cptr_eqb].
    mstep. destruct (Z.leb_spec req xp); [lia|].
    pose proof Hrep as ([Hc _] & _).
    rewrite nodes_app, nodes_cons in Hc.
    cbn [fst] in Hc. apply chain_mid in Hc as [Hnx _].
    mstep. fold (nodes L2).
    apply (IH (L1 ++ [(xs, xp)])); try done.
    + by rewrite <- app_assoc.
    + simpl in Hfuel. lia.
Qed.

Lemma alloc_free_pages_reverse_loop_none N req L1 : forall L2 s fuel,
  free_rep N s (L1 ++ L2) -> Forall (fun x => x.2 < req) L1 ->
  (length L1 < fuel)%nat ->
  alloc_free_pages_reverse_loop fuel req
    (List.last (nodes L1) free_regions) s = Ok 0 s.
Proof.
  induction L1 as [|[xs xp] L1 IH] using rev_ind;
    intros L2 s fuel Hrep Hsmall Hfuel.
  - destruct fuel as [|fuel]; [simpl in Hfuel; lia|]. reflexivity.
  - destruct fuel as [|fuel]; [rewrite length_app in Hfuel; simpl in Hfuel; lia|].
    pose proof (free_rep_holds _ _ _ (xs, xp) Hrep ltac:(set_solver)) as [Hx1 Hx2].
    apply Forall_app in Hsmall as [Hsmall [Hx _]%Forall_cons].
    cbn [fst snd] in *.
    rewrite nodes_snoc, last_snoc. cbn [fst].
    cbn [alloc_free_pages_reverse_loop cptr_eqb].
    mstep. destruct (Z.leb_spec req xp); [lia|].
    pose proof Hrep as ([Hc _] & _).
    rewrite <- app_assoc in Hc. cbn [app] in Hc.
    rewrite nodes_app, nodes_cons in Hc. cbn [fst] in Hc.
    apply chain_mid in Hc as [_ Hpv].
    mstep.
    apply (IH ((xs, xp) :: L2)); try done.
    + by rewrite <- app_assoc in Hrep.
    + rewrite length_app in Hfuel. simpl in Hfuel. lia.
Qed.

Lemma alloc_none_run N req t L s fuel :
  free_rep N s L -> Forall (fun x => x.2 < req) L ->
  (length L < fuel)%nat ->
  alloc fuel req t s = Ok 0 s.
Proof.
  intros Hrep Hsmall Hfuel. unfold alloc.
  pose proof Hrep as ([Hc _] & _).
  destruct (t =? FM_LM_T_TRANSIENT).
  - unfold alloc_free_pages. apply chain_next in Hc. mstep.
    by apply (alloc_free_pages_loop_none N req L []).
  - unfold alloc_free_pages_reverse. apply chain_prev in Hc. mstep.
    apply (alloc_free_pages_reverse_loop_none N req L []); try done.
    by rewrite app_nil_r.
Qed.


(** X28.  [fm_lm_malloc] returns NULL when no region is long enough,
    neither in the free list nor in the drained list.  The call returns
    (given fuel for the drain), the state it leaves is the drained one, and
    the table is unchanged. *)
Theorem fm_lm_malloc_null_when_nothing_fits (N : Z) (s : state)
    (L D : list (Z * Z)) (size t : Z) (fuel : nat) :
  let req := __fm_roundup size FM_PAGE_SIZE / FM_PAGE_SIZE in
  lm_inv N s L D ->
  Forall (fun x => x.2 < req) L ->
  Forall (fun x => x.2 < req) (drain L D) ->
  (2 * length L + 3 * length D + 3 < fuel)%nat ->
  exists s',
    fm_lm_malloc fuel size t s = Ok NULL s' /\
    lm_inv N s' (drain L D) [] /\
    meta_pages s' = meta_pages s /\ buffer_start s' = buffer_start s.
Proof.
  intros req Hinv Hsmall Hsmall' Hfuel.
  pose proof Hinv as (H52 & Hfree & _).
  assert (Hnone : alloc fuel req t s = Ok 0 s).
  { apply (alloc_none_run N req t L); [done|done|lia]. }
  destruct (spec_run _ _ _ (restore_all_freed_memories_spec N s L D fuel Hinv)
              Hfuel) as ([] & s1 & Hrestore & Hinv1 & Hfr1).
  pose proof Hfr1 as (Hb1 & Hm1 & _).
  pose proof Hinv1 as (_ & Hfree1 & _).
  assert (Hlen : (length (drain L D) <= length L + length D)%nat).
  { clear. revert L.
    induction D as [|d D IH]; intros L; cbn [drain foldl length]; [lia|].
    specialize (IH (restore_region d L)).
    pose proof (restore_region_length d L). unfold drain in IH. lia. }
  assert (Hnone1 : alloc fuel req t s1 = Ok 0 s1).
  { apply (alloc_none_run N req t (drain L D)); [done|done|lia]. }
  exists s1. split; [|done].
  unfold fm_lm_malloc. fold req.
  erewrite bind_run; [|exact Hnone]. cbv beta.
  change (0 =? 0) with true. cbv iota.
  rewrite bind_assoc. erewrite bind_run; [|exact Hrestore]. cbv beta.
  erewrite bind_run; [|exact Hnone1]. cbv beta.
  reflexivity.
Qed.


Lemma fm_lm_malloc_null_when_nothing_fits_witness :
  let s := state_of (then_calls 40 fresh_lm malloc_then_free) in
  exists s',
    fm_lm_malloc 40 (32 * 4096) FM_LM_T_TRANSIENT s = Ok NULL s' /\
    lm_inv 32 s' (drain [(2, 30)] [(1, 1)]) [].
Proof.
  intros s.
  destruct (fm_lm_malloc_null_when_nothing_fits 32 s [(2, 30)] [(1, 1)]
              (32 * 4096) FM_LM_T_TRANSIENT 40) as (s' & H1 & H2 & _).
  - closed_lm_inv.
  - repeat constructor; vm_compute; reflexivity.
  - repeat constructor; vm_compute; reflexivity.
  - simpl. lia.
  - exists s'. split; [exact H1|exact H2].
Defined.

Lemma get_meta_ext i s s' :
  meta_pages s' = meta_pages s ->
  get_meta i s' = match get_meta i s with Ok v _ => Ok v s' | r => r end.
Proof. intros E. unfold get_meta. rewrite E. by destruct (in_table i). Qed.

Lemma fetch_alloced_pages_ext p k s s' :
  meta_pages s' = meta_pages s ->
  fetch_alloced_pages p s = Ok k s -> fetch_alloced_pages p s' = Ok k s'.
Proof.
  intros E. unfold fetch_alloced_pages, get_meta32, bind.
  rewrite !(get_meta_ext _ s s' E).
  destruct (get_meta p s) as [b s0| | |] eqn:E0; try done.
  apply get_meta_state in E0 as ->.
  destruct (b <? 255); [by intros [= ->]|].
  rewrite !(get_meta_ext _ s s' E).
  repeat (destruct (get_meta _ s) as [? s0| | |] eqn:?; try done;
          match goal with H : get_meta _ s = Ok _ _ |- _ =>
            apply get_meta_state in H as -> end;
          rewrite ?(get_meta_ext _ s s' E)).
  by intros [= ->].
Qed.

Lemma realloc_ptr N s p :
  0 <= p < N -> N <= 2 ^ 52 ->
  0 < buffer_start s -> buffer_start s + N * FM_PAGE_SIZE < 2 ^ 64 ->
  buffer_start s + p * FM_PAGE_SIZE ≠ NULL /\
  ptr_to_page (buffer_start s + p * FM_PAGE_SIZE) s = Ok p s.
Proof.
  intros Hp HN Hb Hend. change FM_PAGE_SIZE with 4096 in *. split.
  - unfold NULL. lia.
  - rewrite <- (ptr_to_page_of_page s p) by lia.
    change FM_PAGE_SIZE with 4096.
    rewrite (wrap_small (p * 4096)) by lia. by rewrite wrap_small by lia.
Qed.

(** X21.  [fm_lm_realloc] to a size of at most the recorded number of
    pages returns the pointer it was given and changes nothing: no page is
    given back and the table keeps the recorded length. *)
Theorem fm_lm_realloc_within_recorded_length (N : Z) (s : state)
    (p k size t : Z) (fuel : nat) :
  0 <= p < N -> N <= 2 ^ 52 ->
  0 < buffer_start s -> buffer_start s + N * FM_PAGE_SIZE < 2 ^ 64 ->
  fetch_alloced_pages p s = Ok k s ->
  __fm_roundup size FM_PAGE_SIZE / FM_PAGE_SIZE <= k ->
  fm_lm_realloc fuel (buffer_start s + p * FM_PAGE_SIZE) size t s
  = Ok (buffer_start s + p * FM_PAGE_SIZE) s.
Proof.
  intros Hp HN Hb Hend Hk Hle.
  destruct (realloc_ptr N s p Hp HN Hb Hend) as [Hnull Hpage].
  unfold fm_lm_realloc.
  destruct (Z.eqb_spec (buffer_start s + p * FM_PAGE_SIZE) NULL) as [|_];
    [done|].
  erewrite bind_run; [|exact Hpage]. cbv beta.
  erewrite bind_run; [|exact Hk]. cbv beta.
  destruct (Z.leb_spec (__fm_roundup size FM_PAGE_SIZE / FM_PAGE_SIZE) k);
    [done|lia].
Qed.

Lemma fm_lm_realloc_within_recorded_length_witness :
  let s := state_of (then_calls 40 fresh_lm
                       [lm_malloc_call 8192 FM_LM_T_TRANSIENT]) in
  fm_lm_realloc 40 (buffer_start s + 1 * FM_PAGE_SIZE) 100 FM_LM_T_TRANSIENT s
  = Ok (buffer_start s + 1 * FM_PAGE_SIZE) s.
Proof.
  intros s.
  apply (fm_lm_realloc_within_recorded_length 32 s 1 2 100 FM_LM_T_TRANSIENT 40).
  - lia.
  - lia.
  - vm_compute. reflexivity.
  - vm_compute. reflexivity.
  - vm_compute. reflexivity.
  - vm_compute. discriminate.
Defined.

Lemma alloc_designated_loop_skips N start req L1b : forall L1a r L2 s fuel,
  free_rep N s (L1a ++ L1b ++ r :: L2) ->
  Forall (fun x => x.1 ≠ start) L1b -> r.1 = start -> req <= r.2 ->
  (length L1b < fuel)%nat ->
  alloc_designated_loop fuel start req
    (hd free_regions (nodes (L1b ++ r :: L2))) s
  = carve_front (page_ptr r.1) req s.
Proof.
  induction L1b as [|[xs xp] L1b IH];
    intros L1a r L2 s fuel Hrep Hother Hstart Hfit Hfuel.
  - destruct fuel as [|fuel]; [simpl in Hfuel; lia|].
    pose proof (free_rep_holds _ _ _ r Hrep ltac:(set_solver)) as [Hr1 Hr2].
    cbn [app hd nodes fmap list_fmap alloc_designated_loop cptr_eqb].
    mstep. destruct (Z.eqb_spec r.1 start) as [_|]; [|done].
    mstep. destruct (Z.leb_spec req r.2); [|lia].
    erewrite bind_run; [|reflexivity]. reflexivity.
  - destruct fuel as [|fuel]; [simpl in Hfuel; lia|].
    pose proof (free_rep_holds _ _ _ (xs, xp) Hrep ltac:(set_solver)) as [Hx1 Hx2].
    apply Forall_cons in Hother as [Hx Hother]. cbn [fst snd] in *.
    cbn [app hd nodes fmap list_fmap fst alloc_designated_loop cptr_eqb].
    mstep. destruct (Z.eqb_spec xs start) as [|_]; [done|].
    erewrite bind_run; [|reflexivity]. cbv beta iota.
    pose proof Hrep as ([Hc _] & _).
    rewrite nodes_app in Hc. cbn [app] in Hc. rewrite nodes_cons in Hc.
    cbn [fst] in Hc. apply chain_mid in Hc as [Hnx _].
    mstep. fold (nodes (L1b ++ r :: L2)).
    apply (IH (L1a ++ [(xs, xp)])); try done.
    + by rewrite <- app_assoc.
    + simpl in Hfuel. lia.
Qed.

(** X22.  [fm_lm_realloc] grows an allocation in place when the free
    region that starts right behind it is long enough: the pointer returned
    is the one given, the pages missing are taken from the front of that
    region, and the lists stay well formed.  The table of lengths is not
    written: it still holds the length recorded before the call. *)
Theorem fm_lm_realloc_extends_in_place (N : Z) (s : state)
    (L1 : list (Z * Z)) (np : Z) (L2 D : list (Z * Z)) (p k size t : Z)
    (fuel : nat) :
  let new := __fm_roundup size FM_PAGE_SIZE / FM_PAGE_SIZE in
  lm_inv N s (L1 ++ (p + k, np) :: L2) D ->
  region_ok N (p + k, np) -> 0 <= p -> 0 <= k ->
  fetch_alloced_pages p s = Ok k s ->
  k < new -> new - k <= np ->
  (new - k < np -> p + new ∉ (L1 ++ L2 ++ D).*1) ->
  0 < buffer_start s -> buffer_start s + N * FM_PAGE_SIZE < 2 ^ 64 ->
  (length L1 < fuel)%nat ->
  exists s',
    fm_lm_realloc fuel (buffer_start s + p * FM_PAGE_SIZE) size t s
    = Ok (buffer_start s + p * FM_PAGE_SIZE) s' /\
    lm_inv N s' (L1 ++ carve_low (new - k) (p + k, np) ++ L2) D /\
    fetch_alloced_pages p s' = Ok k s' /\
    meta_pages s' = meta_pages s.
Proof.
  intros new Hinv Hok Hp Hk Hfetch Hlt Hfit Hnew Hb Hend Hfuel.
  pose proof Hinv as (HN & Hfree & Hdef & Hnd).
  pose proof Hok as (Ho1 & Ho2 & Ho3). cbn [fst snd] in *.
  destruct (realloc_ptr N s p ltac:(lia) HN Hb Hend) as [Hnull Hpage].
  destruct (carve_front_run N s L1 (p + k) np L2 (new - k))
    as (s' & Hcarve & Hrep & Hfr); try done; [lia| |].
  { intros Hr. replace (p + k + (new - k)) with (p + new) by lia.
    specialize (Hnew ltac:(lia)). rewrite !fmap_app in *.
    rewrite !not_elem_of_app in *. tauto. }
  exists s'. split; [|split; [|split]].
  - unfold fm_lm_realloc. fold new.
    destruct (Z.eqb_spec (buffer_start s + p * FM_PAGE_SIZE) NULL) as [|_];
      [done|].
    erewrite bind_run; [|exact Hpage]. cbv beta.
    erewrite bind_run; [|exact Hfetch]. cbv beta.
    destruct (Z.leb_spec new k); [lia|].
    rewrite (wrap_small (p + k)) by lia.
    rewrite (wrap_small (new - k)) by lia.
    unfold alloc_designated_free_pages.
    pose proof Hfree as ([Hc _] & _). apply chain_next in Hc.
    rewrite bind_assoc. erewrite bind_run; [|by apply get_next_run].
    cbv beta.
    assert (Hloop : alloc_designated_loop fuel (p + k) (new - k)
                      (hd free_regions (nodes (L1 ++ (p + k, np) :: L2))) s
                    = Ok (p + k) s').
    { rewrite (alloc_designated_loop_skips N (p + k) (new - k) L1 []
                 (p + k, np) L2 s fuel); try done.
      pose proof (free_rep_NoDup _ _ _ Hfree) as HndL.
      apply NoDup_nodes in HndL. rewrite fmap_app, fmap_cons in HndL.
      cbn [fst] in HndL. apply NoDup_app in HndL as (_ & Hdis & _).
      apply Forall_forall. intros x Hx E.
      apply (Hdis x.1); [by apply list_elem_of_fmap_2|].
      rewrite E. apply elem_of_cons. by left. }
    erewrite bind_run; [|exact Hloop]. cbv beta.
    destruct (Z.eqb_spec (p + k) 0) as [|_]; [lia|]. reflexivity.
  - apply (lm_inv_carved_low N s); try done; [lia|].
    intros Hr. replace (p + k + (new - k)) with (p + new) by lia.
    apply Hnew. lia.
  - apply (fetch_alloced_pages_ext p k s s'); [apply Hfr|done].
  - apply Hfr.
Qed.

Lemma fm_lm_realloc_extends_in_place_witness :
  let s := state_of (then_calls 40 fresh_lm
                       [lm_malloc_call 8192 FM_LM_T_TRANSIENT]) in
  exists s',
    fm_lm_realloc 1 (buffer_start s + 1 * FM_PAGE_SIZE) (3 * 4096)
      FM_LM_T_TRANSIENT s
    = Ok (buffer_start s + 1 * FM_PAGE_SIZE) s' /\
    lm_inv 32 s' [(4, 28)] [] /\
    fetch_alloced_pages 1 s' = Ok 2 s'.
Proof.
  intros s.
  destruct (fm_lm_realloc_extends_in_place 32 s [] 29 [] [] 1 2 (3 * 4096)
              FM_LM_T_TRANSIENT 1) as (s' & H1 & H2 & H3 & _).
  - closed_lm_inv.
  - vm_compute. repeat split; discriminate.
  - lia.
  - lia.
  - vm_compute. reflexivity.
  - vm_compute. reflexivity.
  - vm_compute. discriminate.
  - intros _. vm_compute. apply not_elem_of_nil.
  - vm_compute. reflexivity.
  - vm_compute. reflexivity.
  - simpl. lia.
  - exists s'. split; [exact H1|]. split; [exact H2|exact H3].
Defined.

(** ** Reinitialisation *)

Lemma fm_lm_reinit_run buffer size zero_filled s :
  page_aligned buffer -> page_aligned size ->
  128 * 1024 <= size < 16 * 1024 * 1024 ->
  exists s',
    fm_lm_reinit buffer size zero_filled s = Ok 0 s' /\
    buffer_start s' = buffer /\
    (zero_filled = 0 -> meta_pages s' = ∅) /\
    lm_inv (size / FM_PAGE_SIZE) s' [(1, size / FM_PAGE_SIZE - 1)] [] /\
    region_ok (size / FM_PAGE_SIZE) (1, size / FM_PAGE_SIZE - 1) /\
    (forall i, c_next s' !! slab_lists i = statics (c_next s) !! slab_lists i /\
               c_prev s' !! slab_lists i = statics (c_prev s) !! slab_lists i) /\
    m_size s' = ∅ /\ m_count s' = ∅ /\ m_slab_index s' = ∅.
Proof.
  intros Hb Hs Hsize. unfold page_aligned in *.
  assert (HN : 32 <= size / FM_PAGE_SIZE < 4096).
  { change FM_PAGE_SIZE with 4096. split.
    - apply Z.div_le_lower_bound; lia.
    - apply Z.div_lt_upper_bound; lia. }
  unfold fm_lm_reinit. rewrite Hb, Hs. simpl negb. cbv iota.
  destruct (Z.ltb_spec size (128 * 1024)) as [|_]; [lia|].
  destruct (Z.geb_spec size (16 * 1024 * 1024)) as [|_]; [lia|].
  change (negb (0 =? 0)) with false. change (false || false) with false.
  cbv iota.
  eexists. split.
  { unfold c_list_init, c_list_link_after.
    mstep by reflexivity. repeat mstep. reflexivity. }
  st_simpl.
  split; [done|]. split.
  { intros ->. done. }
  split; [|split; [|split; [|done]]].
  - split; [lia|]. split; [|split].
    + split; [split|split].
      * simpl. split; [|split; [|split]]; by lk.
      * apply (bool_decide_unpack _). vm_compute. reflexivity.
      * apply Forall_singleton. split; st_simpl; by lk.
      * apply Forall_singleton. simpl. lia.
    + split; [split|split].
      * simpl. split; by lk.
      * apply NoDup_singleton.
      * done.
      * done.
    + simpl. apply NoDup_singleton.
  - unfold region_ok. simpl. lia.
  - intros i. split; by lk.
Qed.

(** X9.  [fm_lm_reinit] with arguments that pass its checks returns 0
    from any state and installs the buffer: the free list is the single
    region from page 1 to the end, the deferred list is empty, and the
    table is cleared when [zero_filled] is 0. *)
Theorem fm_lm_reinit_establishes_invariant (buffer size zero_filled : Z)
    (s : state) :
  page_aligned buffer -> page_aligned size ->
  128 * 1024 <= size < 16 * 1024 * 1024 ->
  exists s',
    fm_lm_reinit buffer size zero_filled s = Ok 0 s' /\
    buffer_start s' = buffer /\
    (zero_filled = 0 -> meta_pages s' = ∅) /\
    lm_inv (size / FM_PAGE_SIZE) s' [(1, size / FM_PAGE_SIZE - 1)] [] /\
    region_ok (size / FM_PAGE_SIZE) (1, size / FM_PAGE_SIZE - 1).
Proof.
  intros Hb Hs Hsize.
  destruct (fm_lm_reinit_run buffer size zero_filled s Hb Hs Hsize)
    as (s' & H1 & H2 & H3 & H4 & H5 & _).
  by exists s'.
Qed.

Lemma fm_lm_reinit_establishes_invariant_witness :
  exists s',
    fm_lm_reinit buffer0 (256 * 1024) 0 boot_state = Ok 0 s' /\
    buffer_start s' = buffer0 /\
    lm_inv 64 s' [(1, 63)] [].
Proof.
  destruct (fm_lm_reinit_establishes_invariant buffer0 (256 * 1024) 0
              boot_state) as (s' & H1 & H2 & _ & H4 & _).
  - reflexivity.
  - reflexivity.
  - lia.
  - exists s'. split; [exact H1|]. split; [exact H2|exact H4].
Defined.

(** X14.  [fm_sm_reinit] with arguments that pass the checks of
    [fm_lm_reinit] returns 0 from any state and leaves both layers well
    formed: one free region from page 1 to the end and five empty class
    lists. *)
Theorem fm_sm_reinit_establishes_invariant (buffer size zero_filled : Z)
    (s : state) :
  page_aligned buffer -> page_aligned size ->
  128 * 1024 <= size < 16 * 1024 * 1024 ->
  0 < buffer -> buffer + size < 2 ^ 64 ->
  exists s',
    fm_sm_reinit buffer size zero_filled s = Ok 0 s' /\
    buffer_start s' = buffer /\
    sm_inv (size / FM_PAGE_SIZE) s' [(1, size / FM_PAGE_SIZE - 1)] []
      [[]; []; []; []; []].
Proof.
  intros Hb Hs Hsize Hpos Hend.
  destruct (fm_lm_reinit_run buffer size zero_filled s Hb Hs Hsize)
    as (s1 & Hrun & Hbuf & _ & Hinv & Hok & _).
  assert (HN : 32 <= size / FM_PAGE_SIZE < 4096).
  { change FM_PAGE_SIZE with 4096. split.
    - apply Z.div_le_lower_bound; lia.
    - apply Z.div_lt_upper_bound; lia. }
  assert (HNs : size / FM_PAGE_SIZE * FM_PAGE_SIZE <= size).
  { change FM_PAGE_SIZE with 4096. pose proof (Z.mul_div_le size 4096). lia. }
  unfold fm_sm_reinit. erewrite bind_run; [|exact Hrun]. cbv beta.
  change (negb (0 =? 0)) with false. cbv iota.
  unfold c_list_init.
  eexists. split; [repeat mstep; reflexivity|].
  match goal with |- buffer_start ?x = _ /\ _ => set (s2 := x) end.
  assert (Hfr : frame [slab_lists 0; slab_lists 1; slab_lists 2; slab_lists 3;
                        slab_lists 4] s1 s2).
  { subst s2. solve_frame. }
  split; [by rewrite (proj1 Hfr)|].
  destruct Hinv as (H52 & Hfree & Hdef & Hnd).
  assert (Hout : forall q L, q ∈ q :: nodes L -> True) by done.
  split; [|split; [|split; [|split; [|split; [|split; [|split; [|split]]]]]]].
  - split; [done|]. split; [|split; [|done]].
    + eapply free_rep_frame; [exact Hfr| |exact Hfree].
      intros q Hq Hq'. simpl in Hq. set_solver.
    + eapply deferred_rep_frame; [exact Hfr| |exact Hdef].
      intros q Hq Hq'. simpl in Hq. set_solver.
  - by apply Forall_singleton.
  - by rewrite (proj1 Hfr), Hbuf.
  - rewrite (proj1 Hfr), Hbuf. lia.
  - unfold META_ENTRIES. lia.
  - done.
  - intros i S HS.
    pose proof (lookup_lt_Some _ _ _ HS) as Hi. cbn [length] in Hi.
    assert (HS' : S = []).
    { do 5 (destruct i as [|i]; [by injection HS|]). lia. }
    subst S. split; [|done]. split; [|apply NoDup_singleton].
    cbn [fmap list_fmap chain]. subst s2.
    do 5 (destruct i as [|i]; [split; st_simpl; by lk|]). lia.
  - intros i S n HS Hn.
    pose proof (lookup_lt_Some _ _ _ HS) as Hi. cbn [length] in Hi.
    assert (HS' : S = []).
    { do 5 (destruct i as [|i]; [by injection HS|]). lia. }
    subst S. by apply elem_of_nil in Hn.
  - intros i j Si Sj n _ HS _ Hn.
    pose proof (lookup_lt_Some _ _ _ HS) as Hi. cbn [length] in Hi.
    assert (HS' : Si = []).
    { do 5 (destruct i as [|i]; [by injection HS|]). lia. }
    subst Si. by apply elem_of_nil in Hn.
Qed.

Lemma fm_sm_reinit_establishes_invariant_witness :
  exists s',
    fm_sm_reinit buffer0 (128 * 1024) 0 boot_state = Ok 0 s' /\
    buffer_start s' = buffer0 /\
    sm_inv 32 s' [(1, 31)] [] [[]; []; []; []; []].
Proof.
  apply (fm_sm_reinit_establishes_invariant buffer0 (128 * 1024) 0 boot_state).
  - reflexivity.
  - reflexivity.
  - lia.
  - reflexivity.
  - reflexivity.
Defined.

(** ** The slab layer: bitmaps and cells *)

Lemma ctz_from_spec n : forall i x,
  let r := ctz_from n i x in
  i <= r <= i + Z.of_nat n /\
  (forall j, i <= j < r -> Z.testbit x j = false) /\
  (r < i + Z.of_nat n -> Z.testbit x r = true).
Proof.
  induction n as [|n IH]; intros i x; cbn [ctz_from].
  - cbv zeta. split; [lia|]. split; [intros j ?; lia|intros ?; lia].
  - cbv zeta. destruct (Z.testbit x i) eqn:E.
    + split; [lia|]. split; [intros j ?; lia|done].
    + specialize (IH (i + 1) x). cbv zeta in IH. destruct IH as (A & B & C).
      split; [lia|]. split.
      * intros j Hj. destruct (Z.eq_dec j i) as [->|]; [done|]. apply B. lia.
      * intros Hr. apply C. lia.
Qed.

Lemma testbit_not64 w j :
  0 <= j < 64 -> Z.testbit (not64 w) j = negb (Z.testbit w j).
Proof.
  intros Hj. unfold not64, wrap. rewrite Z.mod_pow2_bits_low by lia.
  apply Z.lnot_spec. lia.
Qed.

Lemma all_ones w :
  0 <= w < 2 ^ 64 -> (forall j, 0 <= j < 64 -> Z.testbit w j = true) ->
  w = UINT64_MAX.
Proof.
  intros Hw Hall. apply Z.bits_inj'. intros j Hj.
  change UINT64_MAX with (Z.ones 64).
  destruct (Z.lt_ge_cases j 64) as [Hlt|Hge].
  - rewrite Hall by lia. by rewrite Z.ones_spec_low by lia.
  - rewrite Z.ones_spec_high by lia.
    rewrite <- (Z.mod_small w (2 ^ 64)) by lia.
    apply Z.mod_pow2_bits_high. lia.
Qed.

Lemma ctzl_first_clear w :
  0 <= w < 2 ^ 64 -> w ≠ UINT64_MAX ->
  0 <= ctzl (not64 w) < 64 /\
  Z.testbit w (ctzl (not64 w)) = false /\
  forall j, 0 <= j < ctzl (not64 w) -> Z.testbit w j = true.
Proof.
  intros Hw Hne. unfold ctzl.
  pose proof (ctz_from_spec 64 0 (not64 w)) as H. cbv zeta in H.
  destruct H as (A & B & C). change (Z.of_nat 64) with 64 in *.
  assert (Hlt : ctz_from 64 0 (not64 w) < 64).
  { destruct (Z.lt_ge_cases (ctz_from 64 0 (not64 w)) 64) as [|Hge]; [done|].
    exfalso. apply Hne. apply all_ones; [done|]. intros j Hj.
    specialize (B j ltac:(lia)). rewrite testbit_not64 in B by lia.
    by destruct (Z.testbit w j). }
  split; [lia|]. split.
  - specialize (C ltac:(lia)). rewrite testbit_not64 in C by lia.
    by destruct (Z.testbit w _).
  - intros j Hj. specialize (B j ltac:(lia)).
    rewrite testbit_not64 in B by lia. by destruct (Z.testbit w j).
Qed.

Lemma bitmap_bit_low s n b0 j :
  start_page s !! n = Some b0 -> 0 <= j < 64 ->
  bitmap_bit s n j = Some (Z.testbit b0 j).
Proof.
  intros E Hj. unfold bitmap_bit, get_bitmap.
  rewrite Z.div_small, Z.mod_small by lia. simpl.
  unfold get_start_page, page_field. by rewrite E.
Qed.

Lemma bitmap_bit_high s n b1 j :
  pages s !! n = Some b1 -> 64 <= j < 128 ->
  bitmap_bit s n j = Some (Z.testbit b1 (j - 64)).
Proof.
  intros E Hj. unfold bitmap_bit, get_bitmap.
  assert (j / 64 = 1) as ->.
  { symmetry. apply (Z.div_unique j 64 1 (j - 64)); lia. }
  assert (j mod 64 = j - 64) as ->.
  { symmetry. apply (Z.mod_unique j 64 1 (j - 64)); lia. }
  simpl. unfold get_pages, page_field. by rewrite E.
Qed.

Lemma bitmap_next_free_run (s : state) (n b0 b1 cnt : Z) :
  start_page s !! n = Some b0 -> pages s !! n = Some b1 ->
  m_count s !! n = Some cnt ->
  0 <= b0 < 2 ^ 64 -> 0 <= b1 < 2 ^ 64 ->
  exists idx,
    bitmap_next_free (page_ptr n) s = Ok idx s /\
    (idx ≠ FM_SM_INVALID_SLAB ->
     0 <= idx < cnt /\ idx < 128 /\ bitmap_bit s n idx = Some false /\
     forall j, 0 <= j < idx -> bitmap_bit s n j = Some true) /\
    (idx = FM_SM_INVALID_SLAB ->
     forall j, 0 <= j < cnt -> j < 128 -> bitmap_bit s n j = Some true).
Proof.
  intros E0 E1 Ec H0 H1.
  unfold bitmap_next_free, get_bitmap, bind, get_start_page, get_pages,
    get_count, page_field. simpl. rewrite E0. simpl.
  destruct (Z.eqb_spec b0 UINT64_MAX) as [Hf0|Hn0]; simpl.
  - rewrite E1. simpl.
    assert (B0 : forall j, 0 <= j < 64 -> bitmap_bit s n j = Some true).
    { intros j Hj. rewrite (bitmap_bit_low s n b0) by done. f_equal.
      rewrite Hf0. change UINT64_MAX with (Z.ones 64).
      apply Z.ones_spec_low. lia. }
    destruct (Z.eqb_spec b1 UINT64_MAX) as [Hf1|Hn1]; simpl; rewrite Ec; simpl.
    + assert (B1 : forall j, 64 <= j < 128 -> bitmap_bit s n j = Some true).
      { intros j Hj. rewrite (bitmap_bit_high s n b1) by done. f_equal.
        rewrite Hf1. change UINT64_MAX with (Z.ones 64).
        apply Z.ones_spec_low. lia. }
      assert (B : forall j, 0 <= j < 128 -> bitmap_bit s n j = Some true).
      { intros j Hj. destruct (Z.lt_ge_cases j 64); [apply B0|apply B1]; lia. }
      destruct (Z.leb_spec cnt FM_SM_INVALID_SLAB).
      * eexists. split; [reflexivity|]. split; [done|].
        intros _ j Hj Hj'. apply B. lia.
      * eexists. split; [reflexivity|]. split; [done|].
        intros _ j Hj Hj'. apply B. lia.
    + destruct (ctzl_first_clear b1 H1 Hn1) as (C1 & C2 & C3).
      set (z := ctzl (not64 b1)) in *.
      destruct (Z.leb_spec cnt (64 + z)).
      * eexists. split; [reflexivity|]. split; [done|].
        intros _ j Hj Hj'. destruct (Z.lt_ge_cases j 64); [apply B0; lia|].
        rewrite (bitmap_bit_high s n b1) by (done || lia). f_equal.
        apply C3. lia.
      * eexists. split; [reflexivity|]. split.
        -- intros _. split; [lia|]. split; [lia|]. split.
           ++ rewrite (bitmap_bit_high s n b1) by (done || lia).
              replace (64 + z - 64) with z by lia. by rewrite C2.
           ++ intros j Hj. destruct (Z.lt_ge_cases j 64); [apply B0; lia|].
              rewrite (bitmap_bit_high s n b1) by (done || lia). f_equal.
              apply C3. lia.
        -- unfold FM_SM_INVALID_SLAB. lia.
  - rewrite Ec. simpl.
    destruct (ctzl_first_clear b0 H0 Hn0) as (C1 & C2 & C3).
    set (z := ctzl (not64 b0)) in *.
    destruct (Z.leb_spec cnt z).
    + eexists. split; [reflexivity|]. split; [done|].
      intros _ j Hj Hj'. rewrite (bitmap_bit_low s n b0) by (done || lia).
      f_equal. apply C3. lia.
    + eexists. split; [reflexivity|]. split.
      * intros _. split; [lia|]. split; [lia|]. split.
        -- rewrite (bitmap_bit_low s n b0) by (done || lia). by rewrite C2.
        -- intros j Hj. rewrite (bitmap_bit_low s n b0) by (done || lia).
           f_equal. apply C3. lia.
      * unfold FM_SM_INVALID_SLAB. lia.
Qed.

(** X16.  [bitmap_next_free] returns the index of the lowest clear bit of
    the two bitmap words when that index is below [count]: the bit is
    clear and all bits below it are set.  It returns [FM_SM_INVALID_SLAB]
    only when every bit below [count] is set. *)
Theorem bitmap_next_free_first_clear (s : state) (n b0 b1 cnt : Z) :
  start_page s !! n = Some b0 -> pages s !! n = Some b1 ->
  m_count s !! n = Some cnt ->
  0 <= b0 < 2 ^ 64 -> 0 <= b1 < 2 ^ 64 ->
  exists idx,
    bitmap_next_free (page_ptr n) s = Ok idx s /\
    (idx ≠ FM_SM_INVALID_SLAB ->
     0 <= idx < cnt /\ idx < 128 /\ bitmap_bit s n idx = Some false /\
     forall j, 0 <= j < idx -> bitmap_bit s n j = Some true) /\
    (idx = FM_SM_INVALID_SLAB ->
     forall j, 0 <= j < cnt -> j < 128 -> bitmap_bit s n j = Some true).
Proof. apply bitmap_next_free_run. Qed.

Lemma bitmap_next_free_first_clear_witness :
  exists idx,
    bitmap_next_free (page_ptr 31) one_cell_taken = Ok idx one_cell_taken /\
    (idx ≠ FM_SM_INVALID_SLAB ->
     0 <= idx < 63 /\ idx < 128 /\
     bitmap_bit one_cell_taken 31 idx = Some false /\
     forall j, 0 <= j < idx -> bitmap_bit one_cell_taken 31 j = Some true) /\
    (idx = FM_SM_INVALID_SLAB ->
     forall j, 0 <= j < 63 -> j < 128 ->
       bitmap_bit one_cell_taken 31 j = Some true).
Proof.
  apply (bitmap_next_free_first_clear one_cell_taken 31 1 0 63).
  - vm_compute. reflexivity.
  - vm_compute. reflexivity.
  - vm_compute. reflexivity.
  - lia.
  - lia.
Defined.

Lemma testbit_one k j :
  0 <= k -> 0 <= j -> Z.testbit (Z.shiftl 1 k) j = bool_decide (j = k).
Proof.
  intros Hk Hj. rewrite Z.shiftl_1_l. destruct (decide (j = k)) as [->|Hne].
  - rewrite bool_decide_eq_true_2 by done. by apply Z.pow2_bits_true.
  - rewrite bool_decide_eq_false_2 by done. apply Z.pow2_bits_false. done.
Qed.

Lemma div_mod_64_inj i j : i / 64 = j / 64 -> i mod 64 = j mod 64 -> i = j.
Proof.
  intros Hd Hm. rewrite (Z.div_mod i 64), (Z.div_mod j 64) by lia. lia.
Qed.

Lemma bitmap_word_run s n b0 b1 idx :
  start_page s !! n = Some b0 -> pages s !! n = Some b1 -> 0 <= idx < 128 ->
  get_bitmap (page_ptr n) (idx / 64) s
  = Ok (if idx / 64 =? 0 then b0 else b1) s /\
  (idx / 64 = 0 \/ idx / 64 = 1) /\ 0 <= idx mod 64 < 64.
Proof.
  intros E0 E1 Hidx.
  assert (Hq : 0 <= idx / 64 < 2).
  { split; [apply Z.div_pos; lia|apply Z.div_lt_upper_bound; lia]. }
  pose proof (Z.mod_pos_bound idx 64 ltac:(lia)) as Hr.
  split; [|split; [lia|done]].
  unfold get_bitmap, get_start_page, get_pages, page_field.
  destruct (Z.eqb_spec (idx / 64) 0) as [|Hn0]; [by rewrite E0|].
  destruct (Z.eqb_spec (idx / 64) 1) as [|Hn1]; [by rewrite E1|lia].
Qed.

Lemma bitmap_write_bits s n b0 b1 idx v s' :
  start_page s !! n = Some b0 -> pages s !! n = Some b1 -> 0 <= idx < 128 ->
  set_bitmap (page_ptr n) (idx / 64) v s = Ok tt s' ->
  forall j, 0 <= j < 128 ->
    bitmap_bit s' n j
    = if bool_decide (j / 64 = idx / 64) then Some (Z.testbit v (j mod 64))
      else bitmap_bit s n j.
Proof.
  intros E0 E1 Hidx Hset j Hj.
  destruct (bitmap_word_run s n b0 b1 idx E0 E1 Hidx) as (_ & Hq & _).
  assert (Hqj : j / 64 = 0 \/ j / 64 = 1).
  { assert (0 <= j / 64 < 2); [|lia].
    split; [apply Z.div_pos; lia|apply Z.div_lt_upper_bound; lia]. }
  unfold set_bitmap, set_start_page, set_pages, set_page_field in Hset.
  unfold bitmap_bit, get_bitmap, get_start_page, get_pages, page_field.
  destruct Hq as [Hq|Hq], Hqj as [Hqj|Hqj]; rewrite Hq, Hqj in *;
    simpl in Hset; injection Hset as <-; simpl; st_simpl;
    rewrite ?lookup_insert_eq, ?E0, ?E1; done.
Qed.

Lemma bitmap_set_run (s : state) (n b0 b1 idx : Z) :
  start_page s !! n = Some b0 -> pages s !! n = Some b1 ->
  0 <= idx < 128 ->
  exists s',
    bitmap_set (page_ptr n) idx s = Ok tt s' /\
    bitmap_bit s' n idx = Some true /\
    (forall j, 0 <= j < 128 -> j ≠ idx -> bitmap_bit s' n j = bitmap_bit s n j) /\
    (buffer_start s', meta_pages s', c_next s', c_prev s', m_size s',
     m_count s', m_slab_index s')
    = (buffer_start s, meta_pages s, c_next s, c_prev s, m_size s,
       m_count s, m_slab_index s).
Proof.
  intros E0 E1 Hidx.
  destruct (bitmap_word_run s n b0 b1 idx E0 E1 Hidx) as (Hget & Hq & Hr).
  set (w := if idx / 64 =? 0 then b0 else b1) in *.
  set (v := Z.lor w (Z.shiftl 1 (idx mod 64))).
  assert (Hset : exists s', set_bitmap (page_ptr n) (idx / 64) v s = Ok tt s' /\
            (buffer_start s', meta_pages s', c_next s', c_prev s', m_size s',
             m_count s', m_slab_index s')
            = (buffer_start s, meta_pages s, c_next s, c_prev s, m_size s,
               m_count s, m_slab_index s)).
  { unfold set_bitmap, set_start_page, set_pages, set_page_field.
    destruct Hq as [-> | ->]; simpl; eexists; split; reflexivity. }
  destruct Hset as (s' & Hset & Hsame).
  pose proof (bitmap_write_bits s n b0 b1 idx v s' E0 E1 Hidx Hset) as Hbits.
  exists s'. split; [|split; [|split; [|exact Hsame]]].
  - unfold bitmap_set. erewrite bind_run; [|exact Hget]. exact Hset.
  - rewrite Hbits by done. rewrite bool_decide_eq_true_2 by done. f_equal.
    subst v. rewrite Z.lor_spec, testbit_one by lia.
    rewrite bool_decide_eq_true_2 by done. apply orb_true_r.
  - intros j Hj Hne. rewrite Hbits by done.
    destruct (decide (j / 64 = idx / 64)) as [Hd|Hd].
    + rewrite bool_decide_eq_true_2 by done.
      assert (Hm : j mod 64 ≠ idx mod 64).
      { intros Hm. apply Hne. by apply div_mod_64_inj. }
      pose proof (Z.mod_pos_bound j 64 ltac:(lia)).
      subst v. rewrite Z.lor_spec, testbit_one by lia.
      rewrite bool_decide_eq_false_2 by done. rewrite orb_false_r.
      unfold bitmap_bit. rewrite Hd, Hget. done.
    + by rewrite bool_decide_eq_false_2.
Qed.


Lemma bitmap_clear_run (s : state) (n b0 b1 idx : Z) :
  start_page s !! n = Some b0 -> pages s !! n = Some b1 ->
  0 <= idx < 128 ->
  exists s',
    bitmap_clear (page_ptr n) idx s = Ok tt s' /\
    bitmap_bit s' n idx = Some false /\
    (forall j, 0 <= j < 128 -> j ≠ idx -> bitmap_bit s' n j = bitmap_bit s n j) /\
    (buffer_start s', meta_pages s', c_next s', c_prev s', m_size s',
     m_count s', m_slab_index s')
    = (buffer_start s, meta_pages s, c_next s, c_prev s, m_size s,
       m_count s, m_slab_index s).
Proof.
  intros E0 E1 Hidx.
  destruct (bitmap_word_run s n b0 b1 idx E0 E1 Hidx) as (Hget & Hq & Hr).
  set (w := if idx / 64 =? 0 then b0 else b1) in *.
  set (v := Z.land w (not64 (Z.shiftl 1 (idx mod 64)))).
  assert (Hset : exists s', set_bitmap (page_ptr n) (idx / 64) v s = Ok tt s' /\
            (buffer_start s', meta_pages s', c_next s', c_prev s', m_size s',
             m_count s', m_slab_index s')
            = (buffer_start s, meta_pages s, c_next s, c_prev s, m_size s,
               m_count s, m_slab_index s)).
  { unfold set_bitmap, set_start_page, set_pages, set_page_field.
    destruct Hq as [-> | ->]; simpl; eexists; split; reflexivity. }
  destruct Hset as (s' & Hset & Hsame).
  pose proof (bitmap_write_bits s n b0 b1 idx v s' E0 E1 Hidx Hset) as Hbits.
  exists s'. split; [|split; [|split; [|exact Hsame]]].
  - unfold bitmap_clear. erewrite bind_run; [|exact Hget]. exact Hset.
  - rewrite Hbits by done. rewrite bool_decide_eq_true_2 by done. f_equal.
    subst v. rewrite Z.land_spec, testbit_not64, testbit_one by lia.
    rewrite bool_decide_eq_true_2 by done. apply andb_false_r.
  - intros j Hj Hne. rewrite Hbits by done.
    destruct (decide (j / 64 = idx / 64)) as [Hd|Hd].
    + rewrite bool_decide_eq_true_2 by done.
      assert (Hm : j mod 64 ≠ idx mod 64).
      { intros Hm. apply Hne. by apply div_mod_64_inj. }
      pose proof (Z.mod_pos_bound j 64 ltac:(lia)).
      subst v. rewrite Z.land_spec, testbit_not64, testbit_one by lia.
      rewrite bool_decide_eq_false_2 by done. rewrite andb_true_r.
      unfold bitmap_bit. rewrite Hd, Hget. done.
    + by rewrite bool_decide_eq_false_2.
Qed.




Lemma page_aligned_mod x : 0 <= x -> page_aligned x <-> x mod 4096 = 0.
Proof.
  intros Hx. unfold page_aligned. change (FM_PAGE_SIZE - 1) with (Z.ones 12).
  rewrite Z.land_ones by lia. done.
Qed.

Lemma cell_address_run (N : Z) (s : state) (n sz cnt idx : Z) :
  1 <= n < N -> 0 < buffer_start s -> page_aligned (buffer_start s) ->
  buffer_start s + N * FM_PAGE_SIZE < 2 ^ 64 ->
  m_size s !! n = Some sz -> 0 < sz -> 0 <= idx < cnt ->
  PAGE_META_RESERVED_SIZE + cnt * sz <= FM_PAGE_SIZE ->
  let ptr := buffer_start s + n * FM_PAGE_SIZE + PAGE_META_RESERVED_SIZE
             + idx * sz in
  index_to_ptr (page_ptr n) idx s = Ok ptr s /\
  Z.land ptr (FM_PAGE_SIZE - 1) ≠ 0 /\
  record_at (__fm_rounddown ptr FM_PAGE_SIZE) s = Ok (page_ptr n) s /\
  forall off, 0 <= off < sz ->
    ptr_to_index (page_ptr n) (ptr + off) s = Ok idx s.
Proof.
  intros Hn Hb Hal Hend Hsz Hsz0 Hidx Hfit ptr.
  split; [by apply (index_to_ptr_in_page N _ _ _ cnt); try lia|].
  change FM_PAGE_SIZE with 4096 in *. change PAGE_META_RESERVED_SIZE with 64 in *.
  assert (Ho : 64 <= 64 + idx * sz /\ 64 + idx * sz + sz <= 4096) by nia.
  apply page_aligned_mod in Hal; [|lia].
  apply Z.mod_divide in Hal as [q Hq]; [|lia].
  assert (Hmod : ptr mod 4096 = 64 + idx * sz).
  { subst ptr. rewrite Hq.
    replace (q * 4096 + n * 4096 + 64 + idx * sz)
      with (64 + idx * sz + (q + n) * 4096) by lia.
    rewrite Z.mod_add by lia. apply Z.mod_small. lia. }
  assert (Hptr : 0 <= ptr < 2 ^ 64) by (subst ptr; lia).
  split; [|split].
  - change (4096 - 1) with (Z.ones 12). rewrite Z.land_ones by lia.
    change (2 ^ 12) with 4096. lia.
  - change 4096 with (2 ^ 12) at 1. rewrite rounddown_pow2 by lia.
    change (2 ^ 12) with 4096. rewrite Hmod.
    replace (ptr - (64 + idx * sz)) with (buffer_start s + n * FM_PAGE_SIZE)
      by (subst ptr; change FM_PAGE_SIZE with 4096; lia).
    apply record_at_addr. lia.
  - intros off Hoff.
    unfold ptr_to_index, address_of, bind, get_size, page_field.
    rewrite (page_to_ptr_small s n) by
      (change FM_PAGE_SIZE with 4096; lia).
    rewrite Hsz. simpl. destruct (Z.eqb_spec sz 0) as [|_]; [lia|].
    unfold ret. f_equal.
    change FM_PAGE_SIZE with 4096. change PAGE_META_RESERVED_SIZE with 64.
    rewrite (wrap_small (buffer_start s + n * 4096 + 64)) by lia.
    replace (ptr + off - (buffer_start s + n * 4096 + 64))
      with (off + idx * sz) by (subst ptr; lia).
    rewrite wrap_small by lia.
    rewrite Z.div_add by lia. rewrite Z.div_small by lia. lia.
Qed.

(** X19.  The address of a cell identifies the cell.  For cell [idx] of
    a slab page [n], [index_to_ptr] returns an address inside the page and
    past its header, so it is not page-aligned and [fm_sm_free] and
    [fm_sm_realloc] treat it as a cell; rounding it down gives back the
    record of page [n]; and [ptr_to_index] maps every address inside the
    cell to [idx]. *)
Theorem slab_cell_address (N : Z) (s : state) (n sz cnt idx : Z) :
  1 <= n < N -> 0 < buffer_start s -> page_aligned (buffer_start s) ->
  buffer_start s + N * FM_PAGE_SIZE < 2 ^ 64 ->
  m_size s !! n = Some sz -> 0 < sz -> 0 <= idx < cnt ->
  PAGE_META_RESERVED_SIZE + cnt * sz <= FM_PAGE_SIZE ->
  let ptr := buffer_start s + n * FM_PAGE_SIZE + PAGE_META_RESERVED_SIZE
             + idx * sz in
  index_to_ptr (page_ptr n) idx s = Ok ptr s /\
  Z.land ptr (FM_PAGE_SIZE - 1) ≠ 0 /\
  record_at (__fm_rounddown ptr FM_PAGE_SIZE) s = Ok (page_ptr n) s /\
  forall off, 0 <= off < sz ->
    ptr_to_index (page_ptr n) (ptr + off) s = Ok idx s.
Proof. apply cell_address_run. Qed.

Lemma slab_cell_address_witness :
  let s := state_of (then_calls 40 fresh_sm [sm_malloc_call 64]) in
  let ptr := buffer_start s + 31 * FM_PAGE_SIZE + PAGE_META_RESERVED_SIZE
             + 5 * 64 in
  index_to_ptr (page_ptr 31) 5 s = Ok ptr s /\
  Z.land ptr (FM_PAGE_SIZE - 1) ≠ 0 /\
  record_at (__fm_rounddown ptr FM_PAGE_SIZE) s = Ok (page_ptr 31) s.
Proof.
  intros s ptr.
  refine (let H := slab_cell_address 32 s 31 64 63 5 _ _ _ _ _ _ _ _ in
          conj (proj1 H) (conj (proj1 (proj2 H)) (proj1 (proj2 (proj2 H))))).
  - lia.
  - vm_compute. reflexivity.
  - vm_compute. reflexivity.
  - vm_compute. reflexivity.
  - vm_compute. reflexivity.
  - lia.
  - lia.
  - vm_compute. discriminate.
Defined.

Lemma bitmap_next_free_is s n b0 b1 cnt idx :
  start_page s !! n = Some b0 -> pages s !! n = Some b1 ->
  m_count s !! n = Some cnt ->
  0 <= b0 < 2 ^ 64 -> 0 <= b1 < 2 ^ 64 ->
  0 <= idx < cnt -> idx < 128 ->
  bitmap_bit s n idx = Some false ->
  (forall j, 0 <= j < idx -> bitmap_bit s n j = Some true) ->
  bitmap_next_free (page_ptr n) s = Ok idx s /\ idx ≠ FM_SM_INVALID_SLAB.
Proof.
  intros E0 E1 Ec H0 H1 Hidx H128 Hclear Hbelow.
  assert (Hne : idx ≠ FM_SM_INVALID_SLAB) by (unfold FM_SM_INVALID_SLAB; lia).
  split; [|done].
  destruct (bitmap_next_free_run s n b0 b1 cnt E0 E1 Ec H0 H1)
    as (z & Hrun & Hvalid & Hinvalid).
  rewrite Hrun. f_equal.
  destruct (Z.eq_dec z FM_SM_INVALID_SLAB) as [Hz|Hz].
  - specialize (Hinvalid Hz idx Hidx H128). congruence.
  - destruct (Hvalid Hz) as (Z1 & Z2 & Z3 & Z4).
    destruct (Z.lt_trichotomy z idx) as [Hlt|[Heq|Hgt]]; [|done|].
    + specialize (Hbelow z ltac:(lia)). congruence.
    + specialize (Z4 idx ltac:(lia)). congruence.
Qed.

Lemma bitmap_all_used_run s n b0 b1 cnt :
  start_page s !! n = Some b0 -> pages s !! n = Some b1 ->
  m_count s !! n = Some cnt ->
  bitmap_all_used (page_ptr n) s
  = Ok (wrap (popcountl b0 + popcountl b1) =? cnt) s.
Proof.
  intros E0 E1 Ec.
  unfold bitmap_all_used, get_bitmap, bind, get_start_page, get_pages,
    get_count, page_field. simpl. rewrite E0. simpl. rewrite E1. simpl.
  rewrite Ec. reflexivity.
Qed.

Lemma bitmap_set_state s n b0 b1 idx :
  start_page s !! n = Some b0 -> pages s !! n = Some b1 -> 0 <= idx < 128 ->
  bitmap_set (page_ptr n) idx s
  = Ok tt (if idx / 64 =? 0
           then upd_start_page n (Z.lor b0 (Z.shiftl 1 (idx mod 64))) s
           else upd_pages n (Z.lor b1 (Z.shiftl 1 (idx mod 64))) s).
Proof.
  intros E0 E1 Hidx.
  destruct (bitmap_word_run s n b0 b1 idx E0 E1 Hidx) as (Hget & Hq & _).
  unfold bitmap_set. erewrite bind_run; [|exact Hget].
  unfold set_bitmap, set_start_page, set_pages, set_page_field.
  destruct Hq as [-> | ->]; reflexivity.
Qed.

Lemma bitmap_clear_state s n b0 b1 idx :
  start_page s !! n = Some b0 -> pages s !! n = Some b1 -> 0 <= idx < 128 ->
  bitmap_clear (page_ptr n) idx s
  = Ok tt (if idx / 64 =? 0
           then upd_start_page n
                  (Z.land b0 (not64 (Z.shiftl 1 (idx mod 64)))) s
           else upd_pages n
                  (Z.land b1 (not64 (Z.shiftl 1 (idx mod 64)))) s).
Proof.
  intros E0 E1 Hidx.
  destruct (bitmap_word_run s n b0 b1 idx E0 E1 Hidx) as (Hget & Hq & _).
  unfold bitmap_clear. erewrite bind_run; [|exact Hget].
  unfold set_bitmap, set_start_page, set_pages, set_page_field.
  destruct Hq as [-> | ->]; reflexivity.
Qed.

Lemma words_changed_start n v s b1 :
  pages s !! n = Some b1 -> words_changed n s (upd_start_page n v s).
Proof.
  intros E1. split; [|split; [|done]].
  - exists v, b1. st_simpl. by rewrite lookup_insert_eq.
  - intros m Hm. st_simpl. by rewrite lookup_insert_ne.
Qed.

Lemma words_changed_pages n v s b0 :
  start_page s !! n = Some b0 -> words_changed n s (upd_pages n v s).
Proof.
  intros E0. split; [|split; [|done]].
  - exists b0, v. st_simpl. by rewrite lookup_insert_eq.
  - intros m Hm. st_simpl. by rewrite lookup_insert_ne.
Qed.

Lemma slab_page_ok_fields N s s' n :
  meta_pages s' = meta_pages s -> m_size s' = m_size s ->
  m_count s' = m_count s ->
  slab_page_ok N s n -> slab_page_ok N s' n.
Proof. intros E1 E2 E3. unfold slab_page_ok. by rewrite E1, E2, E3. Qed.

Lemma sm_take_cell_run N s i n S sz cnt b0 b1 idx fuel :
  slab_rep N s i (n :: S) ->
  m_size s !! n = Some sz -> m_count s !! n = Some cnt ->
  start_page s !! n = Some b0 -> pages s !! n = Some b1 ->
  0 <= b0 < 2 ^ 64 -> 0 <= b1 < 2 ^ 64 ->
  0 <= idx < cnt -> idx < 128 ->
  bitmap_bit s n idx = Some false ->
  (forall j, 0 <= j < idx -> bitmap_bit s n j = Some true) ->
  0 < buffer_start s -> buffer_start s + N * FM_PAGE_SIZE < 2 ^ 64 ->
  exists s' S',
    sm_scan_loop (Datatypes.S fuel) (slab_lists i) (page_ptr n) s
    = Ok (Some (buffer_start s + n * FM_PAGE_SIZE + PAGE_META_RESERVED_SIZE
                + idx * sz)) s' /\
    bitmap_bit s' n idx = Some true /\
    (forall j, 0 <= j < 128 -> j ≠ idx ->
       bitmap_bit s' n j = bitmap_bit s n j) /\
    slab_rep N s' i S' /\ (S' = n :: S \/ S' = S) /\
    meta_pages s' = meta_pages s /\
    (forall m, m ≠ n -> start_page s' !! m = start_page s !! m /\
                        pages s' !! m = pages s !! m).
Proof.
  intros [Hdll Hpages] Hsz Hcnt E0 E1 H0 H1 Hidx H128 Hclear Hbelow Hb Hend.
  pose proof Hpages as [Hn HS]%Forall_cons.
  destruct Hn as (Hrange & Hmeta & sz' & cnt' & Hsz' & Hcnt' & Hsz0 & Hcnt0 & Hfit).
  rewrite Hsz in Hsz'. injection Hsz' as <-.
  rewrite Hcnt in Hcnt'. injection Hcnt' as <-.
  destruct (bitmap_next_free_is s n b0 b1 cnt idx) as [Hnext Hvalid]; try done.
  destruct (bitmap_set_run s n b0 b1 idx E0 E1 ltac:(lia))
    as (s1 & Hset & Hbit & Hothers & Hsame).
  assert (Hwc : words_changed n s s1).
  { rewrite (bitmap_set_state s n b0 b1 idx E0 E1 ltac:(lia)) in Hset.
    injection Hset as <-. destruct (idx / 64 =? 0).
    - by apply (words_changed_start n _ s b1).
    - by apply (words_changed_pages n _ s b0). }
  destruct Hwc as ((w0 & w1 & W0 & W1) & Hrest & _).
  injection Hsame as Eb Em En Ep Es Ec Ei.
  cbn [sm_scan_loop cptr_eqb].
  erewrite bind_run; [|exact Hnext]. cbv beta.
  destruct (Z.eqb_spec idx FM_SM_INVALID_SLAB) as [|_]; [done|].
  cbn [negb]. erewrite bind_run; [|exact Hset]. cbv beta.
  erewrite bind_run;
    [|apply (bitmap_all_used_run s1 n w0 w1 cnt); [done|done|by rewrite Ec]].
  cbv beta.
  assert (Hdll1 : dll (c_next s1) (c_prev s1) (slab_lists i)
                    ([] ++ page_ptr n :: (page_ptr <$> S)))
    by (rewrite En, Ep; exact Hdll).
  assert (Hok1 : forall s2, meta_pages s2 = meta_pages s1 ->
            m_size s2 = m_size s1 -> m_count s2 = m_count s1 ->
            Forall (slab_page_ok N s2) (n :: S)).
  { intros s2 A1 A2 A3. eapply Forall_impl; [exact Hpages|].
    intros m Hm. apply (slab_page_ok_fields N s); [congruence..|done]. }
  destruct (wrap (popcountl w0 + popcountl w1) =? cnt).
  - erewrite bind_run;
      [|eapply (c_list_unlink_run _ (slab_lists i)); exact Hdll1].
    cbv beta.
    set (s2 := unlinked _ _ _ s1).
    erewrite bind_run;
      [|apply (index_to_ptr_in_page N s2 n sz cnt idx); try done;
        subst s2; unfold unlinked; st_simpl; congruence].
    cbv beta. replace (buffer_start s2) with (buffer_start s)
      by (subst s2; unfold unlinked; st_simpl; congruence).
    exists s2, S. split; [reflexivity|].
    split; [|split; [|split; [|split; [by right|split]]]].
    + rewrite <- Hbit. by apply bitmap_bit_words.
    + intros j Hj Hne. rewrite <- (Hothers j Hj Hne). by apply bitmap_bit_words.
    + split.
      * apply (dll_unlinked s1 (slab_lists i) [] (page_ptr n)). exact Hdll1.
      * specialize (Hok1 s2 eq_refl eq_refl eq_refl).
        by apply Forall_cons in Hok1 as [_ ?].
    + subst s2. unfold unlinked. st_simpl. done.
    + intros m Hm. subst s2. unfold unlinked. st_simpl. by apply Hrest.
  - erewrite bind_run; [|reflexivity]. cbv beta.
    erewrite bind_run;
      [|apply (index_to_ptr_in_page N s1 n sz cnt idx); try done; congruence].
    cbv beta. rewrite Eb.
    exists s1, (n :: S). split; [reflexivity|].
    split; [done|]. split; [done|]. split; [|split; [by left|split; done]].
    split; [exact Hdll1|]. by apply Hok1.
Qed.





(** X26.  [fm_sm_realloc] of a cell to a size that fits the cell returns
    the pointer it was given and changes nothing. *)
Theorem fm_sm_realloc_within_cell (N : Z) (s : state) (n sz cnt idx size : Z)
    (fuel : nat) :
  1 <= n < N -> 0 < buffer_start s -> page_aligned (buffer_start s) ->
  buffer_start s + N * FM_PAGE_SIZE < 2 ^ 64 ->
  m_size s !! n = Some sz -> 0 < sz -> 0 <= idx < cnt ->
  PAGE_META_RESERVED_SIZE + cnt * sz <= FM_PAGE_SIZE ->
  size <= sz ->
  let ptr := buffer_start s + n * FM_PAGE_SIZE + PAGE_META_RESERVED_SIZE
             + idx * sz in
  fm_sm_realloc fuel ptr size s = Ok ptr s.
Proof.
  intros Hn Hb Hal Hend Hsz Hsz0 Hidx Hfit Hle ptr.
  destruct (cell_address_run N s n sz cnt idx) as (_ & Hland & Hrec & _);
    try done.
  fold ptr in Hland, Hrec. unfold fm_sm_realloc.
  destruct (Z.eqb_spec (Z.land ptr (FM_PAGE_SIZE - 1)) 0) as [|_]; [done|].
  erewrite bind_run; [|exact Hrec]. cbv beta.
  unfold get_size, page_field. unfold bind. rewrite Hsz. cbn [of_option ret].
  destruct (Z.leb_spec size sz); [done|lia].
Qed.

Lemma fm_sm_realloc_within_cell_witness :
  let ptr := buffer_start one_cell_taken + 31 * FM_PAGE_SIZE
             + PAGE_META_RESERVED_SIZE + 0 * 64 in
  fm_sm_realloc 40 ptr 64 one_cell_taken = Ok ptr one_cell_taken.
Proof.
  apply (fm_sm_realloc_within_cell 32 one_cell_taken 31 64 63 0 64 40).
  - lia.
  - vm_compute. reflexivity.
  - vm_compute. reflexivity.
  - vm_compute. reflexivity.
  - vm_compute. reflexivity.
  - lia.
  - lia.
  - vm_compute. discriminate.
  - lia.
Defined.

Lemma dll_local (s s' : state) h l :
  (forall q, q ∈ h :: l -> c_next s' !! q = c_next s !! q /\
                           c_prev s' !! q = c_prev s !! q) ->
  dll (c_next s) (c_prev s) h l -> dll (c_next s') (c_prev s') h l.
Proof.
  intros Hl [Hc Hnd]. split; [|done].
  eapply chain_frame; [| |exact Hc].
  - intros q Hq. by apply Hl.
  - intros q Hq. apply Hl. rewrite elem_of_app in Hq. rewrite elem_of_cons.
    destruct Hq as [Hq|Hq%list_elem_of_singleton]; [by right|by left].
Qed.

Lemma lm_inv_local N s s' L D :
  (forall q, q ∈ free_regions :: freed_memories :: nodes (L ++ D) ->
     c_next s' !! q = c_next s !! q /\ c_prev s' !! q = c_prev s !! q) ->
  (forall n, n ∈ (L ++ D).*1 ->
     start_page s' !! n = start_page s !! n /\ pages s' !! n = pages s !! n) ->
  lm_inv N s L D -> lm_inv N s' L D.
Proof.
  intros Hl Hw (HN & (Hd1 & Hh1 & Hr1) & (Hd2 & Hh2 & Hr2) & Hnd).
  split; [done|]. split; [|split; [|done]].
  - split; [|split; [|done]].
    + apply (dll_local s); [|done]. intros q Hq. apply Hl.
      rewrite nodes_app. rewrite !elem_of_cons, elem_of_app.
      rewrite elem_of_cons in Hq. tauto.
    + eapply Forall_holds_same; [|exact Hh1]. intros x Hx. apply Hw.
      rewrite fmap_app, elem_of_app. left. by apply list_elem_of_fmap_2.
  - split; [|split; [|done]].
    + apply (dll_local s); [|done]. intros q Hq. apply Hl.
      rewrite nodes_app. rewrite !elem_of_cons, elem_of_app.
      rewrite elem_of_cons in Hq. tauto.
    + eapply Forall_holds_same; [|exact Hh2]. intros x Hx. apply Hw.
      rewrite fmap_app, elem_of_app. right. by apply list_elem_of_fmap_2.
Qed.

Lemma slab_size_range i sz :
  slab_sizes !! i = Some sz -> 32 <= sz <= 1024 /\ (i < 5)%nat.
Proof.
  unfold slab_sizes. intros H.
  do 5 (destruct i as [|i]; [injection H as <-; lia|]). done.
Qed.

Lemma roundup_page : __fm_roundup FM_PAGE_SIZE FM_PAGE_SIZE / FM_PAGE_SIZE = 1.
Proof. reflexivity. Qed.

(** X24.  [fm_sm_malloc] with an empty class list opens a slab page: the
    last page of the last free region is taken as by a persistent request
    of one page, its header is set up for the class (cell size, count of
    cells, class index, bitmap with the bit of cell 0 alone), the page
    becomes the only one on the class list, and the address returned is
    that of cell 0, 64 bytes into the page.  The lists of the linear
    allocator stay well formed and the class fields and table entries of
    the other pages are unchanged. *)
Theorem fm_sm_malloc_opens_slab_page (N : Z) (s : state)
    (L1 : list (Z * Z)) (sp np : Z) (L2 D : list (Z * Z)) (i : nat)
    (sz size : Z) (fuel : nat) :
  let page := sp + np - 1 in
  lm_inv N s (L1 ++ (sp, np) :: L2) D ->
  region_ok N (sp, np) -> 1 <= np -> Forall (fun x => x.2 < 1) L2 ->
  slab_index size = Z.of_nat i -> slab_sizes !! i = Some sz ->
  dll (c_next s) (c_prev s) (slab_lists i) [] ->
  (1 < np -> page ∉ (L1 ++ L2 ++ D).*1) ->
  N < META_ENTRIES ->
  0 < buffer_start s -> buffer_start s + N * FM_PAGE_SIZE < 2 ^ 64 ->
  (length (L1 ++ (sp, np) :: L2) < fuel)%nat ->
  exists s',
    fm_sm_malloc fuel size s
    = Ok (buffer_start s + page * FM_PAGE_SIZE + PAGE_META_RESERVED_SIZE) s' /\
    lm_inv N s' (L1 ++ carve_high 1 (sp, np) ++ L2) D /\
    slab_rep N s' i [page] /\
    bitmap_bit s' page 0 = Some true /\
    (forall j, 0 < j < 128 -> bitmap_bit s' page j = Some false) /\
    m_size s' !! page = Some sz /\
    m_count s' !! page
    = Some ((FM_PAGE_SIZE - PAGE_META_RESERVED_SIZE) / sz) /\
    m_slab_index s' !! page = Some (Z.of_nat i) /\
    fetch_alloced_pages page s' = Ok 1 s' /\
    forall m, m ≠ page ->
      meta_pages s' !! m = meta_pages s !! m /\
      m_size s' !! m = m_size s !! m /\ m_count s' !! m = m_count s !! m /\
      m_slab_index s' !! m = m_slab_index s !! m.
Proof.
  intros page Hinv Hok Hnp Hlast Hi Hsz Hempty Hnew HN Hb Hend Hfuel.
  destruct (slab_size_range i sz Hsz) as [Hszr Hi5].
  pose proof Hok as (Ho1 & Ho2 & Ho3). cbn [fst snd] in *.
  destruct (fm_lm_malloc_run_frame N s L1 sp np L2 D FM_PAGE_SIZE
              FM_LM_T_PERSISTENT fuel)
    as (s2 & Hrun & Hinv2 & Hfetch & Hp1 & Hp2 & Hbuf & s1 & Hfr & Hs2);
    try done; rewrite ?roundup_page; try done.
  rewrite roundup_page in *.
  unfold served_page, served_list in *. cbn [fst snd] in *.
  change (FM_LM_T_PERSISTENT =? FM_LM_T_TRANSIENT) with false in *.
  cbv iota in *. fold page in Hrun, Hfetch, Hp1, Hp2, Hs2.
  specialize (Hs2 ltac:(lia)). subst s2.
  pose proof Hfr as (Fb & Fm & Fs & Fc & Fi & Fl & Fw).
  destruct Hempty as [[Hnx Hpv] _].
  assert (Hhead : slab_lists i ∉ free_regions
                    :: nodes (L1 ++ (sp, np) :: L2)
                    ++ nodes (carve_low 1 (sp, np))).
  { rewrite not_elem_of_cons, not_elem_of_app. split; [done|].
    split; by apply head_not_in_nodes. }
  destruct (Fl _ Hhead) as [Hnx1 Hpv1]. rewrite Hnx in Hnx1. rewrite Hpv in Hpv1.
  assert (Hpage52 : 0 <= page < 2 ^ 52) by (unfold META_ENTRIES in HN; lia).
  (* the page handed out is on neither list afterwards *)
  assert (Hfresh : page ∉ ((L1 ++ carve_high 1 (sp, np) ++ L2) ++ D).*1).
  { pose proof Hinv as (_ & _ & _ & Hnd).
    rewrite !fmap_app, fmap_cons in Hnd. cbn [fst] in Hnd.
    rewrite !fmap_app, !not_elem_of_app.
    destruct (Z.eq_dec np 1) as [->|Hne].
    - replace page with sp by (subst page; lia).
      apply NoDup_app in Hnd as (HndL & Hdis & _).
      apply NoDup_app in HndL as (_ & Hdis1 & [Hsp2 _]%NoDup_cons).
      split; [split; [|split]|].
      + intros H. apply (Hdis1 sp H). apply elem_of_cons. by left.
      + unfold carve_high. cbn [fst snd]. cbn. apply not_elem_of_nil.
      + done.
      + apply Hdis. rewrite elem_of_app, elem_of_cons. tauto.
    - specialize (Hnew ltac:(lia)).
      rewrite !fmap_app, !not_elem_of_app in Hnew.
      split; [split; [tauto|split; [|tauto]]|tauto].
      intros E%carve_high_starts. subst page. lia. }
  unfold fm_sm_malloc. rewrite Hi.
  destruct (Z.eqb_spec (Z.of_nat i) FM_SM_INVALID_SLAB) as [E|_].
  { unfold FM_SM_INVALID_SLAB in E. lia. }
  unfold slab_list_at.
  destruct (Z.leb_spec 0 (Z.of_nat i)); [|lia].
  destruct (Z.ltb_spec (Z.of_nat i) 5); [|lia].
  cbn [andb]. rewrite Nat2Z.id.
  erewrite bind_run; [|reflexivity]. cbv beta.
  erewrite bind_run; [|by apply get_next_run]. cbv beta.
  destruct fuel as [|fuel]; [simpl in Hfuel; lia|].
  cbn [sm_scan_loop]. rewrite cptr_eqb_refl.
  erewrite bind_run; [|reflexivity]. cbv beta iota.
  erewrite bind_run; [|exact Hrun]. cbv beta.
  destruct (Z.eqb_spec (buffer_start s + page * FM_PAGE_SIZE) NULL) as [E|_].
  { unfold NULL in E. change FM_PAGE_SIZE with 4096 in *. lia. }
  erewrite bind_run;
    [|rewrite <- Fb; apply (record_at_addr (upd_meta page 1 s1) page Hpage52)].
  cbv beta.
  unfold set_bitmap. cbn [Z.eqb].
  erewrite bind_run; [|reflexivity]. cbv beta.
  erewrite bind_run; [|reflexivity]. cbv beta.
  rewrite Hsz. cbn [of_option].
  erewrite bind_run; [|reflexivity]. cbv beta.
  erewrite bind_run; [|reflexivity]. cbv beta.
  erewrite bind_run; [|reflexivity]. cbv beta.
  erewrite bind_run; [|reflexivity]. cbv beta.
  unfold c_list_link_front, c_list_link_after.
  rewrite bind_assoc.
  erewrite bind_run; [|apply get_next_run; st_simpl; exact Hnx1]. cbv beta.
  repeat (rewrite ?bind_assoc; erewrite bind_run; [|reflexivity]; cbv beta).
  unfold bitmap_set, get_bitmap. change (0 / 64) with 0. change (0 mod 64) with 0.
  cbn [Z.eqb]. rewrite ?bind_assoc.
  erewrite bind_run; [|apply get_start_page_run; solve_lookup]. cbv beta.
  unfold set_bitmap. cbn [Z.eqb].
  erewrite bind_run; [|reflexivity]. cbv beta.
  unfold index_to_ptr, address_of.
  erewrite bind_run;
    [|apply page_to_ptr_small; st_simpl; change FM_PAGE_SIZE with 4096 in *; lia].
  cbv beta.
  unfold get_size, page_field.
  match goal with |- context [bind _ _ ?x] => set (sf := x) end.
  assert (Hszf : m_size sf !! page = Some sz).
  { subst sf. st_simpl. by lk. }
  unfold bind. rewrite Hszf. cbn [of_option ret].
  exists sf. split.
  { f_equal. subst sf. st_simpl.
    change FM_PAGE_SIZE with 4096 in *. change PAGE_META_RESERVED_SIZE with 64.
    rewrite Z.mul_0_l, (wrap_small 0) by lia. rewrite Z.add_0_r.
    rewrite Fb. rewrite (wrap_small (buffer_start s + page * 4096 + 64)) by lia.
    apply wrap_small. lia. }
  assert (Hw0 : start_page sf !! page = Some 1).
  { subst sf. st_simpl. by lk. }
  assert (Hw1 : pages sf !! page = Some 0).
  { subst sf. st_simpl. by lk. }
  split; [|split; [|split; [|split; [|split; [done|split; [|split; [|split]]]]]]].
  - eapply (lm_inv_local N (upd_meta page 1 s1)); [| |exact Hinv2].
    + intros q Hq. subst sf. st_simpl.
      assert (q ≠ slab_lists i).
      { intros ->. rewrite !elem_of_cons in Hq.
        destruct Hq as [?|[?|Hq]]; [done|done|].
        by apply head_not_in_nodes in Hq. }
      assert (q ≠ page_ptr page).
      { intros ->. rewrite !elem_of_cons in Hq.
        destruct Hq as [?|[?|Hq]]; [done|done|].
        by apply elem_of_nodes in Hq. }
      by lk.
    + intros n Hn. subst sf. st_simpl.
      assert (n ≠ page) by (intros ->; done).
      by lk.
  - split.
    + cbn [fmap list_fmap]. split; [|apply NoDup_cons; split;
                                       [|apply NoDup_singleton]].
      * cbn [chain]. subst sf. st_simpl. repeat split; by lk.
      * by intros ?%list_elem_of_singleton.
    + apply Forall_singleton. split; [lia|]. split.
      { subst sf. st_simpl. by lk. }
      exists sz, ((FM_PAGE_SIZE - PAGE_META_RESERVED_SIZE) / sz).
      split; [done|]. split; [subst sf; st_simpl; by lk|].
      change (FM_PAGE_SIZE - PAGE_META_RESERVED_SIZE) with 4032.
      change FM_PAGE_SIZE with 4096. change PAGE_META_RESERVED_SIZE with 64.
      split; [lia|]. split; [apply Z.div_pos; lia|].
      pose proof (Z.mul_div_le 4032 sz ltac:(lia)). lia.
  - rewrite (bitmap_bit_low sf page 1) by (done || lia). done.
  - intros j Hj. destruct (Z.lt_ge_cases j 64).
    + rewrite (bitmap_bit_low sf page 1) by (done || lia). f_equal.
      change 1 with (2 ^ 0). apply Z.pow2_bits_false. lia.
    + rewrite (bitmap_bit_high sf page 0) by (done || lia). f_equal.
      apply Z.bits_0.
  - subst sf. st_simpl. by lk.
  - subst sf. st_simpl. by lk.
  - apply (fetch_alloced_pages_ext page 1 (upd_meta page 1 s1)); [|done].
    subst sf. st_simpl. done.
  - intros m Hm. subst sf. st_simpl. rewrite Fm, Fs, Fc, Fi.
    repeat split; by lk.
Qed.

Lemma fm_sm_malloc_opens_slab_page_witness :
  let s := state_of fresh_sm in
  exists s',
    fm_sm_malloc 2 50 s
    = Ok (buffer_start s + (1 + 31 - 1) * FM_PAGE_SIZE
          + PAGE_META_RESERVED_SIZE) s' /\
    lm_inv 32 s' ([] ++ carve_high 1 (1, 31) ++ []) [] /\
    slab_rep 32 s' 1 [1 + 31 - 1].
Proof.
  intros s.
  destruct (fm_sm_malloc_opens_slab_page 32 s [] 1 31 [] [] 1 64 50 2)
    as (s' & H1 & H2 & H3 & _).
  - closed_lm_inv.
  - vm_compute. repeat split; discriminate.
  - lia.
  - constructor.
  - reflexivity.
  - reflexivity.
  - split; [split; vm_compute; reflexivity|apply NoDup_singleton].
  - intros _. vm_compute. apply not_elem_of_nil.
  - vm_compute. reflexivity.
  - vm_compute. reflexivity.
  - vm_compute. reflexivity.
  - simpl. lia.
  - exists s'. split; [exact H1|]. split; [exact H2|exact H3].
Defined.


Lemma full_with_one_cell_inv :
  sm_inv 32 full_with_one_cell [] [] [[]; [31]; []; []; []].
Proof.
  split; [|split; [|split; [|split; [|split; [|split; [|split; [|split]]]]]]].
  - closed_lm_inv.
  - constructor.
  - vm_compute. reflexivity.
  - vm_compute. reflexivity.
  - vm_compute. discriminate.
  - reflexivity.
  - intros i S HS.
    assert (Hcase : (i = 1%nat /\ S = [31])
                    \/ (i ≠ 1%nat /\ S = [] /\ (i < 5)%nat)).
    { do 5 (destruct i as [|i];
            [injection HS as <-;
             first [left; done|right; split; [done|split; [done|lia]]]|]).
      discriminate HS. }
    destruct Hcase as [[-> ->]|(Hne & -> & Hlt)].
    + split; [split; [repeat split; vm_compute; reflexivity
                     |apply (bool_decide_unpack _); vm_compute; reflexivity]|].
      apply Forall_singleton.
      split; [lia|]. split; [vm_compute; reflexivity|].
      exists 64, 63. split; [vm_compute; reflexivity|].
      split; [vm_compute; reflexivity|].
      split; [lia|]. split; [lia|]. vm_compute. discriminate.
    + do 5 (destruct i as [|i];
            [first [congruence
                   |split; [split; [split; vm_compute; reflexivity
                                   |apply NoDup_singleton]
                           |constructor]]|]).
      lia.
  - intros i S n _ _. cbn [app fmap list_fmap]. apply not_elem_of_nil.
  - intros i j Si Sj n Hij Hi Hj Hn Hn'.
    assert (Hone : forall k S, [[]; [31]; []; []; []] !! k = Some S ->
                     n ∈ S -> k = 1%nat).
    { intros k S Hk Hin.
      do 5 (destruct k as [|k];
            [injection Hk as <-; first [done|by apply elem_of_nil in Hin]|]).
      discriminate Hk. }
    apply Hij. rewrite (Hone i Si Hi Hn). symmetry. exact (Hone j Sj Hj Hn').
Qed.

